(** * ITCH 5.0 replay server, client framer and parser: a shallow embedding

    The development follows the C sources:
    - [itch_parser.c]: primitive big-endian readers, the type-to-length
      switch and the message dispatcher (modules [Codec] and [Parser]);
    - [itch_replay_server.c]: the length table, the timestamp reader, the
      framing/pacing loop [replay_itch_file], [broadcast_message] and the
      argument handling of [main] (module [Server]);
    - [itch_client.c]: the receive/framing loop of [main] (module [Client]);
    - [generate_sample_itch.c]: the big-endian writers and the records
      [main] writes (module [Generator]).
    Module [Stream] models what one read call of a producer delivers; module
    [Stdio] has [fread] and [gzread], which fill a request from as many
    deliveries as it takes, and the server loop over them; module [Binary64]
    has the [double] arithmetic of the pacer; modules [Accept], [Timer] and
    [Stats] have the slot bookkeeping of the accept thread, [nsleep] and the
    type breakdown of the client's [print_stats]; module [Feed] holds the
    predicates the statements use and sample data.  The definitions come
    first, the facts about them follow from [CodecFacts] on.

    Conventions.  A byte is a [Byte.byte]; its numeric value is [u8 b].
    Unsigned machine integers are [Z] with the wrap-around written out
    ([to_u16], [to_u32], [to_u64]).  A C pointer into a byte array is the list
    of bytes starting at that address, so [msg + k] is [skipn k msg] and
    [p[i]] is [byte_at p i].  The host is little-endian (the [memcpy] into a
    [uint64_t] followed by [__builtin_bswap64] only decodes big-endian data on
    such a host). *)

From Stdlib Require Import ZArith List Lia ZifyBool Bool QArith Qround.
From Stdlib Require Import Floats.SpecFloat.
From Stdlib Require Import Strings.Byte Strings.Ascii Strings.String.
Import ListNotations.
Open Scope Z_scope.

(* ================================================================== *)
(** * Codec: bytes, fixed-width integers, the type table               *)
(* ================================================================== *)

Module Codec.

(** Numeric value of a byte ([uint8_t] promoted to an integer). *)
Definition u8 (b : byte) : Z := Z.of_N (Byte.to_N b).

(** [p[i]]; a read past the modelled region yields [x00]. *)
Definition byte_at (p : list byte) (i : nat) : byte := nth i p x00.

Definition to_u16 (z : Z) : Z := z mod 2 ^ 16.
Definition to_u32 (z : Z) : Z := z mod 2 ^ 32.
Definition to_u64 (z : Z) : Z := z mod 2 ^ 64.

(** [static const uint8_t ITCH_MSG_LENGTHS[256] = { ['S'] = 12, ... }]:
    an array of 256 zeroes overwritten by the designated initialisers. *)
Fixpoint set_nth (n : nat) (v : Z) (l : list Z) : list Z :=
  match l, n with
  | [], _ => []
  | _ :: tl, O => v :: tl
  | x :: tl, S n' => x :: set_nth n' v tl
  end.

Definition designated (size : nat) (inits : list (byte * Z)) : list Z :=
  fold_left (fun arr iv => set_nth (N.to_nat (Byte.to_N (fst iv))) (snd iv) arr)
            inits (repeat 0 size).

Definition ITCH_MSG_LENGTHS : list Z :=
  Eval cbv in
  designated 256
    [ ("S"%byte, 12); ("R"%byte, 39); ("H"%byte, 25); ("Y"%byte, 20);
      ("L"%byte, 26); ("V"%byte, 35); ("W"%byte, 12); ("K"%byte, 28);
      ("A"%byte, 36); ("F"%byte, 40); ("E"%byte, 31); ("C"%byte, 36);
      ("X"%byte, 23); ("D"%byte, 19); ("U"%byte, 35); ("P"%byte, 44);
      ("Q"%byte, 40); ("B"%byte, 19); ("I"%byte, 50); ("N"%byte, 20) ].

(** [get_message_length] of the server: [ITCH_MSG_LENGTHS[msg_type]]. *)
Definition get_message_length (msg_type : byte) : Z :=
  nth (N.to_nat (Byte.to_N msg_type)) ITCH_MSG_LENGTHS 0.

(** [message_length_by_type] of the parser: the [switch]. *)
Definition message_length_by_type (t : byte) : Z :=
  match t with
  | "S"%byte => 12
  | "R"%byte => 39
  | "H"%byte => 25
  | "Y"%byte => 20
  | "L"%byte => 26
  | "V"%byte => 35
  | "W"%byte => 12
  | "K"%byte => 28
  | "A"%byte => 36
  | "F"%byte => 40
  | "E"%byte => 31
  | "C"%byte => 36
  | "X"%byte => 23
  | "D"%byte => 19
  | "U"%byte => 35
  | "P"%byte => 44
  | "Q"%byte => 40
  | "B"%byte => 19
  | "I"%byte => 50
  | "N"%byte => 20
  | _ => 0
  end.

(** [get_itch_message_length]: the exported wrapper used by the client. *)
Definition get_itch_message_length (msg_type : byte) : Z :=
  message_length_by_type msg_type.

(** The canonical table of the data model, as (type, length) rows. *)
Definition canonical_table : list (byte * Z) :=
  [ ("S"%byte, 12); ("R"%byte, 39); ("H"%byte, 25); ("Y"%byte, 20);
    ("L"%byte, 26); ("V"%byte, 35); ("W"%byte, 12); ("K"%byte, 28);
    ("A"%byte, 36); ("F"%byte, 40); ("E"%byte, 31); ("C"%byte, 36);
    ("X"%byte, 23); ("D"%byte, 19); ("U"%byte, 35); ("P"%byte, 44);
    ("Q"%byte, 40); ("B"%byte, 19); ("I"%byte, 50); ("N"%byte, 20) ].

(** Association-list lookup with 0 for a byte that has no row. *)
Fixpoint table_lookup (tbl : list (byte * Z)) (t : byte) : Z :=
  match tbl with
  | [] => 0
  | (k, v) :: tl => if Byte.eqb k t then v else table_lookup tl t
  end.

(** [read_be]: [for (i = 0; i < nbytes; ++i) v = (v << 8) | b[i];] on a
    [uint64_t] accumulator. *)
Fixpoint read_be_from (v : Z) (b : list byte) (i nbytes : nat) : Z :=
  match nbytes with
  | O => v
  | S k => read_be_from (to_u64 (Z.lor (Z.shiftl v 8) (u8 (byte_at b i)))) b (S i) k
  end.

Definition read_be (b : list byte) (nbytes : nat) : Z := read_be_from 0 b 0 nbytes.

(** [memcpy(&tmp, b, 8)] into a [uint64_t] on a little-endian host. *)
Definition load_u64 (b : list byte) : Z :=
  Z.lor (u8 (byte_at b 0))
 (Z.lor (Z.shiftl (u8 (byte_at b 1)) 8)
 (Z.lor (Z.shiftl (u8 (byte_at b 2)) 16)
 (Z.lor (Z.shiftl (u8 (byte_at b 3)) 24)
 (Z.lor (Z.shiftl (u8 (byte_at b 4)) 32)
 (Z.lor (Z.shiftl (u8 (byte_at b 5)) 40)
 (Z.lor (Z.shiftl (u8 (byte_at b 6)) 48)
        (Z.shiftl (u8 (byte_at b 7)) 56))))))).

(** [__builtin_bswap64]: byte [i] of the argument becomes byte [7 - i]. *)
Definition bswap64 (x : Z) : Z :=
  Z.lor (Z.shiftl (Z.land x 255) 56)
 (Z.lor (Z.shiftl (Z.land (Z.shiftr x 8) 255) 48)
 (Z.lor (Z.shiftl (Z.land (Z.shiftr x 16) 255) 40)
 (Z.lor (Z.shiftl (Z.land (Z.shiftr x 24) 255) 32)
 (Z.lor (Z.shiftl (Z.land (Z.shiftr x 32) 255) 24)
 (Z.lor (Z.shiftl (Z.land (Z.shiftr x 40) 255) 16)
 (Z.lor (Z.shiftl (Z.land (Z.shiftr x 48) 255) 8)
        (Z.land (Z.shiftr x 56) 255))))))).

(** [parse_timestamp] of the parser:
    [memcpy(&tmp, b, 8); tmp = __builtin_bswap64(tmp); return tmp >> 16;] *)
Definition parse_timestamp (b : list byte) : Z :=
  let tmp := load_u64 b in
  let tmp := bswap64 tmp in
  Z.shiftr tmp 16.

(** [read_timestamp] of the server: the same three statements. *)
Definition read_timestamp (b : list byte) : Z :=
  let tmp := load_u64 b in
  let tmp := bswap64 tmp in
  Z.shiftr tmp 16.

(** [read_u16]: [(uint16_t)((b[0] << 8) | b[1])]. *)
Definition read_u16 (b : list byte) : Z :=
  to_u16 (Z.lor (Z.shiftl (u8 (byte_at b 0)) 8) (u8 (byte_at b 1))).

(** [read_u32]: [(uint32_t)((b[0] << 24) | (b[1] << 16) | (b[2] << 8) | b[3])]. *)
Definition read_u32 (b : list byte) : Z :=
  to_u32 (Z.lor (Z.lor (Z.lor (Z.shiftl (u8 (byte_at b 0)) 24)
                              (Z.shiftl (u8 (byte_at b 1)) 16))
                       (Z.shiftl (u8 (byte_at b 2)) 8))
                (u8 (byte_at b 3))).

Definition read_u64 (b : list byte) : Z := read_be b 8.

(** The [while (n > 0 && out[n-1] == ' ') n--;] loop of [read_ascii], run on
    the reversed prefix. *)
Fixpoint drop_spaces (rev_out : list byte) : list byte :=
  match rev_out with
  | c :: tl => if Byte.eqb c " "%byte then drop_spaces tl else rev_out
  | [] => []
  end.

(** The C string an array holds: the bytes in front of its first NUL. *)
Fixpoint c_string (out : list byte) : list byte :=
  match out with
  | c :: tl => if Byte.eqb c x00 then [] else c :: c_string tl
  | [] => []
  end.

(** [read_ascii(b, len, out, outlen)]: the NUL-terminated string left in
    [out] ([outlen >= 1] at every call site), as [printf("%s")] shows it. *)
Definition read_ascii (b : list byte) (len outlen : nat) : list byte :=
  let n := if (len <? outlen - 1)%nat then len else (outlen - 1)%nat in
  let out := map (byte_at b) (seq 0 n) in
  c_string (rev (drop_spaces (rev out))).

(** [ITCHHeader] and [parse_header]. *)
Record ITCHHeader : Type := mkHeader {
  messageType : byte;
  stockLocate : Z;
  trackingNumber : Z;
  timestamp : Z
}.

Definition parse_header (msg : list byte) : ITCHHeader :=
  {| messageType := byte_at msg 0;
     stockLocate := read_u16 (skipn 1 msg);
     trackingNumber := read_u16 (skipn 3 msg);
     timestamp := parse_timestamp (skipn 5 msg) |}.

(** Unsigned big-endian value of a byte string (the mathematical reading the
    decoders are compared with). *)
Fixpoint be_value (bs : list byte) : Z :=
  match bs with
  | [] => 0
  | b :: tl => u8 b * 2 ^ (8 * Z.of_nat (List.length tl)) + be_value tl
  end.

(** Little-endian value of eight byte values: what [memcpy] leaves in a
    [uint64_t]. *)
Definition le8 (z0 z1 z2 z3 z4 z5 z6 z7 : Z) : Z :=
  z0 + z1 * 2 ^ 8 + z2 * 2 ^ 16 + z3 * 2 ^ 24 + z4 * 2 ^ 32 + z5 * 2 ^ 40
  + z6 * 2 ^ 48 + z7 * 2 ^ 56.

End Codec.

(* ================================================================== *)
(** * Parser: the per-type decoders and the dispatcher                 *)
(* ================================================================== *)

Module Parser.
Import Codec.

(** What a decoder writes to standard output, one constructor per [printf]
    format.  A price is kept as the decoded integer: the division by
    [10000.0] only serves the display. *)
Inductive line : Type :=
| Banner (text : string)                       (* a fixed line *)
| PU64 (label : string) (v : Z)                (* "%" PRIu64 *)
| PU64Pair (label : string) (v w : Z)          (* "%" PRIu64 " -> New: %" PRIu64 *)
| PU32 (label : string) (v : Z)                (* "%u" *)
| PChar (label : string) (c : byte)            (* "%c" *)
| PStr (label : string) (s : list byte)        (* "%s" *)
| PPrice (label : string) (v : Z)              (* "%u (%.4f)" *)
| UnknownType (t : byte)                       (* "[?] Unknown ITCH message type" *)
| Blank.                                       (* the closing "\n" *)

(** [S] System Event (12 bytes). *)
Definition parse_S (msg : list byte) (len : Z) : list line :=
  if len <? 12 then [] else
  let h := parse_header msg in
  let eventCode := byte_at msg 11 in
  [ Banner "[S] System Event";
    PU64 "Timestamp" (timestamp h);
    PChar "Event Code" eventCode ].

(** [R] Stock Directory (39 bytes). *)
Definition parse_R (msg : list byte) (len : Z) : list line :=
  if len <? 39 then [] else
  let stock := read_ascii (skipn 11 msg) 8 9 in
  let marketCategory := byte_at msg 19 in
  let financialStatus := byte_at msg 20 in
  let roundLotSize := read_u32 (skipn 21 msg) in
  [ Banner "[R] Stock Directory";
    PStr "Stock" stock;
    PChar "Market Category" marketCategory;
    PChar "Financial Status" financialStatus;
    PU32 "Round Lot Size" roundLotSize ].

(** [H] Stock Trading Action (25 bytes). *)
Definition parse_H (msg : list byte) (len : Z) : list line :=
  if len <? 25 then [] else
  let stock := read_ascii (skipn 11 msg) 8 9 in
  let tradingState := byte_at msg 19 in
  let reason := read_ascii (skipn 21 msg) 4 5 in
  [ Banner "[H] Stock Trading Action";
    PStr "Stock" stock;
    PChar "Trading State" tradingState;
    PStr "Reason" reason ].

(** [A] Add Order (No MPID) (36 bytes). *)
Definition parse_A (msg : list byte) (len : Z) : list line :=
  if len <? 36 then [] else
  let orderRefNum := read_u64 (skipn 11 msg) in
  let buySellIndicator := byte_at msg 19 in
  let shares := read_u32 (skipn 20 msg) in
  let stock := read_ascii (skipn 24 msg) 8 9 in
  let price := read_u32 (skipn 32 msg) in
  [ Banner "[A] Add Order (No MPID)";
    PU64 "Order Ref" orderRefNum;
    PChar "Side" buySellIndicator;
    PU32 "Shares" shares;
    PStr "Stock" stock;
    PPrice "Price" price ].

(** [F] Add Order (MPID) (40 bytes). *)
Definition parse_F (msg : list byte) (len : Z) : list line :=
  if len <? 40 then [] else
  let orderRefNum := read_u64 (skipn 11 msg) in
  let buySellIndicator := byte_at msg 19 in
  let shares := read_u32 (skipn 20 msg) in
  let stock := read_ascii (skipn 24 msg) 8 9 in
  let price := read_u32 (skipn 32 msg) in
  let attribution := read_ascii (skipn 36 msg) 4 5 in
  [ Banner "[F] Add Order (MPID)";
    PU64 "Order Ref" orderRefNum;
    PChar "Side" buySellIndicator;
    PU32 "Shares" shares;
    PStr "Stock" stock;
    PPrice "Price" price;
    PStr "MPID" attribution ].

(** [E] Order Executed (31 bytes). *)
Definition parse_E (msg : list byte) (len : Z) : list line :=
  if len <? 31 then [] else
  let orderRefNum := read_u64 (skipn 11 msg) in
  let executedShares := read_u32 (skipn 19 msg) in
  let matchNumber := read_u64 (skipn 23 msg) in
  [ Banner "[E] Order Executed";
    PU64 "Order Ref" orderRefNum;
    PU32 "Executed Shares" executedShares;
    PU64 "Match Number" matchNumber ].

(** [C] Order Executed With Price (36 bytes). *)
Definition parse_C (msg : list byte) (len : Z) : list line :=
  if len <? 36 then [] else
  let orderRefNum := read_u64 (skipn 11 msg) in
  let executedShares := read_u32 (skipn 19 msg) in
  let matchNumber := read_u64 (skipn 23 msg) in
  let executionPrice := read_u32 (skipn 32 msg) in
  [ Banner "[C] Order Executed With Price";
    PU64 "Order Ref" orderRefNum;
    PU32 "Executed Shares" executedShares;
    PU64 "Match Number" matchNumber;
    PPrice "Execution Price" executionPrice ].

(** [X] Order Cancel (23 bytes). *)
Definition parse_X (msg : list byte) (len : Z) : list line :=
  if len <? 23 then [] else
  let orderRefNum := read_u64 (skipn 11 msg) in
  let cancelledShares := read_u32 (skipn 19 msg) in
  [ Banner "[X] Order Cancel";
    PU64 "Order Ref" orderRefNum;
    PU32 "Cancelled Shares" cancelledShares ].

(** [D] Order Delete (19 bytes). *)
Definition parse_D (msg : list byte) (len : Z) : list line :=
  if len <? 19 then [] else
  let orderRefNum := read_u64 (skipn 11 msg) in
  [ Banner "[D] Order Delete";
    PU64 "Order Ref" orderRefNum ].

(** [U] Order Replace (35 bytes). *)
Definition parse_U (msg : list byte) (len : Z) : list line :=
  if len <? 35 then [] else
  let origOrderRefNum := read_u64 (skipn 11 msg) in
  let newOrderRefNum := read_u64 (skipn 19 msg) in
  let shares := read_u32 (skipn 27 msg) in
  let price := read_u32 (skipn 31 msg) in
  [ Banner "[U] Order Replace";
    PU64Pair "Orig Order Ref" origOrderRefNum newOrderRefNum;
    PU32 "Shares" shares;
    PPrice "Price" price ].

(** [P] Trade (Non-Cross) (44 bytes). *)
Definition parse_P (msg : list byte) (len : Z) : list line :=
  if len <? 44 then [] else
  let orderRefNum := read_u64 (skipn 11 msg) in
  let buySellIndicator := byte_at msg 19 in
  let shares := read_u32 (skipn 20 msg) in
  let stock := read_ascii (skipn 24 msg) 8 9 in
  let price := read_u32 (skipn 32 msg) in
  let matchNumber := read_u64 (skipn 36 msg) in
  [ Banner "[P] Trade (Non-Cross)";
    PU64 "Order Ref" orderRefNum;
    PChar "Side" buySellIndicator;
    PU32 "Shares" shares;
    PStr "Stock" stock;
    PPrice "Price" price;
    PU64 "Match Number" matchNumber ].

(** [Q] Cross Trade (40 bytes). *)
Definition parse_Q (msg : list byte) (len : Z) : list line :=
  if len <? 40 then [] else
  let shares := read_u64 (skipn 11 msg) in
  let stock := read_ascii (skipn 19 msg) 8 9 in
  let crossPrice := read_u32 (skipn 27 msg) in
  let matchNumber := read_u64 (skipn 31 msg) in
  let crossType := byte_at msg 39 in
  [ Banner "[Q] Cross Trade";
    PU64 "Shares" shares;
    PStr "Stock" stock;
    PPrice "Cross Price" crossPrice;
    PU64 "Match Number" matchNumber;
    PChar "Cross Type" crossType ].

(** [B] Broken Trade (19 bytes). *)
Definition parse_B (msg : list byte) (len : Z) : list line :=
  if len <? 19 then [] else
  let matchNumber := read_u64 (skipn 11 msg) in
  [ Banner "[B] Broken Trade";
    PU64 "Match Number" matchNumber ].

(** The [switch] of [parse_itch_message]: the decoder bound to a type byte,
    [None] for the [default:] label. *)
Definition decoder_of (type : byte) : option (list byte -> Z -> list line) :=
  match type with
  | "S"%byte => Some parse_S
  | "R"%byte => Some parse_R
  | "H"%byte => Some parse_H
  | "A"%byte => Some parse_A
  | "F"%byte => Some parse_F
  | "E"%byte => Some parse_E
  | "C"%byte => Some parse_C
  | "X"%byte => Some parse_X
  | "D"%byte => Some parse_D
  | "U"%byte => Some parse_U
  | "P"%byte => Some parse_P
  | "Q"%byte => Some parse_Q
  | "B"%byte => Some parse_B
  | _ => None
  end.

(** [parse_itch_message], the main dispatcher. *)
Definition parse_itch_message (msg : list byte) (len : Z) : list line :=
  if len =? 0 then [] else
  let type := byte_at msg 0 in
  (match decoder_of type with
   | Some parse_T => parse_T msg len
   | None => [UnknownType type]
   end) ++ [Blank].

(** The type bytes that have a [case] in the dispatcher, and the table types
    that have none. *)
Definition decoded_types : list byte :=
  [ "S"; "R"; "H"; "A"; "F"; "E"; "C"; "X"; "D"; "U"; "P"; "Q"; "B" ]%byte.

Definition undecoded_table_types : list byte :=
  [ "Y"; "L"; "V"; "W"; "K"; "I"; "N" ]%byte.

Definition mem_byte (t : byte) (l : list byte) : bool :=
  existsb (Byte.eqb t) l.

End Parser.

(* ================================================================== *)
(** * Stream: the byte producer                                        *)
(* ================================================================== *)

Module Stream.

(** The producers the framers pull from: [fread] / [gzread] on the opened
    file for the server, [recv] on the connected socket for the client.

    A source is the script of what successive reads will deliver: [Data bs]
    is a run of bytes the producer hands over in one call (a call asking for
    fewer bytes gets a prefix and leaves the rest for the next call), [Fail]
    is a call that reports an error (a negative return value).  The exhausted
    script is end-of-stream: every further call returns 0 bytes.  A regular
    file with contents [s] is the script [[Data s]].  [source_read] is one
    call that returns what one run holds, as [recv] does; [fread] and
    [gzread], which go on reading until the request is filled, are in
    [Stdio]. *)
Inductive chunk : Type :=
| Data (bs : list byte)
| Fail.

Definition source : Type := list chunk.

(** Result of one read call: the bytes stored at [buffer + buffer_used]
    ([bytes_read] is their number), or a negative return value. *)
Inductive read_result : Type :=
| Got (bs : list byte)
| Err.

Definition source_read (fp : source) (n : Z) : read_result * source :=
  match fp with
  | [] => (Got [], [])
  | Fail :: rest => (Err, rest)
  | Data bs :: rest =>
      if Z.of_nat (List.length bs) <=? n then (Got bs, rest)
      else (Got (firstn (Z.to_nat n) bs), Data (skipn (Z.to_nat n) bs) :: rest)
  end.

(** Bytes the source still holds. *)
Fixpoint source_bytes (fp : source) : list byte :=
  match fp with
  | [] => []
  | Data bs :: rest => bs ++ source_bytes rest
  | Fail :: rest => source_bytes rest
  end.

Definition file_source (contents : list byte) : source := [Data contents].

End Stream.

(* ================================================================== *)
(** * Server: framing and pacing loop, fan-out, start-up               *)
(* ================================================================== *)

Module Server.
Import Codec Stream.

Definition DEFAULT_PORT : Z := 9999.
Definition DEFAULT_SPEED : Q := 1.
Definition BUFFER_SIZE : Z := 64 * 1024.
Definition MAX_CLIENTS : nat := 32.

(** ** Loop state and observable events of [replay_itch_file] *)

(** [buffer] holds the [buffer_used] resident bytes of the scratch array;
    what lies behind them in the array is stale and is never framed. *)
Record replay_state : Type := mkReplay {
  buffer : list byte;
  fp : source;
  prev_timestamp : Z;
  messages_sent : Z;
  total_bytes : Z
}.

Definition buffer_used (st : replay_state) : Z := Z.of_nat (List.length (buffer st)).

Inductive event : Type :=
| StderrOpenFailed                    (* "Failed to open ... file" *)
| StdoutStarting                      (* "Starting replay: ..." *)
| StderrReadError                     (* "Read error" *)
| StdoutEndOfFile                     (* "End of file reached" *)
| StderrUnknownType (msg_type : byte) (* "Unknown message type: %c (0x%02X)" *)
| StderrIncomplete                    (* "Incomplete message at end of file" *)
| Nsleep (nanoseconds : Z)            (* nsleep(sleep_ns) *)
| Broadcast (msg : list byte)         (* broadcast_message(buffer, msg_len) *)
| StdoutProgress (sent bytes : Z)     (* "Sent %lu messages (%.2f MB)" *)
| StdoutComplete (sent bytes : Z).    (* "Replay complete: ..." *)

(** How one pass through the body of [while (server_running)] ends:
    [Continue] reaches the closing brace or a [continue], [Break] is a
    [break].  [server_running] is only cleared by [main] after the replay
    has returned, so the loop condition holds at every test. *)
Inductive outcome : Type :=
| Continue (evs : list event) (st : replay_state)
| Break (evs : list event) (st : replay_state).

Definition with_buffer (st : replay_state) (buf : list byte) (src : source) : replay_state :=
  {| buffer := buf; fp := src;
     prev_timestamp := prev_timestamp st;
     messages_sent := messages_sent st;
     total_bytes := total_bytes st |}.

(** "Read more data if buffer is low": the block guarded by
    [buffer_used < BUFFER_SIZE / 2].  [inl] is a [break]. *)
Definition refill (st : replay_state) : (list event * replay_state) + replay_state :=
  if buffer_used st <? BUFFER_SIZE / 2 then
    match source_read (fp st) (BUFFER_SIZE - buffer_used st) with
    | (Err, src) => inl ([StderrReadError], with_buffer st (buffer st) src)
    | (Got bs, src) =>
        if (Z.of_nat (List.length bs) =? 0) && (buffer_used st =? 0)
        then inl ([StdoutEndOfFile], with_buffer st (buffer st) src)
        else inr (with_buffer st (buffer st ++ bs) src)
    end
  else inr st.

(** "Wait for complete message": the block guarded by
    [buffer_used < msg_len], one further read and the two [break]s. *)
Definition wait_complete (st : replay_state) (msg_len : Z)
  : (list event * replay_state) + replay_state :=
  if buffer_used st <? msg_len then
    match source_read (fp st) (BUFFER_SIZE - buffer_used st) with
    | (Err, src) => inl ([], with_buffer st (buffer st) src)
    | (Got bs, src) =>
        if Z.of_nat (List.length bs) <=? 0
        then inl ([], with_buffer st (buffer st) src)
        else
          let st' := with_buffer st (buffer st ++ bs) src in
          if buffer_used st' <? msg_len
          then inl ([StderrIncomplete], st')
          else inr st'
    end
  else inr st.

Section Replay.

(** [(uint64_t)(delta_ns / speed_multiplier)]: the quotient is computed in
    binary64 and converted back.  The loop takes the computation as a
    parameter; [Binary64.quot_u64] below is the binary64 one.  The multiplier
    is the rational number the [double] denotes (the infinities and NaN,
    which [atof] returns for such words only, are left out). *)
Variable quot_u64 : Z -> Q -> Z.

(** "Calculate sleep time based on timestamp delta": [Some ns] is the call
    [nsleep(ns)], [None] is no call. *)
Definition pacer_sleep (prev_timestamp current_timestamp : Z) (speed_multiplier : Q)
  : option Z :=
  if (0 <? prev_timestamp) && (prev_timestamp <? current_timestamp)
     && negb (Qle_bool speed_multiplier 0)
  then
    let delta_ns := to_u64 (current_timestamp - prev_timestamp) in
    let sleep_ns := to_u64 (quot_u64 delta_ns speed_multiplier) in
    let sleep_ns := if 1000000000 <? sleep_ns then 1000000000 else sleep_ns in
    if 1000 <? sleep_ns then Some sleep_ns else None
  else None.

Definition sleep_events (s : option Z) : list event :=
  match s with
  | Some ns => [Nsleep ns]
  | None => []
  end.

(** One pass through the loop body. *)
Definition replay_iteration (speed_multiplier : Q) (st : replay_state) : outcome :=
  match refill st with
  | inl (evs, st') => Break evs st'
  | inr st1 =>
      if buffer_used st1 <? 1 then Break [] st1 else
      let msg_type := byte_at (buffer st1) 0 in
      let msg_len := get_message_length msg_type in
      if msg_len =? 0 then
        Continue [StderrUnknownType msg_type]
                 (with_buffer st1 (skipn 1 (buffer st1)) (fp st1))
      else
        match wait_complete st1 msg_len with
        | inl (evs, st') => Break evs st'
        | inr st2 =>
            let current_timestamp :=
              if 11 <=? msg_len then read_timestamp (skipn 5 (buffer st2)) else 0 in
            let slept := pacer_sleep (prev_timestamp st2) current_timestamp speed_multiplier in
            let sent := to_u64 (messages_sent st2 + 1) in
            let bytes := to_u64 (total_bytes st2 + msg_len) in
            let progress :=
              if sent mod 100000 =? 0 then [StdoutProgress sent bytes] else [] in
            Continue (sleep_events slept
                        ++ [Broadcast (firstn (Z.to_nat msg_len) (buffer st2))]
                        ++ progress)
                     {| buffer := skipn (Z.to_nat msg_len) (buffer st2);
                        fp := fp st2;
                        prev_timestamp := current_timestamp;
                        messages_sent := sent;
                        total_bytes := bytes |}
        end
  end.

(** The [while] loop, unrolled at most [fuel] times; [None] only when the
    fuel is used up before a [break]. *)
Fixpoint replay_loop (speed_multiplier : Q) (fuel : nat) (st : replay_state)
  : option (list event * replay_state) :=
  match fuel with
  | O => None
  | S fuel' =>
      match replay_iteration speed_multiplier st with
      | Break evs st' => Some (evs, st')
      | Continue evs st' =>
          match replay_loop speed_multiplier fuel' st' with
          | Some (evs', final) => Some (evs ++ evs', final)
          | None => None
          end
      end
  end.

(** Every pass that does not [break] removes at least one resident byte, so
    the bytes still to be handled bound the number of passes. *)
Definition pending (st : replay_state) : nat :=
  List.length (buffer st) + List.length (source_bytes (fp st)).

Definition initial_state (src : source) : replay_state :=
  {| buffer := []; fp := src; prev_timestamp := 0; messages_sent := 0; total_bytes := 0 |}.

Definition run_loop (speed_multiplier : Q) (st : replay_state)
  : option (list event * replay_state) :=
  replay_loop speed_multiplier (S (pending st)) st.

(** [replay_itch_file]: [opened] is what [gzopen]/[fopen] returned. *)
Definition replay_itch_file (opened : option source) (speed_multiplier : Q)
  : option (Z * list event) :=
  match opened with
  | None => Some (-1, [StderrOpenFailed])
  | Some src =>
      match run_loop speed_multiplier (initial_state src) with
      | Some (evs, final) =>
          Some (0, [StdoutStarting] ++ evs
                   ++ [StdoutComplete (messages_sent final) (total_bytes final)])
      | None => None
      end
  end.

End Replay.

(** ** Fan-out: [broadcast_message] *)

(** [client_t]; the peer address is kept as (host, port). *)
Record client_t : Type := mkClient {
  socket_fd : Z;
  address : Z * Z;
  active : bool
}.

(** [errno] values of <errno.h> on Linux. *)
Definition EPIPE : Z := 32.
Definition ECONNRESET : Z := 104.

(** What [send] does for the slot it is called on during one broadcast: its
    return value and the [errno] it leaves. *)
Record send_outcome : Type := mkSend {
  sent : Z;
  errno : Z
}.

Inductive net_event : Type :=
| Send (slot : nat) (fd : Z) (bytes : list byte)  (* send(fd, msg, len, MSG_NOSIGNAL) *)
| StdoutDisconnected (slot : nat)                 (* "Client %d disconnected" *)
| Close (slot : nat) (fd : Z)                     (* close(clients[i].socket_fd) *)
| PerrorSend (slot : nat).                        (* perror("send") *)

(** Body of the [for] loop for slot [i]. *)
Definition broadcast_slot (net : nat -> send_outcome) (msg : list byte) (len : Z)
           (i : nat) (c : client_t) : client_t * list net_event :=
  if negb (active c) then (c, []) else
  let r := net i in
  let attempt := Send i (socket_fd c) (firstn (Z.to_nat len) msg) in
  if sent r <? 0 then
    if (errno r =? EPIPE) || (errno r =? ECONNRESET) then
      ({| socket_fd := socket_fd c; address := address c; active := false |},
       [attempt; StdoutDisconnected i; Close i (socket_fd c)])
    else (c, [attempt; PerrorSend i])
  else (c, [attempt]).

(** [for (int i = 0; i < MAX_CLIENTS; i++)] from index [i] for [n] more
    slots over the tail [cs] of the array. *)
Fixpoint broadcast_slots (net : nat -> send_outcome) (msg : list byte) (len : Z)
         (i n : nat) (cs : list client_t) : list client_t * list net_event :=
  match n, cs with
  | S n', c :: rest =>
      let (c', evs) := broadcast_slot net msg len i c in
      let (rest', evs') := broadcast_slots net msg len (S i) n' rest in
      (c' :: rest', evs ++ evs')
  | _, _ => (cs, [])
  end.

(** [broadcast_message]: the return value [len], the client array and the
    socket operations performed while the mutex is held. *)
Definition broadcast_message (clients : list client_t) (net : nat -> send_outcome)
           (msg : list byte) (len : Z) : Z * list client_t * list net_event :=
  let (clients', evs) := broadcast_slots net msg len 0 MAX_CLIENTS clients in
  (len, clients', evs).

Definition sends_to (i : nat) (evs : list net_event) : nat :=
  List.length (filter (fun e => match e with Send j _ _ => Nat.eqb i j | _ => false end) evs).

Definition closes_of (i : nat) (evs : list net_event) : nat :=
  List.length (filter (fun e => match e with Close j _ => Nat.eqb i j | _ => false end) evs).

Definition slot_active (clients : list client_t) (i : nat) : bool :=
  match nth_error clients i with
  | Some c => active c
  | None => false
  end.

Definition disconnect_class (e : Z) : bool := (e =? EPIPE) || (e =? ECONNRESET).

(** ** Start-up: the argument handling of [main] *)

Record server_config : Type := mkConfig {
  filename : string;
  port : Z;
  speed_multiplier : Q;
  is_gzip : bool
}.

(** [len > 3 && strcmp(config.filename + len - 3, ".gz") == 0]. *)
Definition has_gz_suffix (name : string) : bool :=
  let len := String.length name in
  (3 <? len)%nat && String.eqb (substring (len - 3) 3 name) ".gz".

(** What the operating system answers during start-up. *)
Record environment : Type := mkEnv {
  socket_ok : bool;
  setsockopt_ok : bool;
  bind_ok : Z -> bool;
  listen_ok : bool;
  open_file : string -> bool -> option source
}.

Inductive main_event : Type :=
| StderrUsage                          (* "Usage: %s <itch_file> [port] [speed_multiplier]" *)
| StdoutConfig (cfg : server_config)   (* the "ITCH Replay Server" banner *)
| Perror (what : string)               (* perror("socket") and the like *)
| StdoutListening (port : Z)
| Replay (ret : Z) (evs : list event)  (* the call of replay_itch_file *)
| StdoutShutdown.                      (* "Server shutdown complete" *)

Section Main.

Variable quot_u64 : Z -> Q -> Z.

(** [atoi] and [atof] of the C library. *)
Variable atoi : string -> Z.
Variable atof : string -> Q.

(** "Parse arguments": [inl 1] is the [return 1] after the usage text. *)
Definition parse_args (argv : list string) : Z + server_config :=
  let argc := List.length argv in
  if (argc <? 2)%nat then inl 1 else
  let filename := nth 1 argv EmptyString in
  let port := if (3 <=? argc)%nat then atoi (nth 2 argv EmptyString) else DEFAULT_PORT in
  let speed := if (4 <=? argc)%nat then atof (nth 3 argv EmptyString) else DEFAULT_SPEED in
  inr {| filename := filename; port := port; speed_multiplier := speed;
         is_gzip := has_gz_suffix filename |}.

(** [main]: exit status and what was printed and run.  The accept thread and
    the two-second warm-up are not part of the trace. *)
Definition main (env : environment) (argv : list string)
  : option (Z * list main_event) :=
  match parse_args argv with
  | inl code => Some (code, [StderrUsage])
  | inr config =>
      if negb (socket_ok env) then Some (1, [StdoutConfig config; Perror "socket"]) else
      if negb (setsockopt_ok env) then Some (1, [StdoutConfig config; Perror "setsockopt"]) else
      if negb (bind_ok env (port config)) then Some (1, [StdoutConfig config; Perror "bind"]) else
      if negb (listen_ok env) then Some (1, [StdoutConfig config; Perror "listen"]) else
      match replay_itch_file quot_u64
              (open_file env (filename config) (is_gzip config))
              (speed_multiplier config) with
      | Some (ret, evs) =>
          Some (0, [StdoutConfig config; StdoutListening (port config);
                    Replay ret evs; StdoutShutdown])
      | None => None
      end
  end.

End Main.

(** Whether a run of [main] reported an argument error (the usage text) and
    the traces of the replays it started. *)
Definition argument_error (r : Z * list main_event) : bool :=
  existsb (fun e => match e with StderrUsage => true | _ => false end) (snd r).

Fixpoint replays (evs : list main_event) : list (list event) :=
  match evs with
  | [] => []
  | Replay _ tr :: tl => tr :: replays tl
  | _ :: tl => replays tl
  end.

(** The framed messages of a trace: the payloads handed to
    [broadcast_message], in order. *)
Fixpoint framed (evs : list event) : list (list byte) :=
  match evs with
  | [] => []
  | Broadcast msg :: tl => msg :: framed tl
  | _ :: tl => framed tl
  end.

(** The nanosecond arguments of the [nsleep] calls of a trace. *)
Fixpoint sleeps (evs : list event) : list Z :=
  match evs with
  | [] => []
  | Nsleep ns :: tl => ns :: sleeps tl
  | _ :: tl => sleeps tl
  end.

(** The bytes named by the unknown-type diagnostics of a trace. *)
Fixpoint unknown_reports (evs : list event) : list byte :=
  match evs with
  | [] => []
  | StderrUnknownType b :: tl => b :: unknown_reports tl
  | _ :: tl => unknown_reports tl
  end.

(** Number of truncated-message reports in a trace. *)
Fixpoint incomplete_reports (evs : list event) : nat :=
  match evs with
  | [] => O
  | StderrIncomplete :: tl => S (incomplete_reports tl)
  | _ :: tl => incomplete_reports tl
  end.

End Server.

(* ================================================================== *)
(** * Client: the receive and framing loops of [main]                  *)
(* ================================================================== *)

Module Client.
Import Codec Stream.

Definition BUFFER_SIZE : Z := 64 * 1024.

(** [int verbose = 0;] *)
Definition verbose : bool := false.

(** [stats_t] without the two clock readings. *)
Record stats_t : Type := mkStats {
  total_messages : Z;
  total_bytes : Z;
  messages_by_type : byte -> Z
}.

Definition init_stats : stats_t :=
  {| total_messages := 0; total_bytes := 0; messages_by_type := fun _ => 0 |}.

(** "Update stats". *)
Definition update_stats (stats : stats_t) (msg_type : byte) (msg_len : Z) : stats_t :=
  {| total_messages := to_u64 (total_messages stats + 1);
     total_bytes := to_u64 (total_bytes stats + msg_len);
     messages_by_type := fun t =>
       if Byte.eqb t msg_type then to_u64 (messages_by_type stats t + 1)
       else messages_by_type stats t |}.

(** [Framed msg] marks the point "Parse message / Update stats" reached with
    the complete message [buffer[0 .. msg_len)]; the other events are what
    the loop prints. *)
Inductive event : Type :=
| PerrorRecv                           (* perror("recv") *)
| StdoutDisconnected                   (* "Server disconnected" *)
| StderrUnknownType (msg_type : byte)  (* "Unknown message type: %c (0x%02X)" *)
| Framed (msg : list byte)
| StdoutParsed (out : list Parser.line)  (* parse_itch_message(buffer, msg_len) *)
| StdoutProgress (received bytes : Z)  (* "Received %lu messages (%.2f MB)" *)
| StderrNearlyFull.                    (* "Warning: buffer nearly full ..." *)

(** "Parse messages from buffer": the loop [while (buffer_used > 0)], at
    most [fuel] passes; it returns what it printed, the bytes left in the
    buffer and the statistics. *)
Fixpoint parse_buffer (fuel : nat) (buffer : list byte) (stats : stats_t)
  : option (list event * list byte * stats_t) :=
  match fuel with
  | O => None
  | S fuel' =>
      let buffer_used := Z.of_nat (List.length buffer) in
      if 0 <? buffer_used then
        if buffer_used <? 1 then Some ([], buffer, stats) else
        let msg_type := byte_at buffer 0 in
        let msg_len := get_itch_message_length msg_type in
        if msg_len =? 0 then
          match parse_buffer fuel' (skipn 1 buffer) stats with
          | Some (evs, rest, stats') => Some (StderrUnknownType msg_type :: evs, rest, stats')
          | None => None
          end
        else if buffer_used <? msg_len then Some ([], buffer, stats)
        else
          let parsed :=
            if verbose then [StdoutParsed (Parser.parse_itch_message buffer msg_len)]
            else [] in
          let stats1 := update_stats stats msg_type msg_len in
          let progress :=
            if total_messages stats1 mod 100000 =? 0
            then [StdoutProgress (total_messages stats1) (total_bytes stats1)] else [] in
          match parse_buffer fuel' (skipn (Z.to_nat msg_len) buffer) stats1 with
          | Some (evs, rest, stats') =>
              Some (parsed ++ [Framed (firstn (Z.to_nat msg_len) buffer)] ++ progress ++ evs,
                    rest, stats')
          | None => None
          end
      else Some ([], buffer, stats)
  end.

(** Each pass that stays in the loop removes a byte, so one pass per
    resident byte and a last test are enough. *)
Definition parse_messages (buffer : list byte) (stats : stats_t)
  : option (list event * list byte * stats_t) :=
  parse_buffer (S (List.length buffer)) buffer stats.

Record client_state : Type := mkClientState {
  buffer : list byte;
  sock : source;
  stats : stats_t
}.

(** The outer [while (1)]: one [recv], then the framing loop, then the
    nearly-full check ([buffer_used > BUFFER_SIZE * 0.9]). *)
Fixpoint receive_loop (fuel : nat) (st : client_state)
  : option (list event * client_state) :=
  match fuel with
  | O => None
  | S fuel' =>
      let buffer_used := Z.of_nat (List.length (buffer st)) in
      match source_read (sock st) (BUFFER_SIZE - buffer_used) with
      | (Err, sock') =>
          Some ([PerrorRecv], {| buffer := buffer st; sock := sock'; stats := stats st |})
      | (Got bs, sock') =>
          if Z.of_nat (List.length bs) =? 0 then
            Some ([StdoutDisconnected],
                  {| buffer := buffer st; sock := sock'; stats := stats st |})
          else
            match parse_messages (buffer st ++ bs) (stats st) with
            | None => None
            | Some (evs, rest, stats') =>
                let warn :=
                  if 9 * BUFFER_SIZE <? 10 * Z.of_nat (List.length rest)
                  then [StderrNearlyFull] else [] in
                match receive_loop fuel' {| buffer := rest; sock := sock'; stats := stats' |} with
                | Some (evs', final) => Some (evs ++ warn ++ evs', final)
                | None => None
                end
            end
      end
  end.

(** Every pass that stays in the loop takes at least one byte from the
    socket. *)
Definition run_client (sock : source) : option (list event * client_state) :=
  receive_loop (S (List.length (source_bytes sock)))
               {| buffer := []; sock := sock; stats := init_stats |}.

Fixpoint framed (evs : list event) : list (list byte) :=
  match evs with
  | [] => []
  | Framed msg :: tl => msg :: framed tl
  | _ :: tl => framed tl
  end.

Fixpoint unknown_reports (evs : list event) : list byte :=
  match evs with
  | [] => []
  | StderrUnknownType b :: tl => b :: unknown_reports tl
  | _ :: tl => unknown_reports tl
  end.

End Client.

(* ================================================================== *)
(** * Stdio: [fread] and [gzread], and the server loop over them       *)
(* ================================================================== *)

Module Stdio.
Import Codec Stream Server.

(** [fread] and [gzread] block until the request is filled or the stream
    ends: the pieces in which a producer hands over its bytes (the writes
    into a pipe, the blocks of a file) are gathered, and a count below the
    request is only returned at the end of the stream or at an error.
    [gather fp n] takes up to [n] bytes across the deliveries of the script
    [fp] and stops in front of a [Fail]. *)
Fixpoint gather (fp : source) (n : nat) : list byte * source :=
  match fp with
  | Data bs :: rest =>
      if (List.length bs <=? n)%nat then
        let (more, fp') := gather rest (n - List.length bs) in (bs ++ more, fp')
      else (firstn n bs, Data (skipn n bs) :: rest)
  | _ => ([], fp)
  end.

(** [fread(ptr, 1, n, fp)]: the count is a [size_t], an error shows as a
    short count. *)
Definition fread (fp : source) (n : Z) : read_result * source :=
  let (bs, fp') := gather fp (Z.to_nat n) in (Got bs, fp').

(** [gzread(fp, ptr, n)]: -1 when the error is met before any byte, and
    from then on. *)
Definition gzread (fp : source) (n : Z) : read_result * source :=
  match fp with
  | Fail :: _ => (Err, fp)
  | _ => fread fp n
  end.

Section Reader.

(** The [is_gzip] argument of [replay_itch_file]. *)
Variable is_gzip : bool.

(** The two-armed read [if (is_gzip) gzread(...) else fread(...)] with the
    request [BUFFER_SIZE - buffer_used]. *)
Definition read_more (st : replay_state) : read_result * source :=
  if is_gzip then gzread (fp st) (BUFFER_SIZE - buffer_used st)
  else fread (fp st) (BUFFER_SIZE - buffer_used st).

(** "Read more data if buffer is low". *)
Definition refill (st : replay_state) : (list event * replay_state) + replay_state :=
  if buffer_used st <? BUFFER_SIZE / 2 then
    match read_more st with
    | (Err, src) => inl ([StderrReadError], with_buffer st (buffer st) src)
    | (Got bs, src) =>
        if (Z.of_nat (List.length bs) =? 0) && (buffer_used st =? 0)
        then inl ([StdoutEndOfFile], with_buffer st (buffer st) src)
        else inr (with_buffer st (buffer st ++ bs) src)
    end
  else inr st.

(** "Wait for complete message". *)
Definition wait_complete (st : replay_state) (msg_len : Z)
  : (list event * replay_state) + replay_state :=
  if buffer_used st <? msg_len then
    match read_more st with
    | (Err, src) => inl ([], with_buffer st (buffer st) src)
    | (Got bs, src) =>
        if Z.of_nat (List.length bs) <=? 0
        then inl ([], with_buffer st (buffer st) src)
        else
          let st' := with_buffer st (buffer st ++ bs) src in
          if buffer_used st' <? msg_len
          then inl ([StderrIncomplete], st')
          else inr st'
    end
  else inr st.

Variable quot_u64 : Z -> Q -> Z.

(** One pass through the body of [while (server_running)]. *)
Definition replay_iteration (speed_multiplier : Q) (st : replay_state) : outcome :=
  match refill st with
  | inl (evs, st') => Break evs st'
  | inr st1 =>
      if buffer_used st1 <? 1 then Break [] st1 else
      let msg_type := byte_at (buffer st1) 0 in
      let msg_len := get_message_length msg_type in
      if msg_len =? 0 then
        Continue [StderrUnknownType msg_type]
                 (with_buffer st1 (skipn 1 (buffer st1)) (fp st1))
      else
        match wait_complete st1 msg_len with
        | inl (evs, st') => Break evs st'
        | inr st2 =>
            let current_timestamp :=
              if 11 <=? msg_len then read_timestamp (skipn 5 (buffer st2)) else 0 in
            let slept :=
              pacer_sleep quot_u64 (prev_timestamp st2) current_timestamp speed_multiplier in
            let sent := to_u64 (messages_sent st2 + 1) in
            let bytes := to_u64 (total_bytes st2 + msg_len) in
            let progress :=
              if sent mod 100000 =? 0 then [StdoutProgress sent bytes] else [] in
            Continue (sleep_events slept
                        ++ [Broadcast (firstn (Z.to_nat msg_len) (buffer st2))]
                        ++ progress)
                     {| buffer := skipn (Z.to_nat msg_len) (buffer st2);
                        fp := fp st2;
                        prev_timestamp := current_timestamp;
                        messages_sent := sent;
                        total_bytes := bytes |}
        end
  end.

Fixpoint replay_loop (speed_multiplier : Q) (fuel : nat) (st : replay_state)
  : option (list event * replay_state) :=
  match fuel with
  | O => None
  | S fuel' =>
      match replay_iteration speed_multiplier st with
      | Break evs st' => Some (evs, st')
      | Continue evs st' =>
          match replay_loop speed_multiplier fuel' st' with
          | Some (evs', final) => Some (evs ++ evs', final)
          | None => None
          end
      end
  end.

Definition run_loop (speed_multiplier : Q) (st : replay_state)
  : option (list event * replay_state) :=
  replay_loop speed_multiplier (S (pending st)) st.

End Reader.

(** The stream a producer hands over in the given pieces, none of them an
    error. *)
Definition deliveries (pieces : list (list byte)) : source := map Data pieces.

End Stdio.

(* ================================================================== *)
(** * Binary64: the [double] arithmetic of the pacer                   *)
(* ================================================================== *)

Module Binary64.

(** The [double] of the C implementation is IEEE 754 binary64: 53 bits of
    precision, exponents below 1024, round to nearest even.  Values and
    operations are those of the standard library's specification of
    floating-point arithmetic. *)
Definition prec : Z := 53.
Definition emax : Z := 1024.

Definition binary64 : Type := spec_float.

(** Conversion of an integer to [double], as in the usual arithmetic
    conversion of [delta_ns] in [delta_ns / speed_multiplier]. *)
Definition of_Z (z : Z) : binary64 := binary_normalize prec emax z 0 false.

(** The [/] of two [double]s. *)
Definition div (x y : binary64) : binary64 := SFdiv prec emax x y.

(** The [double] a rational number is held as: the correctly rounded
    quotient of numerator and denominator (both are converted exactly when
    they are below 2^53). *)
Definition of_Q (q : Q) : binary64 := div (of_Z (Qnum q)) (of_Z (Zpos (Qden q))).

(** The integer part of a finite [double] (a conversion to an integer type
    truncates toward zero); [None] for infinities and NaN. *)
Definition truncate (x : binary64) : option Z :=
  match x with
  | S754_zero _ => Some 0
  | S754_finite s m e =>
      let a := Z.shiftl (Zpos m) e in Some (if s then - a else a)
  | _ => None
  end.

(** [(uint64_t)x].  C defines the conversion only when the integer part
    fits the type; [out_of_range] is what it leaves otherwise (0 for a value
    of 2^64 or more with the conversion sequence compilers emit for x86-64,
    2^64 - 1 where the conversion saturates). *)
Definition to_uint64 (out_of_range : Z) (x : binary64) : Z :=
  match truncate x with
  | Some z => if (0 <=? z) && (z <? 2 ^ 64) then z else out_of_range
  | None => out_of_range
  end.

(** [(uint64_t)(delta_ns / speed_multiplier)]. *)
Definition quot_u64 (out_of_range : Z) (delta_ns : Z) (speed_multiplier : Q) : Z :=
  to_uint64 out_of_range (div (of_Z delta_ns) (of_Q speed_multiplier)).

(** The behaviour on x86-64. *)
Definition quot_u64_x86 : Z -> Q -> Z := quot_u64 0.

End Binary64.

(* ================================================================== *)
(** * Accept: the slot bookkeeping of [accept_clients_thread]          *)
(* ================================================================== *)

Module Accept.
Import Codec Server.

(** "Find free slot": [for (i = 0; i < MAX_CLIENTS; i++) if
    (!clients[i].active) { slot = i; break; }] from index [i] for [n] more
    slots over the tail [cs] of the array; [None] is [slot = -1]. *)
Fixpoint find_free_slot (i n : nat) (cs : list client_t) : option nat :=
  match n, cs with
  | S n', c :: rest => if negb (active c) then Some i else find_free_slot (S i) n' rest
  | _, _ => None
  end.

Inductive accept_event : Type :=
| StdoutConnected (slot : nat) (address : Z * Z)  (* "Client %d connected from %s:%d" *)
| StdoutRejected                                  (* "Max clients reached, ..." *)
| CloseRejected (fd : Z).                         (* close(client_fd) *)

(** [clients[slot] = { client_fd, client_addr, 1 }]. *)
Fixpoint assign (cs : list client_t) (slot : nat) (c : client_t) : list client_t :=
  match cs, slot with
  | [], _ => []
  | _ :: tl, O => c :: tl
  | x :: tl, S k => x :: assign tl k c
  end.

(** The part of the loop body that runs with the mutex held, once [accept]
    has returned the descriptor [client_fd] of a peer at [client_addr]. *)
Definition register_client (clients : list client_t) (client_fd : Z) (client_addr : Z * Z)
  : list client_t * list accept_event :=
  match find_free_slot 0 MAX_CLIENTS clients with
  | Some slot =>
      (assign clients slot
         {| socket_fd := client_fd; address := client_addr; active := true |},
       [StdoutConnected slot client_addr])
  | None => (clients, [StdoutRejected; CloseRejected client_fd])
  end.

(** Number of active slots. *)
Definition active_count (clients : list client_t) : nat :=
  List.length (filter active clients).

End Accept.

(* ================================================================== *)
(** * Timer: [nsleep]                                                  *)
(* ================================================================== *)

Module Timer.

(** [struct timespec] as (tv_sec, tv_nsec). *)
Definition timespec : Type := (Z * Z)%type.

(** [nsleep]: the argument of [nanosleep]. *)
Definition nsleep (nanoseconds : Z) : timespec :=
  (nanoseconds / 1000000000, nanoseconds mod 1000000000).

(** [nanosleep] fails with [EINVAL] unless [0 <= tv_nsec <= 999999999] and
    [tv_sec >= 0]. *)
Definition valid_timespec (ts : timespec) : bool :=
  (0 <=? fst ts) && (0 <=? snd ts) && (snd ts <=? 999999999).

End Timer.

(* ================================================================== *)
(** * Stats: the type breakdown of the client's [print_stats]          *)
(* ================================================================== *)

Module Stats.
Import Codec.

(** [const char *type_names[] = { ['S'] = "System Event", ... }]: the
    designated initialisers of the array. *)
Definition designators : list (byte * string) :=
  [ ("S"%byte, "System Event"%string);
    ("R"%byte, "Stock Directory"%string);
    ("H"%byte, "Trading Action"%string);
    ("A"%byte, "Add Order (No MPID)"%string);
    ("F"%byte, "Add Order (MPID)"%string);
    ("E"%byte, "Order Executed"%string);
    ("C"%byte, "Order Executed w/ Price"%string);
    ("X"%byte, "Order Cancel"%string);
    ("D"%byte, "Order Delete"%string);
    ("U"%byte, "Order Replace"%string);
    ("P"%byte, "Trade (Non-Cross)"%string);
    ("Q"%byte, "Cross Trade"%string);
    ("B"%byte, "Broken Trade"%string) ].

Definition index_of (t : byte) : nat := N.to_nat (Byte.to_N t).

(** An array declared without a size has one element more than its
    highest designated index. *)
Definition type_names_size : nat :=
  S (fold_right Nat.max O (map (fun d => index_of (fst d)) designators)).

Fixpoint designated_name (inits : list (byte * string)) (i : nat) : option string :=
  match inits with
  | [] => None
  | (t, name) :: tl => if Nat.eqb (index_of t) i then Some name else designated_name tl i
  end.

(** The array: the designated strings, null pointers elsewhere. *)
Definition type_names : list (option string) :=
  map (designated_name designators) (seq 0 type_names_size).

(** What [type_names[i] ? type_names[i] : "Unknown"] evaluates to; [None]
    when [i] is not an index of the array (the read is outside the
    object). *)
Definition type_name (i : nat) : option string :=
  match nth_error type_names i with
  | Some (Some name) => Some name
  | Some None => Some "Unknown"%string
  | None => None
  end.

(** The rows of "Message Type Breakdown": for every [i] below 256 with
    [messages_by_type[i] > 0], in order, the index, the name looked up and
    the count. *)
Definition breakdown (stats : Client.stats_t) : list (byte * option string * Z) :=
  flat_map
    (fun i =>
       match Byte.of_N (N.of_nat i) with
       | Some t =>
           if 0 <? Client.messages_by_type stats t
           then [(t, type_name i, Client.messages_by_type stats t)]
           else []
       | None => []
       end)
    (seq 0 256).

End Stats.

(* ================================================================== *)
(** * Generator: the writers and [main] of [generate_sample_itch.c]    *)
(* ================================================================== *)

Module Generator.
Import Codec.

(** The value an assignment leaves in a [uint8_t] object: the low 8 bits. *)
Definition to_byte (z : Z) : byte :=
  match Byte.of_N (Z.to_N (z mod 256)) with
  | Some b => b
  | None => x00
  end.

(** [p[i] = v]; a store outside the modelled array is dropped. *)
Fixpoint store (p : list byte) (i : nat) (v : byte) : list byte :=
  match p, i with
  | [], _ => []
  | _ :: tl, O => v :: tl
  | x :: tl, S k => x :: store tl k v
  end.

(** The writers take the array and the offset of the pointer they are
    given: [write_u16(msg + off, v)] is [write_u16 msg off v].  The integer
    argument is converted to the parameter type on entry. *)
Definition write_u16 (msg : list byte) (off : nat) (v : Z) : list byte :=
  let v := to_u16 v in
  let msg := store msg off (to_byte (Z.land (Z.shiftr v 8) 255)) in
  store msg (off + 1) (to_byte (Z.land v 255)).

Definition write_u32 (msg : list byte) (off : nat) (v : Z) : list byte :=
  let v := to_u32 v in
  let msg := store msg off (to_byte (Z.land (Z.shiftr v 24) 255)) in
  let msg := store msg (off + 1) (to_byte (Z.land (Z.shiftr v 16) 255)) in
  let msg := store msg (off + 2) (to_byte (Z.land (Z.shiftr v 8) 255)) in
  store msg (off + 3) (to_byte (Z.land v 255)).

(** [for (int i = 0; i < 8; i++) b[i] = (v >> (56 - i * 8)) & 0xFF;] from
    index [i] for [steps] more rounds. *)
Fixpoint write_u64_from (msg : list byte) (off : nat) (v : Z) (i steps : nat) : list byte :=
  match steps with
  | O => msg
  | S k =>
      write_u64_from
        (store msg (off + i) (to_byte (Z.land (Z.shiftr v (56 - Z.of_nat i * 8)) 255)))
        off v (S i) k
  end.

Definition write_u64 (msg : list byte) (off : nat) (v : Z) : list byte :=
  write_u64_from msg off (to_u64 v) 0 8.

(** [memcpy(b, &tmp, n)] out of a [uint64_t] on a little-endian host: byte
    [i] of the object is [(tmp >> 8 i) & 0xFF]. *)
Fixpoint memcpy_u64 (msg : list byte) (off : nat) (tmp : Z) (i n : nat) : list byte :=
  match n with
  | O => msg
  | S k =>
      memcpy_u64 (store msg (off + i) (to_byte (Z.land (Z.shiftr tmp (Z.of_nat i * 8)) 255)))
                 off tmp (S i) k
  end.

(** [write_timestamp]:
    [tmp = ts << 16; tmp = __builtin_bswap64(tmp); memcpy(b, &tmp, 6);] *)
Definition write_timestamp (msg : list byte) (off : nat) (ts : Z) : list byte :=
  let tmp := to_u64 (Z.shiftl (to_u64 ts) 16) in
  let tmp := bswap64 tmp in
  memcpy_u64 msg off tmp 0 6.

(** [memset(b, c, n)]. *)
Fixpoint memset (msg : list byte) (off : nat) (c : byte) (n : nat) : list byte :=
  match n with
  | O => msg
  | S k => memset (store msg off c) (S off) c k
  end.

(** [memcpy(b, src, n)]. *)
Fixpoint memcpy (msg : list byte) (off : nat) (src : list byte) (i n : nat) : list byte :=
  match n with
  | O => msg
  | S k => memcpy (store msg (off + i) (byte_at src i)) off src (S i) k
  end.

(** [strlen]: the characters in front of the terminating NUL; a string
    literal is given by its characters, the NUL follows them. *)
Fixpoint strlen (s : list byte) : nat :=
  match s with
  | [] => O
  | c :: tl => if Byte.eqb c x00 then O else S (strlen tl)
  end.

(** [write_stock]: [memset(b, ' ', 8); len = strlen(stock);
    if (len > 8) len = 8; memcpy(b, stock, len);] *)
Definition write_stock (msg : list byte) (off : nat) (stock : list byte) : list byte :=
  let msg := memset msg off " "%byte 8 in
  let len := strlen stock in
  let len := if (8 <? len)%nat then 8%nat else len in
  memcpy msg off stock 0 len.

(** ** [main] *)

(** The two counters of [main]: [uint64_t ts] and [uint16_t tracking]. *)
Record gen_state : Type := mkGen {
  ts : Z;
  tracking : Z
}.

Definition stock_locate : Z := 1.

(** [memset(msg, 0, sizeof(msg))] on [uint8_t msg[50]]. *)
Definition cleared : list byte := repeat x00 50.

(** The statements every block starts with:
    [memset(msg, 0, sizeof(msg)); msg[0] = type;
     write_u16(msg + 1, locate); write_u16(msg + 3, tracking++);
     write_timestamp(msg + 5, ts);] *)
Definition begin_message (type : byte) (locate : Z) (st : gen_state) : list byte :=
  let msg := cleared in
  let msg := store msg 0 type in
  let msg := write_u16 msg 1 locate in
  let msg := write_u16 msg 3 (tracking st) in
  write_timestamp msg 5 (ts st).

(** [tracking++] together with [ts += delta]. *)
Definition advance (st : gen_state) (delta : Z) : gen_state :=
  {| ts := to_u64 (ts st + delta); tracking := to_u16 (tracking st + 1) |}.

(** "System Event": the record handed to [fwrite(msg, 12, 1, fp)]. *)
Definition system_event (code : byte) (st : gen_state) : list byte :=
  let msg := begin_message "S"%byte stock_locate st in
  let msg := store msg 11 code in
  firstn 12 msg.

(** "Stock Directory": [fwrite(msg, 39, 1, fp)]. *)
Definition stock_directory (locate : Z) (name : list byte) (st : gen_state) : list byte :=
  let msg := begin_message "R"%byte locate st in
  let msg := write_stock msg 11 name in
  let msg := store msg 19 "Q"%byte in
  let msg := store msg 20 "N"%byte in
  let msg := write_u32 msg 21 100 in
  let msg := store msg 25 "Y"%byte in
  let msg := store msg 26 "P"%byte in
  let msg := write_u16 msg 27 0 in
  let msg := store msg 29 "P"%byte in
  let msg := store msg 30 "N"%byte in
  let msg := store msg 31 " "%byte in
  let msg := store msg 32 "1"%byte in
  let msg := store msg 33 "N"%byte in
  let msg := write_u32 msg 34 1 in
  let msg := store msg 38 "N"%byte in
  firstn 39 msg.

(** "Add Order": [fwrite(msg, 36, 1, fp)]. *)
Definition add_order (side : byte) (order_ref shares price : Z) (st : gen_state) : list byte :=
  let msg := begin_message "A"%byte stock_locate st in
  let msg := write_u64 msg 11 order_ref in
  let msg := store msg 19 side in
  let msg := write_u32 msg 20 shares in
  let msg := write_stock msg 24 [ "A"; "A"; "P"; "L" ]%byte in
  let msg := write_u32 msg 32 price in
  firstn 36 msg.

(** "Execute some orders": [fwrite(msg, 31, 1, fp)]. *)
Definition order_executed (order_ref match_number : Z) (st : gen_state) : list byte :=
  let msg := begin_message "E"%byte stock_locate st in
  let msg := write_u64 msg 11 order_ref in
  let msg := write_u32 msg 19 50 in
  let msg := write_u64 msg 23 match_number in
  firstn 31 msg.

(** One round of [for (int i = 0; i < 100; i++)]: the records written and
    the counters afterwards. *)
Definition trade_round (i : Z) (st : gen_state) : list (list byte) * gen_state :=
  let buy := add_order "B"%byte (1000000 + i) (100 + i * 10) (1500000 + i * 100) st in
  let st := advance st 50000000 in
  let sell := add_order "S"%byte (2000000 + i) (100 + i * 10) (1500100 + i * 100) st in
  let st := advance st 50000000 in
  if i mod 5 =? 0 then
    let exec := order_executed (1000000 + i) (3000000 + i) st in
    ([buy; sell; exec], advance st 10000000)
  else ([buy; sell], st).

(** The loop from [i] for [rounds] more rounds. *)
Fixpoint trade_rounds (rounds : nat) (i : Z) (st : gen_state) : list (list byte) * gen_state :=
  match rounds with
  | O => ([], st)
  | S k =>
      let (first, st1) := trade_round i st in
      let (others, st2) := trade_rounds k (i + 1) st1 in
      (first ++ others, st2)
  end.

(** The records [main] writes with a loop of [rounds] rounds. *)
Definition records (rounds : nat) : list (list byte) :=
  let st := {| ts := 34200000000000; tracking := 0 |} in
  let start := system_event "O"%byte st in
  let st := advance st 1000000 in
  let aapl := stock_directory stock_locate [ "A"; "A"; "P"; "L" ]%byte st in
  let st := advance st 1000000 in
  let tsla := stock_directory (stock_locate + 1) [ "T"; "S"; "L"; "A" ]%byte st in
  let st := advance st 1000000 in
  let (trades, st) := trade_rounds rounds 0 st in
  let finish := system_event "C"%byte st in
  [start; aapl; tsla] ++ trades ++ [finish].

(** [main]: exit status and the contents of [data/sample.itch]; [opened]
    tells whether [fopen] succeeded. *)
Definition main (opened : bool) : Z * option (list byte) :=
  if opened then (0, Some (List.concat (records 100))) else (1, None).

End Generator.

(* ================================================================== *)
(** * Streams of well-formed messages and concrete instances           *)
(* ================================================================== *)

Module Feed.
Import Codec.

(** A well-formed message: it starts with a type byte of the table and has
    exactly the length the table gives for it. *)
Definition well_formed (msg : list byte) : Prop :=
  match msg with
  | [] => False
  | t :: _ => get_message_length t <> 0
              /\ Z.of_nat (List.length msg) = get_message_length t
  end.

Definition well_formedb (msg : list byte) : bool :=
  match msg with
  | [] => false
  | t :: _ => negb (get_message_length t =? 0)
              && (Z.of_nat (List.length msg) =? get_message_length t)
  end.

(** A payload whose length is the table length of its own type byte. *)
Definition table_sized (msg : list byte) : Prop :=
  get_message_length (byte_at msg 0) <> 0
  /\ Z.of_nat (List.length msg) = get_message_length (byte_at msg 0).

(** A source that delivers its bytes in one run, or in two runs of which
    the first is not empty, and never fails. *)
Definition at_most_one_split (fp : Stream.source) : Prop :=
  match fp with
  | [] => True
  | [Stream.Data _] => True
  | [Stream.Data a; Stream.Data _] => a <> []
  | _ => False
  end.

(** A source that hands over what it holds in one run: a regular file. *)
Definition single_run (fp : Stream.source) : Prop :=
  fp = [] \/ exists c, fp = [Stream.Data c].

(** A buffer remainder the client's framing loop stops on: nothing, or the
    proper beginning of a message of a known type. *)
Definition partial_message (tail : list byte) : Prop :=
  tail = []
  \/ (tail <> []
      /\ get_message_length (byte_at tail 0) <> 0
      /\ Z.of_nat (List.length tail) < get_message_length (byte_at tail 0)).

(** A socket script without errors and without empty deliveries. *)
Definition live_socket (sock : Stream.source) : Prop :=
  Forall (fun c => match c with Stream.Data bs => bs <> [] | Stream.Fail => False end) sock.

(** The framed messages of a complete server run, resp. client run. *)
Definition server_frames (quot_u64 : Z -> Q -> Z) (speed_multiplier : Q) (src : Stream.source)
  : option (list (list byte)) :=
  option_map (fun r => Server.framed (fst r))
             (Server.run_loop quot_u64 speed_multiplier (Server.initial_state src)).

Definition client_frames (sock : Stream.source) : option (list (list byte)) :=
  option_map (fun r => Client.framed (fst r)) (Client.run_client sock).

(** The first [n] bytes of a message, zero-padded to length [len]. *)
Definition padded (len : nat) (prefix : list byte) : list byte :=
  firstn len (prefix ++ repeat x00 len).

(** System Event "O" at 09:30:00 (34200000000000 ns = 0x1F1ACED9F000). *)
Definition system_event_start : list byte :=
  [ x53; x00; x01; x00; x00; x1f; x1a; xce; xd9; xf0; x00; x4f ].

(** Add Order: AAPL, buy 100 at 150.0000, 50 ms after [system_event_start]. *)
Definition add_order_aapl : list byte :=
  [ x41; x00; x01; x00; x01; x1f; x1a; xd1; xd4; xe0; x80;
    x00; x00; x00; x00; x00; x0f; x42; x40;
    x42;
    x00; x00; x00; x64;
    x41; x41; x50; x4c; x20; x20; x20; x20;
    x00; x16; xe3; x60 ].

(** The quotient of the pacer computed exactly and truncated, for the
    statements that do not depend on the sleeps; the binary64 computation of
    the code is [Binary64.quot_u64]. *)
Definition exact_quot (delta_ns : Z) (speed_multiplier : Q) : Z :=
  Qfloor (inject_Z delta_ns / speed_multiplier).

(** Decimal readers standing for [atoi] and [atof] on plain decimal
    numerals with an optional sign and, for [atof], a fraction. *)
Definition digit_of (c : Ascii.ascii) : option Z :=
  let n := Z.of_N (Ascii.N_of_ascii c) in
  if (48 <=? n) && (n <=? 57) then Some (n - 48) else None.

Fixpoint digits (acc : Z) (count : nat) (s : string) : Z * nat * string :=
  match s with
  | String c rest =>
      match digit_of c with
      | Some d => digits (10 * acc + d) (S count) rest
      | None => (acc, count, s)
      end
  | EmptyString => (acc, count, s)
  end.

Definition signed (s : string) : bool * string :=
  match s with
  | String "-"%char rest => (true, rest)
  | String "+"%char rest => (false, rest)
  | _ => (false, s)
  end.

Definition atoi (s : string) : Z :=
  let (neg, body) := signed s in
  let '(v, _, _) := digits 0 0 body in
  if neg then - v else v.

Definition atof (s : string) : Q :=
  let (neg, body) := signed s in
  let '(whole, _, rest) := digits 0 0 body in
  let '(num, den) :=
    match rest with
    | String "."%char frac =>
        let '(f, k, _) := digits 0 0 frac in
        (whole * 10 ^ Z.of_nat k + f, 10 ^ Z.of_nat k)
    | _ => (whole, 1)
    end in
  let q := Qmake num (Z.to_pos den) in
  if neg then Qopp q else q.

(** One connected subscriber in slot 0, and two ways its [send] can fail. *)
Definition one_client : list Server.client_t :=
  [ {| Server.socket_fd := 7; Server.address := (2130706433, 50000); Server.active := true |} ].

Definition reset_by_peer (i : nat) : Server.send_outcome :=
  {| Server.sent := -1; Server.errno := Server.ECONNRESET |}.

(** [ETIMEDOUT] (110): the connection timed out, an error that is not of
    the disconnect class. *)
Definition ETIMEDOUT : Z := 110.

Definition timed_out (i : nat) : Server.send_outcome :=
  {| Server.sent := -1; Server.errno := ETIMEDOUT |}.

(** The slot a socket operation of the broadcaster belongs to, and the
    operations of one slot in a trace, in order. *)
Definition event_slot (e : Server.net_event) : nat :=
  match e with
  | Server.Send i _ _ => i
  | Server.StdoutDisconnected i => i
  | Server.Close i _ => i
  | Server.PerrorSend i => i
  end.

Definition slot_trace (i : nat) (evs : list Server.net_event) : list Server.net_event :=
  filter (fun e => Nat.eqb (event_slot e) i) evs.

(** A slot after [active = 0]. *)
Definition retired (c : Server.client_t) : Server.client_t :=
  {| Server.socket_fd := Server.socket_fd c;
     Server.address := Server.address c;
     Server.active := false |}.

(** The framed messages of a complete server run over [fread] / [gzread]. *)
Definition stdio_frames (is_gzip : bool) (quot_u64 : Z -> Q -> Z) (speed_multiplier : Q)
           (src : Stream.source) : option (list (list byte)) :=
  option_map (fun r => Server.framed (fst r))
             (Stdio.run_loop is_gzip quot_u64 speed_multiplier (Server.initial_state src)).





(** The timestamp field of a record: the big-endian value of its bytes
    5 to 10. *)
Definition record_timestamp (msg : list byte) : Z := be_value (firstn 6 (skipn 5 msg)).

(** The sleeps and emissions of a trace, in order. *)
Fixpoint paced (evs : list Server.event) : list Server.event :=
  match evs with
  | [] => []
  | Server.Nsleep ns :: tl => Server.Nsleep ns :: paced tl
  | Server.Broadcast msg :: tl => Server.Broadcast msg :: paced tl
  | _ :: tl => paced tl
  end.

(** The schedule of a feed: in front of each record the sleep the pacer
    computes from the timestamp of the record before it and its own. *)
Fixpoint schedule (quot_u64 : Z -> Q -> Z) (speed_multiplier : Q) (prev : Z)
         (msgs : list (list byte)) : list Server.event :=
  match msgs with
  | [] => []
  | m :: rest =>
      Server.sleep_events
        (Server.pacer_sleep quot_u64 prev (record_timestamp m) speed_multiplier)
      ++ Server.Broadcast m :: schedule quot_u64 speed_multiplier (record_timestamp m) rest
  end.

(** The cap and the threshold of the pacer applied to a duration: [None] is
    no sleep. *)
Definition capped (duration : Z) : option Z :=
  let d := Z.min duration 1000000000 in
  if d <=? 1000 then None else Some d.

(** A speed multiplier of 10^-12 on the command line. *)
Definition tiny_speed_argv : list string :=
  [ "itch_replay_server"; "sample.itch"; "9999"; "0.000000000001" ]%string.

(** A start-up in which every system call succeeds and the file holds the
    two sample messages. *)
Definition sample_env : Server.environment :=
  {| Server.socket_ok := true;
     Server.setsockopt_ok := true;
     Server.bind_ok := fun _ => true;
     Server.listen_ok := true;
     Server.open_file := fun _ _ =>
       Some (Stream.file_source (system_event_start ++ add_order_aapl)) |}.

Definition negative_speed_argv : list string :=
  [ "itch_replay_server"; "sample.itch"; "9999"; "-1" ]%string.

(** The statistics after the framing of the given messages, one update per
    message. *)
Definition counted (msgs : list (list byte)) (stats : Client.stats_t) : Client.stats_t :=
  fold_left
    (fun s m => Client.update_stats s (byte_at m 0) (Z.of_nat (List.length m)))
    msgs stats.

(** The number of bytes of a list of payloads. *)
Definition payload_bytes (msgs : list (list byte)) : Z :=
  Z.of_nat (List.length (List.concat msgs)).

(** The nearly-full warnings of a client trace. *)
Fixpoint nearly_full_warnings (evs : list Client.event) : nat :=
  match evs with
  | [] => O
  | Client.StderrNearlyFull :: tl => S (nearly_full_warnings tl)
  | _ :: tl => nearly_full_warnings tl
  end.

(** A stream with bytes of no table type and an incomplete last message. *)
Definition corrupt_feed : list byte :=
  [ xff ] ++ system_event_start ++ [ x00; x7f ] ++ add_order_aapl ++ firstn 5 system_event_start.

(** A Reg SHO restriction message (type Y, 20 bytes). *)
Definition reg_sho_aapl : list byte :=
  [ x59; x00; x01; x00; x02; x1f; x1a; xd1; xd4; xe0; x80;
    x41; x41; x50; x4c; x20; x20; x20; x20; x30 ].

(** A client array with every slot taken. *)
Definition full_house : list Server.client_t :=
  map (fun i => {| Server.socket_fd := 10 + Z.of_nat i;
                   Server.address := (2130706433, 50000 + Z.of_nat i);
                   Server.active := true |})
      (seq 0 Server.MAX_CLIENTS).

End Feed.

(* ================================================================== *)
(** * Facts about the codec                                            *)
(* ================================================================== *)

Module CodecFacts.
Import Codec.

Lemma u8_range b : 0 <= u8 b < 256.
Proof. destruct b; vm_compute; split; congruence. Qed.

Lemma land_low_multiple a c k :
  0 <= k -> 0 <= a < 2 ^ k -> Z.land a (c * 2 ^ k) = 0.
Proof.
  intros Hk Ha. apply Z.bits_inj'. intros n Hn.
  rewrite Z.land_spec, Z.bits_0, <- Z.shiftl_mul_pow2 by lia.
  destruct (Z.lt_ge_cases n k) as [Hlt | Hge].
  - rewrite Z.shiftl_spec_low by lia. apply andb_false_r.
  - replace (Z.testbit a n) with false; [reflexivity |].
    symmetry. destruct (Z.eq_dec a 0) as [-> | Hnz]; [apply Z.bits_0 |].
    apply Z.bits_above_log2; [lia |].
    apply Z.log2_lt_pow2; [lia |].
    apply Z.lt_le_trans with (2 ^ k); [lia |].
    apply Z.pow_le_mono_r; lia.
Qed.

Lemma lor_disjoint_add a c k :
  0 <= k -> 0 <= a < 2 ^ k -> Z.lor a (c * 2 ^ k) = a + c * 2 ^ k.
Proof.
  intros Hk Ha.
  pose proof (land_low_multiple a c k Hk Ha) as Hland.
  rewrite <- Z.lxor_lor by exact Hland.
  symmetry. apply Z.add_nocarry_lxor. exact Hland.
Qed.

Lemma lor_sum a b k c :
  0 <= k -> 0 <= a < 2 ^ k -> b = c * 2 ^ k -> Z.lor a b = a + b.
Proof. intros Hk Ha ->. apply lor_disjoint_add; assumption. Qed.

Lemma lor_high_low hi lo k c :
  0 <= k -> 0 <= lo < 2 ^ k -> hi = c * 2 ^ k -> Z.lor hi lo = hi + lo.
Proof. intros Hk Hlo ->. rewrite Z.lor_comm, Z.add_comm. apply lor_disjoint_add; assumption. Qed.

Lemma land_255 x : Z.land x 255 = x mod 256.
Proof. change 255 with (Z.ones 8). rewrite Z.land_ones by lia. reflexivity. Qed.

Lemma lor8 z0 z1 z2 z3 z4 z5 z6 z7 :
  0 <= z0 < 256 -> 0 <= z1 < 256 -> 0 <= z2 < 256 -> 0 <= z3 < 256 ->
  0 <= z4 < 256 -> 0 <= z5 < 256 -> 0 <= z6 < 256 -> 0 <= z7 < 256 ->
  Z.lor z0 (Z.lor (Z.shiftl z1 8) (Z.lor (Z.shiftl z2 16) (Z.lor (Z.shiftl z3 24)
    (Z.lor (Z.shiftl z4 32) (Z.lor (Z.shiftl z5 40) (Z.lor (Z.shiftl z6 48) (Z.shiftl z7 56)))))))
  = le8 z0 z1 z2 z3 z4 z5 z6 z7.
Proof.
  intros. unfold le8. rewrite !Z.shiftl_mul_pow2 by lia.
  rewrite (lor_sum (z6 * 2^48) _ 56 z7) by lia.
  rewrite (lor_sum (z5 * 2^40) _ 48 (z6 + z7 * 2^8)) by lia.
  rewrite (lor_sum (z4 * 2^32) _ 40 (z5 + z6 * 2^8 + z7 * 2^16)) by lia.
  rewrite (lor_sum (z3 * 2^24) _ 32 (z4 + z5 * 2^8 + z6 * 2^16 + z7 * 2^24)) by lia.
  rewrite (lor_sum (z2 * 2^16) _ 24 (z3 + z4 * 2^8 + z5 * 2^16 + z6 * 2^24 + z7 * 2^32)) by lia.
  rewrite (lor_sum (z1 * 2^8) _ 16 (z2 + z3 * 2^8 + z4 * 2^16 + z5 * 2^24 + z6 * 2^32 + z7 * 2^40)) by lia.
  rewrite (lor_sum z0 _ 8 (z1 + z2 * 2^8 + z3 * 2^16 + z4 * 2^24 + z5 * 2^32 + z6 * 2^40 + z7 * 2^48)) by lia.
  lia.
Qed.

Lemma bswap64_le8 z0 z1 z2 z3 z4 z5 z6 z7 :
  0 <= z0 < 256 -> 0 <= z1 < 256 -> 0 <= z2 < 256 -> 0 <= z3 < 256 ->
  0 <= z4 < 256 -> 0 <= z5 < 256 -> 0 <= z6 < 256 -> 0 <= z7 < 256 ->
  bswap64 (le8 z0 z1 z2 z3 z4 z5 z6 z7) = le8 z7 z6 z5 z4 z3 z2 z1 z0.
Proof.
  intros. unfold bswap64.
  rewrite !land_255, !Z.shiftr_div_pow2 by lia.
  set (x := le8 z0 z1 z2 z3 z4 z5 z6 z7).
  assert (E0 : x mod 256 = z0) by (unfold x, le8; Z.div_mod_to_equations; lia).
  assert (E1 : (x / 2^8) mod 256 = z1) by (unfold x, le8; Z.div_mod_to_equations; lia).
  assert (E2 : (x / 2^16) mod 256 = z2) by (unfold x, le8; Z.div_mod_to_equations; lia).
  assert (E3 : (x / 2^24) mod 256 = z3) by (unfold x, le8; Z.div_mod_to_equations; lia).
  assert (E4 : (x / 2^32) mod 256 = z4) by (unfold x, le8; Z.div_mod_to_equations; lia).
  assert (E5 : (x / 2^40) mod 256 = z5) by (unfold x, le8; Z.div_mod_to_equations; lia).
  assert (E6 : (x / 2^48) mod 256 = z6) by (unfold x, le8; Z.div_mod_to_equations; lia).
  assert (E7 : (x / 2^56) mod 256 = z7) by (unfold x, le8; Z.div_mod_to_equations; lia).
  rewrite E0, E1, E2, E3, E4, E5, E6, E7.
  rewrite !Z.shiftl_mul_pow2 by lia. unfold le8.
  rewrite (lor_high_low (z6 * 2^8) z7 8 z6) by lia.
  rewrite (lor_high_low (z5 * 2^16) _ 16 z5) by lia.
  rewrite (lor_high_low (z4 * 2^24) _ 24 z4) by lia.
  rewrite (lor_high_low (z3 * 2^32) _ 32 z3) by lia.
  rewrite (lor_high_low (z2 * 2^40) _ 40 z2) by lia.
  rewrite (lor_high_low (z1 * 2^48) _ 48 z1) by lia.
  rewrite (lor_high_low (z0 * 2^56) _ 56 z0) by lia.
  lia.
Qed.

(** The decoder only depends on the first six bytes it is pointed at: the
    two further bytes the [memcpy] picks up are shifted out. *)
Lemma timestamp_first_six (b : list byte) :
  read_timestamp b
  = be_value [byte_at b 0; byte_at b 1; byte_at b 2; byte_at b 3; byte_at b 4; byte_at b 5].
Proof.
  pose proof (u8_range (byte_at b 0)); pose proof (u8_range (byte_at b 1));
  pose proof (u8_range (byte_at b 2)); pose proof (u8_range (byte_at b 3));
  pose proof (u8_range (byte_at b 4)); pose proof (u8_range (byte_at b 5));
  pose proof (u8_range (byte_at b 6)); pose proof (u8_range (byte_at b 7)).
  unfold read_timestamp, load_u64.
  rewrite lor8, bswap64_le8 by assumption.
  rewrite Z.shiftr_div_pow2 by lia.
  unfold le8, be_value. cbn [List.length].
  Z.div_mod_to_equations. lia.
Qed.

Lemma timestamp_value b0 b1 b2 b3 b4 b5 rest :
  read_timestamp (b0 :: b1 :: b2 :: b3 :: b4 :: b5 :: rest)
  = be_value [b0; b1; b2; b3; b4; b5].
Proof. rewrite timestamp_first_six. reflexivity. Qed.

Lemma be_value_bound bs : 0 <= be_value bs < 2 ^ (8 * Z.of_nat (List.length bs)).
Proof.
  induction bs as [| b tl IH]; cbn [be_value List.length].
  - simpl. lia.
  - pose proof (u8_range b).
    replace (8 * Z.of_nat (S (List.length tl))) with (8 + 8 * Z.of_nat (List.length tl)) by lia.
    rewrite Z.pow_add_r by lia. change (2 ^ 8) with 256.
    nia.
Qed.

Lemma message_length_range t : 0 <= get_message_length t <= 50.
Proof. destruct t; vm_compute; split; congruence. Qed.

Lemma lengths_agree t : get_itch_message_length t = get_message_length t.
Proof. destruct t; reflexivity. Qed.

Lemma known_or_zero t : In t (map fst canonical_table) \/ get_message_length t = 0.
Proof.
  destruct t; try (right; reflexivity); left; cbn;
    repeat (try (left; reflexivity); right).
Qed.

(** C2.  The type-to-length lookup is total on bytes: the server's array
    [ITCH_MSG_LENGTHS] (indexed inside its 256 entries by every byte) and the
    parser's [switch] both return, for every byte, the value of its row in
    the canonical table and 0 when it has no row; the two therefore agree on
    every byte.  The twenty rows carry the lengths
    S=12, R=39, H=25, Y=20, L=26, V=35, W=12, K=28, A=36, F=40, E=31, C=36,
    X=23, D=19, U=35, P=44, Q=40, B=19, I=50, N=20. *)
Theorem length_lookup_total_and_consistent :
  forall t : byte,
    get_message_length t = table_lookup canonical_table t
    /\ message_length_by_type t = table_lookup canonical_table t
    /\ get_itch_message_length t = get_message_length t
    /\ (In t (map fst canonical_table) \/ get_message_length t = 0)
    /\ (N.to_nat (Byte.to_N t) < List.length ITCH_MSG_LENGTHS)%nat
    /\ map get_message_length
          [ "S"; "R"; "H"; "Y"; "L"; "V"; "W"; "K"; "A"; "F";
            "E"; "C"; "X"; "D"; "U"; "P"; "Q"; "B"; "I"; "N" ]%byte
       = [ 12; 39; 25; 20; 26; 35; 12; 28; 36; 40; 31; 36; 23; 19; 35; 44; 40; 19; 50; 20 ].
Proof.
  intros t.
  split; [destruct t; reflexivity |].
  split; [destruct t; reflexivity |].
  split; [apply lengths_agree |].
  split; [apply known_or_zero |].
  split; [| reflexivity].
  change (List.length ITCH_MSG_LENGTHS) with (N.to_nat 256).
  pose proof (Byte.to_N_bounded t). lia.
Qed.

(** C3.  On an input with at least 8 readable bytes the timestamp decoder
    ([read_timestamp] of the server, [parse_timestamp] of the parser) returns
    the unsigned big-endian value of the first 6 bytes: a 64-bit value whose
    top 16 bits are zero, equal to the byte swap of the 8 bytes
    (input[0..6) || 00 00) shifted right by 16. *)
Theorem timestamp_decoder_spec (b : list byte) :
  (8 <= List.length b)%nat ->
  read_timestamp b = be_value (firstn 6 b)
  /\ 0 <= read_timestamp b < 2 ^ 64
  /\ Z.shiftr (read_timestamp b) 48 = 0
  /\ read_timestamp b = Z.shiftr (bswap64 (load_u64 (firstn 6 b ++ [x00; x00]))) 16
  /\ parse_timestamp b = read_timestamp b.
Proof.
  intros Hlen.
  destruct b as [| b0 [| b1 [| b2 [| b3 [| b4 [| b5 [| b6 [| b7 rest]]]]]]]];
    cbn [List.length] in Hlen; try lia.
  change (parse_timestamp (b0 :: b1 :: b2 :: b3 :: b4 :: b5 :: b6 :: b7 :: rest))
    with (read_timestamp (b0 :: b1 :: b2 :: b3 :: b4 :: b5 :: b6 :: b7 :: rest)).
  rewrite timestamp_value. cbn [firstn app].
  pose proof (be_value_bound [b0; b1; b2; b3; b4; b5]) as Hb.
  cbn [List.length] in Hb. change (8 * Z.of_nat 6) with 48 in Hb.
  repeat split.
  - lia.
  - apply Z.lt_trans with (2 ^ 48); [lia | reflexivity].
  - rewrite Z.shiftr_div_pow2 by lia. apply Z.div_small. lia.
  - change (Z.shiftr (bswap64 (load_u64 [b0; b1; b2; b3; b4; b5; x00; x00])) 16)
      with (read_timestamp [b0; b1; b2; b3; b4; b5; x00; x00]).
    rewrite timestamp_value. reflexivity.
Qed.

Lemma timestamp_decoder_spec_witness :
  read_timestamp (skipn 5 Feed.add_order_aapl) = be_value (firstn 6 (skipn 5 Feed.add_order_aapl))
  /\ 0 <= read_timestamp (skipn 5 Feed.add_order_aapl) < 2 ^ 64
  /\ Z.shiftr (read_timestamp (skipn 5 Feed.add_order_aapl)) 48 = 0
  /\ read_timestamp (skipn 5 Feed.add_order_aapl)
     = Z.shiftr (bswap64 (load_u64 (firstn 6 (skipn 5 Feed.add_order_aapl) ++ [x00; x00]))) 16
  /\ parse_timestamp (skipn 5 Feed.add_order_aapl) = read_timestamp (skipn 5 Feed.add_order_aapl).
Proof.
  apply (timestamp_decoder_spec (skipn 5 Feed.add_order_aapl)).
  vm_compute. lia.
Defined.

End CodecFacts.

(* ================================================================== *)
(** * The big-endian readers                                         *)
(* ================================================================== *)

Module ReaderFacts.
Import Codec CodecFacts.

Lemma read_u16_value (b : list byte) :
  read_u16 b = u8 (byte_at b 0) * 2 ^ 8 + u8 (byte_at b 1).
Proof.
  pose proof (u8_range (byte_at b 0)); pose proof (u8_range (byte_at b 1)).
  unfold read_u16, to_u16.
  rewrite Z.shiftl_mul_pow2 by lia.
  rewrite (lor_high_low _ _ 8 (u8 (byte_at b 0))) by lia.
  rewrite Z.mod_small by lia. reflexivity.
Qed.

Lemma read_u32_value (b : list byte) :
  read_u32 b = be_value [byte_at b 0; byte_at b 1; byte_at b 2; byte_at b 3].
Proof.
  pose proof (u8_range (byte_at b 0)); pose proof (u8_range (byte_at b 1)).
  pose proof (u8_range (byte_at b 2)); pose proof (u8_range (byte_at b 3)).
  unfold read_u32, to_u32.
  rewrite !Z.shiftl_mul_pow2 by lia.
  rewrite (lor_high_low (u8 (byte_at b 0) * 2 ^ 24) _ 24 (u8 (byte_at b 0))) by lia.
  rewrite (lor_high_low _ (u8 (byte_at b 2) * 2 ^ 8) 16
             (u8 (byte_at b 0) * 2 ^ 8 + u8 (byte_at b 1))) by lia.
  rewrite (lor_high_low _ (u8 (byte_at b 3)) 8
             (u8 (byte_at b 0) * 2 ^ 16 + u8 (byte_at b 1) * 2 ^ 8 + u8 (byte_at b 2))) by lia.
  rewrite Z.mod_small by lia.
  cbn [be_value List.length]. lia.
Qed.

Lemma read_be_from_value (b : list byte) : forall (n i : nat) (v : Z),
  0 <= v < 2 ^ 64 ->
  read_be_from v b i n
  = (v * 2 ^ (8 * Z.of_nat n) + be_value (map (byte_at b) (seq i n))) mod 2 ^ 64.
Proof.
  induction n as [| n IH]; intros i v Hv.
  - cbn [read_be_from seq map be_value]. cbn [Z.of_nat Z.mul Z.pow].
    rewrite Z.mul_1_r, Z.add_0_r, Z.mod_small by lia. reflexivity.
  - cbn [read_be_from seq map be_value].
    pose proof (u8_range (byte_at b i)) as Hx.
    rewrite Z.shiftl_mul_pow2 by lia.
    rewrite (lor_high_low (v * 2 ^ 8) _ 8 v) by lia.
    rewrite IH by (unfold to_u64; apply Z.mod_pos_bound; lia).
    rewrite length_map, length_seq. unfold to_u64.
    rewrite Z.add_mod, Z.mul_mod, Z.mod_mod by lia.
    rewrite <- Z.mul_mod, <- Z.add_mod by lia.
    f_equal.
    replace (8 * Z.of_nat (S n)) with (8 + 8 * Z.of_nat n) by lia.
    rewrite Z.pow_add_r by lia. ring.
Qed.

Lemma read_be_value (b : list byte) (nbytes : nat) :
  read_be b nbytes = be_value (map (byte_at b) (seq 0 nbytes)) mod 2 ^ 64.
Proof. unfold read_be. rewrite read_be_from_value by lia. rewrite Z.mul_0_l. reflexivity. Qed.

Lemma read_be_small (b : list byte) (nbytes : nat) :
  (nbytes <= 8)%nat -> read_be b nbytes = be_value (map (byte_at b) (seq 0 nbytes)).
Proof.
  intros Hn. rewrite read_be_value. apply Z.mod_small.
  pose proof (be_value_bound (map (byte_at b) (seq 0 nbytes))) as Hb.
  rewrite length_map, length_seq in Hb.
  split; [lia |]. apply Z.lt_le_trans with (2 ^ (8 * Z.of_nat nbytes)); [lia |].
  apply Z.pow_le_mono_r; lia.
Qed.

(** [read_u16] returns the big-endian value of its first two bytes. *)
Theorem read_u16_big_endian (b : list byte) :
  read_u16 b = u8 (byte_at b 0) * 2 ^ 8 + u8 (byte_at b 1)
  /\ read_u16 b = be_value [byte_at b 0; byte_at b 1]
  /\ 0 <= read_u16 b < 2 ^ 16.
Proof.
  pose proof (u8_range (byte_at b 0)); pose proof (u8_range (byte_at b 1)).
  rewrite read_u16_value. cbn [be_value List.length]. repeat split; lia.
Qed.

(** [read_u32] returns the big-endian value of its first four bytes. *)
Theorem read_u32_big_endian (b : list byte) :
  read_u32 b = be_value [byte_at b 0; byte_at b 1; byte_at b 2; byte_at b 3]
  /\ 0 <= read_u32 b < 2 ^ 32.
Proof.
  rewrite read_u32_value. split; [reflexivity |].
  pose proof (be_value_bound [byte_at b 0; byte_at b 1; byte_at b 2; byte_at b 3]) as Hb.
  cbn [List.length] in Hb. change (8 * Z.of_nat 4) with 32 in Hb. exact Hb.
Qed.

(** [read_be] returns the big-endian value of its [nbytes] bytes modulo
    2^64: the value itself up to 8 bytes, the case of [read_u64]. *)
Theorem read_be_big_endian (b : list byte) (nbytes : nat) :
  read_be b nbytes = be_value (map (byte_at b) (seq 0 nbytes)) mod 2 ^ 64
  /\ ((nbytes <= 8)%nat -> read_be b nbytes = be_value (map (byte_at b) (seq 0 nbytes)))
  /\ read_u64 b = be_value (map (byte_at b) (seq 0 8)).
Proof.
  split; [apply read_be_value |]. split; [apply read_be_small |].
  unfold read_u64. apply read_be_small. lia.
Qed.

End ReaderFacts.

(* ================================================================== *)
(** * Facts about the dispatcher                                       *)
(* ================================================================== *)

Module ParserFacts.
Import Codec Parser Feed.

Ltac decoder_lines :=
  match goal with
  | |- context [if ?c then _ else _] => destruct c
  end; cbn [In app]; intuition discriminate.

Lemma decoders_print_no_unknown (t u : byte) (parse_T : list byte -> Z -> list line)
      (msg : list byte) (len : Z) :
  decoder_of t = Some parse_T -> ~ In (UnknownType u) (parse_T msg len ++ [Blank]).
Proof.
  destruct t; cbn [decoder_of]; try discriminate; intros H; injection H as <-.
  all: unfold parse_S, parse_R, parse_H, parse_A, parse_F, parse_E, parse_C,
         parse_X, parse_D, parse_U, parse_P, parse_Q, parse_B.
  all: decoder_lines.
Qed.

(** C10.  [parse_itch_message] has a dedicated decoder exactly for the 13
    types S, R, H, A, F, E, C, X, D, U, P, Q, B.  For every other first
    byte, and so for the seven table types Y, L, V, W, K, I, N, it takes the
    [default:] branch and prints the unknown-message diagnostic, although
    [get_itch_message_length] is not zero on those seven. *)
Theorem dispatcher_decodes_thirteen_types (msg : list byte) (len : Z) :
  len <> 0 ->
  let t := byte_at msg 0 in
  (mem_byte t decoded_types = true ->
     exists parse_T,
       decoder_of t = Some parse_T
       /\ parse_itch_message msg len = parse_T msg len ++ [Blank]
       /\ ~ In (UnknownType t) (parse_itch_message msg len))
  /\ (mem_byte t decoded_types = false ->
        parse_itch_message msg len = [UnknownType t; Blank])
  /\ (mem_byte t undecoded_table_types = true ->
        parse_itch_message msg len = [UnknownType t; Blank]
        /\ get_itch_message_length t <> 0)
  /\ List.length decoded_types = 13%nat
  /\ List.length undecoded_table_types = 7%nat.
Proof.
  intros Hlen t.
  unfold parse_itch_message.
  replace (len =? 0) with false by lia.
  fold t.
  split; [| split; [| split; [| split; reflexivity]]].
  - intros Hmem.
    destruct (decoder_of t) as [parse_T |] eqn:Hdec.
    + exists parse_T. split; [reflexivity |]. split; [reflexivity |].
      eapply decoders_print_no_unknown. exact Hdec.
    + destruct t; cbn in Hmem; try discriminate; cbn in Hdec; discriminate.
  - intros Hmem.
    destruct t; cbn in Hmem; try discriminate; reflexivity.
  - intros Hmem.
    destruct t; cbn in Hmem; try discriminate; (split; [reflexivity | cbn; discriminate]).
Qed.

Lemma dispatcher_decodes_thirteen_types_witness :
  parse_itch_message (padded 20 [x59]) 20 = [UnknownType x59; Blank]
  /\ get_itch_message_length x59 = 20
  /\ parse_itch_message system_event_start 12
     = [ Banner "[S] System Event"; PU64 "Timestamp" 34200000000000;
         PChar "Event Code" x4f; Blank ].
Proof.
  destruct (dispatcher_decodes_thirteen_types (padded 20 [x59]) 20) as (_ & H & _);
    [lia |].
  split; [apply H; reflexivity |].
  split; vm_compute; reflexivity.
Defined.

End ParserFacts.

(* ================================================================== *)
(** * Facts about the byte producer                                    *)
(* ================================================================== *)

Module StreamFacts.
Import Codec Stream.

Lemma source_read_bytes fp n bs fp' :
  source_read fp n = (Got bs, fp') -> bs ++ source_bytes fp' = source_bytes fp.
Proof.
  destruct fp as [| [c |] rest]; cbn [source_read].
  - intros H; inversion H; reflexivity.
  - destruct (Z.of_nat (List.length c) <=? n); intros H; inversion H; subst; cbn [source_bytes].
    + reflexivity.
    + rewrite app_assoc, firstn_skipn. reflexivity.
  - discriminate.
Qed.

Lemma source_read_length fp n bs fp' :
  0 <= n -> source_read fp n = (Got bs, fp') -> Z.of_nat (List.length bs) <= n.
Proof.
  intros Hn. destruct fp as [| [c |] rest]; cbn [source_read].
  - intros H; inversion H; simpl; lia.
  - destruct (Z.of_nat (List.length c) <=? n) eqn:E; intros H; inversion H; subst.
    + lia.
    + rewrite length_firstn. lia.
  - discriminate.
Qed.

End StreamFacts.

(* ================================================================== *)
(** * The server loop: progress, framing, table-sized payloads         *)
(* ================================================================== *)

Module ServerFacts.
Import Codec Stream Server Feed CodecFacts StreamFacts.

(** ** Progress of the loop *)

Lemma refill_pending st st1 : refill st = inr st1 -> pending st1 = pending st.
Proof.
  unfold refill. destruct (buffer_used st <? BUFFER_SIZE / 2).
  - destruct (source_read (fp st) (BUFFER_SIZE - buffer_used st)) as [[bs |] src] eqn:E;
      [| discriminate].
    destruct ((Z.of_nat (List.length bs) =? 0) && (buffer_used st =? 0)); [discriminate |].
    intros H; inversion H; subst. unfold pending, with_buffer; cbn [buffer fp].
    apply source_read_bytes in E. rewrite <- E, !length_app. lia.
  - intros H; inversion H; reflexivity.
Qed.

Lemma wait_complete_pending st len st2 :
  wait_complete st len = inr st2 -> pending st2 = pending st /\ len <= buffer_used st2.
Proof.
  unfold wait_complete. destruct (buffer_used st <? len) eqn:Hlt.
  - destruct (source_read (fp st) (BUFFER_SIZE - buffer_used st)) as [[bs |] src] eqn:E;
      [| discriminate].
    destruct (Z.of_nat (List.length bs) <=? 0); [discriminate |].
    match goal with |- context [buffer_used ?s <? len] => destruct (buffer_used s <? len) eqn:Hlt2 end;
      [discriminate |].
    intros H; inversion H; subst. split; [| lia].
    unfold pending, with_buffer; cbn [buffer fp]. apply source_read_bytes in E. rewrite <- E, !length_app. lia.
  - intros H; inversion H; subst. split; [reflexivity | lia].
Qed.

Lemma iteration_progress q sp st evs st' :
  replay_iteration q sp st = Continue evs st' -> (pending st' < pending st)%nat.
Proof.
  unfold replay_iteration.
  destruct (refill st) as [[evs0 st0] | st1] eqn:Hr; [discriminate |].
  apply refill_pending in Hr.
  destruct (buffer_used st1 <? 1) eqn:H1; [discriminate |].
  destruct (get_message_length (byte_at (buffer st1) 0) =? 0) eqn:Hz.
  - intros [= <- <-]. unfold pending, with_buffer, buffer_used in *; cbn [buffer fp] in *.
    destruct (buffer st1); cbn [List.length] in *; lia.
  - destruct (wait_complete st1 _) as [[evs0 st0] | st2] eqn:Hw; [discriminate |].
    apply wait_complete_pending in Hw. destruct Hw as [Hp Hlen].
    intros [= <- <-]. unfold pending, with_buffer in *; cbn [buffer fp] in *.
    unfold buffer_used in Hlen. rewrite length_skipn.
    pose proof (message_length_range (byte_at (buffer st1) 0)). lia.
Qed.

(** The loop leaves through a [break] within [pending st] + 1 passes. *)
Theorem replay_loop_terminates q sp : forall fuel st,
  (pending st < fuel)%nat -> exists r, replay_loop q sp fuel st = Some r.
Proof.
  induction fuel as [| fuel IH]; intros st Hp; [lia |].
  cbn [replay_loop].
  destruct (replay_iteration q sp st) as [evs st' | evs st'] eqn:Hit.
  - apply iteration_progress in Hit.
    destruct (IH st') as [[evs' final] Hr]; [lia |].
    rewrite Hr. eauto.
  - eauto.
Qed.


(** ** Framing of well-formed streams *)

Lemma well_formed_length m :
  well_formed m ->
  m <> [] /\ get_message_length (byte_at m 0) = Z.of_nat (List.length m)
  /\ 1 <= Z.of_nat (List.length m) <= 50.
Proof.
  destruct m as [| t tl]; cbn [well_formed]; [tauto |].
  intros [Hnz Hlen]. unfold byte_at; cbn [nth].
  pose proof (message_length_range t).
  repeat split; try congruence; lia.
Qed.

Lemma prefix_split (A : Type) (buf tail m rest : list A) :
  buf ++ tail = m ++ rest -> (List.length m <= List.length buf)%nat ->
  firstn (List.length m) buf = m /\ skipn (List.length m) buf ++ tail = rest.
Proof.
  revert buf. induction m as [| x m IH]; intros buf Heq Hlen.
  - cbn in *. auto.
  - destruct buf as [| y buf]; cbn [List.length] in Hlen; [lia |].
    cbn [app] in Heq. injection Heq as -> Heq.
    destruct (IH buf Heq) as [H1 H2]; [lia |].
    cbn [List.length firstn skipn]. rewrite H1. auto.
Qed.

Lemma byte_at_app_front (buf tail m rest : list byte) :
  buf ++ tail = m ++ rest -> buf <> [] -> m <> [] -> byte_at buf 0 = byte_at m 0.
Proof.
  destruct buf; destruct m; try congruence.
  cbn. intros [= -> _] _ _. reflexivity.
Qed.

Lemma framed_app a b : framed (a ++ b) = framed a ++ framed b.
Proof.
  induction a as [| e a IH]; [reflexivity |].
  destruct e; cbn [app framed]; rewrite ?IH; reflexivity.
Qed.

Lemma unknown_reports_app a b : unknown_reports (a ++ b) = unknown_reports a ++ unknown_reports b.
Proof.
  induction a as [| e a IH]; [reflexivity |].
  destruct e; cbn [app unknown_reports]; rewrite ?IH; reflexivity.
Qed.

Lemma incomplete_reports_app a b :
  incomplete_reports (a ++ b) = (incomplete_reports a + incomplete_reports b)%nat.
Proof.
  induction a as [| e a IH]; [reflexivity |].
  destruct e; cbn [app incomplete_reports]; rewrite ?IH; reflexivity.
Qed.

Lemma refill_framing st all :
  all <> [] ->
  buffer st ++ source_bytes (fp st) = all ->
  at_most_one_split (fp st) ->
  buffer_used st <= BUFFER_SIZE ->
  exists st1,
    refill st = inr st1
    /\ prev_timestamp st1 = prev_timestamp st
    /\ buffer st1 ++ source_bytes (fp st1) = all
    /\ at_most_one_split (fp st1)
    /\ buffer_used st1 <= BUFFER_SIZE
    /\ buffer st1 <> []
    /\ (BUFFER_SIZE / 2 <= buffer_used st1 \/ (List.length (fp st1) <= 1)%nat).
Proof.
  intros Hne Heq Hok Hcap.
  assert (Hlen : 1 <= Z.of_nat (List.length all)) by (destruct all; [congruence | cbn [List.length]; lia]).
  unfold refill.
  change (BUFFER_SIZE / 2) with 32768 in *. change BUFFER_SIZE with 65536 in *.
  destruct (buffer_used st <? 32768) eqn:Hlow.
  2:{ exists st. unfold buffer_used in *.
      split; [reflexivity |]. split; [reflexivity |]. split; [assumption |].
      split; [assumption |]. split; [assumption |].
      split; [| left; lia].
      intros E. rewrite E in Hlow. cbn in Hlow. lia. }
  destruct st as [buf src pt ms tb]; unfold buffer_used in *; cbn [buffer fp prev_timestamp] in *.
  destruct src as [| [a |] [| [c |] [| ? ?]]]; cbn [at_most_one_split] in Hok; try contradiction;
    cbn [source_read source_bytes] in *.
  - (* end of stream *)
    rewrite app_nil_r in Heq. subst buf.
    assert (Z.of_nat (List.length all) <> 0) by (lia).
    replace ((Z.of_nat (List.length (@nil byte)) =? 0) && (Z.of_nat (List.length all) =? 0))
      with false by (symmetry; apply andb_false_iff; right; lia).
    eexists. split; [reflexivity |]. unfold with_buffer; cbn [buffer fp prev_timestamp source_bytes].
    rewrite !app_nil_r.
    split; [reflexivity |]. split; [reflexivity |]. split; [exact I |].
    split; [assumption |]. split; [| right; cbn; lia].
    assumption.
  - (* the last chunk *)
    rewrite app_nil_r in Heq.
    assert (Z.of_nat (List.length buf) + Z.of_nat (List.length a) <> 0).
    { assert (List.length (buf ++ a) = List.length all) as E by congruence.
      rewrite length_app in E. lia. }
    destruct (Z.of_nat (List.length a) <=? 65536 - Z.of_nat (List.length buf)) eqn:Hfit.
    + replace ((Z.of_nat (List.length a) =? 0) && (Z.of_nat (List.length buf) =? 0)) with false
        by (symmetry; apply andb_false_iff; lia).
      eexists. split; [reflexivity |]. unfold with_buffer; cbn [buffer fp prev_timestamp source_bytes].
      rewrite app_nil_r.
      split; [reflexivity |]. split; [assumption |]. split; [exact I |].
      split; [rewrite length_app; lia |]. split; [| right; cbn; lia].
      rewrite Heq; assumption.
    + set (n := Z.to_nat (65536 - Z.of_nat (List.length buf))) in *.
      assert (Efull : Z.of_nat (List.length (buf ++ firstn n a)) = 65536)
        by (rewrite length_app, length_firstn; lia).
      replace ((Z.of_nat (List.length (firstn n a)) =? 0) && (Z.of_nat (List.length buf) =? 0))
        with false by (symmetry; apply andb_false_iff; left; rewrite length_firstn; lia).
      eexists. split; [reflexivity |]. unfold with_buffer; cbn [buffer fp prev_timestamp source_bytes].
      rewrite app_nil_r, <- app_assoc, firstn_skipn.
      split; [reflexivity |]. split; [assumption |]. split; [exact I |].
      split; [lia |]. split; [| left; lia].
      intros E. rewrite E in Efull. cbn in Efull. lia.
  - (* the first of two chunks *)
    rewrite app_nil_r in Heq.
    assert (List.length a <> 0%nat) by (destruct a; cbn; congruence).
    destruct (Z.of_nat (List.length a) <=? 65536 - Z.of_nat (List.length buf)) eqn:Hfit.
    + replace ((Z.of_nat (List.length a) =? 0) && (Z.of_nat (List.length buf) =? 0)) with false
        by (symmetry; apply andb_false_iff; lia).
      eexists. split; [reflexivity |]. unfold with_buffer; cbn [buffer fp prev_timestamp source_bytes].
      rewrite app_nil_r, <- app_assoc.
      split; [reflexivity |]. split; [assumption |]. split; [exact I |].
      split; [rewrite length_app; lia |]. split; [| right; cbn; lia].
      destruct buf; destruct a; cbn; congruence.
    + set (n := Z.to_nat (65536 - Z.of_nat (List.length buf))) in *.
      assert (Efull : Z.of_nat (List.length (buf ++ firstn n a)) = 65536)
        by (rewrite length_app, length_firstn; lia).
      replace ((Z.of_nat (List.length (firstn n a)) =? 0) && (Z.of_nat (List.length buf) =? 0))
        with false by (symmetry; apply andb_false_iff; left; rewrite length_firstn; lia).
      eexists. split; [reflexivity |]. unfold with_buffer; cbn [buffer fp prev_timestamp source_bytes].
      rewrite app_nil_r, <- !app_assoc, (app_assoc (firstn n a)), firstn_skipn.
      split; [reflexivity |]. split; [assumption |].
      split.
      { cbn [at_most_one_split]. intros E.
        assert (List.length (skipn n a) = 0%nat) as E0 by (rewrite E; reflexivity).
        rewrite length_skipn in E0. lia. }
      split; [lia |]. split; [| left; lia].
      intros E. rewrite E in Efull. cbn in Efull. lia.
Qed.

Lemma wait_complete_framing st1 m rest :
  well_formed m ->
  buffer st1 ++ source_bytes (fp st1) = m ++ rest ->
  at_most_one_split (fp st1) ->
  buffer_used st1 <= BUFFER_SIZE ->
  (BUFFER_SIZE / 2 <= buffer_used st1 \/ (List.length (fp st1) <= 1)%nat) ->
  exists st2,
    wait_complete st1 (Z.of_nat (List.length m)) = inr st2
    /\ prev_timestamp st2 = prev_timestamp st1
    /\ buffer st2 ++ source_bytes (fp st2) = m ++ rest
    /\ at_most_one_split (fp st2)
    /\ buffer_used st2 <= BUFFER_SIZE
    /\ Z.of_nat (List.length m) <= buffer_used st2.
Proof.
  intros Hwf Heq Hok Hcap Hcase.
  apply well_formed_length in Hwf. destruct Hwf as (Hne & _ & Hlen).
  unfold wait_complete.
  change (BUFFER_SIZE / 2) with 32768 in *. change BUFFER_SIZE with 65536 in *.
  destruct (buffer_used st1 <? Z.of_nat (List.length m)) eqn:Hshort.
  2:{ exists st1. repeat split; auto. lia. }
  destruct Hcase as [Hbig | Hone]; [lia |].
  destruct st1 as [buf src pt ms tb]; unfold buffer_used in *; cbn [buffer fp prev_timestamp] in *.
  assert (Hall : List.length (buf ++ source_bytes src) = List.length (m ++ rest)) by congruence.
  rewrite !length_app in Hall.
  destruct src as [| [c |] [| ? ?]]; cbn [at_most_one_split List.length] in *; try contradiction; try lia;
    cbn [source_read source_bytes] in *.
  - cbn [List.length] in Hall. lia.
  - rewrite app_nil_r in Heq. rewrite length_app in Hall. cbn [List.length] in Hall.
    destruct (Z.of_nat (List.length c) <=? 65536 - Z.of_nat (List.length buf)) eqn:Hfit.
    + replace (Z.of_nat (List.length c) <=? 0) with false by lia.
      unfold with_buffer; cbn [buffer fp prev_timestamp].
      replace (Z.of_nat (List.length (buf ++ c)) <? Z.of_nat (List.length m)) with false
        by (rewrite length_app; lia).
      eexists. split; [reflexivity |]. cbn [buffer fp prev_timestamp source_bytes].
      rewrite app_nil_r.
      split; [reflexivity |]. split; [assumption |]. split; [exact I |].
      rewrite length_app. lia.
    + set (n := Z.to_nat (65536 - Z.of_nat (List.length buf))) in *.
      assert (Efull : Z.of_nat (List.length (buf ++ firstn n c)) = 65536)
        by (rewrite length_app, length_firstn; lia).
      replace (Z.of_nat (List.length (firstn n c)) <=? 0) with false
        by (rewrite length_firstn; lia).
      unfold with_buffer; cbn [buffer fp prev_timestamp].
      replace (Z.of_nat (List.length (buf ++ firstn n c)) <? Z.of_nat (List.length m)) with false
        by lia.
      eexists. split; [reflexivity |]. cbn [buffer fp prev_timestamp source_bytes].
      rewrite app_nil_r, <- app_assoc, firstn_skipn.
      split; [reflexivity |]. split; [assumption |]. split; [exact I |]. lia.
Qed.

Lemma framed_sleep_events s : framed (sleep_events s) = [].
Proof. destruct s; reflexivity. Qed.

Lemma iteration_framing q sp st m rest :
  well_formed m ->
  buffer st ++ source_bytes (fp st) = m ++ rest ->
  at_most_one_split (fp st) ->
  buffer_used st <= BUFFER_SIZE ->
  exists evs st',
    replay_iteration q sp st = Continue evs st'
    /\ framed evs = [m]
    /\ unknown_reports evs = []
    /\ incomplete_reports evs = 0%nat
    /\ buffer st' ++ source_bytes (fp st') = rest
    /\ at_most_one_split (fp st')
    /\ buffer_used st' <= BUFFER_SIZE.
Proof.
  intros Hwf Heq Hok Hcap.
  pose proof (well_formed_length m Hwf) as (Hne & Hlen & Hrange).
  assert (Hall : m ++ rest <> []) by (destruct m; [congruence | discriminate]).
  destruct (refill_framing st (m ++ rest) Hall Heq Hok Hcap)
    as (st1 & Hr & _ & Heq1 & Hok1 & Hcap1 & Hne1 & Hcase1).
  destruct (wait_complete_framing st1 m rest Hwf Heq1 Hok1 Hcap1 Hcase1)
    as (st2 & Hw & _ & Heq2 & Hok2 & Hcap2 & Hlen2).
  unfold replay_iteration. rewrite Hr.
  replace (buffer_used st1 <? 1) with false.
  2:{ unfold buffer_used. destruct (buffer st1); [congruence | cbn [List.length]; lia]. }
  rewrite (byte_at_app_front _ _ _ _ Heq1 Hne1 Hne), Hlen.
  replace (Z.of_nat (List.length m) =? 0) with false by lia.
  rewrite Hw. rewrite Nat2Z.id.
  unfold buffer_used in Hlen2.
  destruct (prefix_split _ _ _ _ _ Heq2) as [Hfirst Hskip]; [lia |].
  rewrite Hfirst.
  eexists. eexists. split; [reflexivity |].
  cbn [buffer fp].
  rewrite !framed_app, framed_sleep_events.
  rewrite !unknown_reports_app, !incomplete_reports_app.
  split.
  { cbn [framed app]. destruct (_ mod 100000 =? 0); reflexivity. }
  split.
  { destruct (pacer_sleep _ _ _ _); destruct (_ mod 100000 =? 0); reflexivity. }
  split.
  { destruct (pacer_sleep _ _ _ _); destruct (_ mod 100000 =? 0); reflexivity. }
  split; [assumption |]. split; [assumption |].
  unfold buffer_used in *. cbn [buffer]. rewrite length_skipn. lia.
Qed.

Lemma replay_frames q sp : forall msgs st fuel,
  Forall well_formed msgs ->
  buffer st ++ source_bytes (fp st) = List.concat msgs ->
  at_most_one_split (fp st) ->
  buffer_used st <= BUFFER_SIZE ->
  (pending st < fuel)%nat ->
  exists evs final,
    replay_loop q sp fuel st = Some (evs, final)
    /\ framed evs = msgs
    /\ unknown_reports evs = []
    /\ incomplete_reports evs = 0%nat
    /\ buffer final = [].
Proof.
  induction msgs as [| m msgs IH]; intros st fuel Hwf Heq Hok Hcap Hfuel.
  - destruct fuel as [| fuel]; [lia |].
    cbn [List.concat] in Heq. apply app_eq_nil in Heq. destruct Heq as [Hbuf Hsrc].
    cbn [replay_loop]. unfold replay_iteration, refill, buffer_used.
    rewrite Hbuf. cbn [List.length].
    change (Z.of_nat 0 <? BUFFER_SIZE / 2) with true. cbv iota.
    destruct (fp st) as [| [a |] [| [c |] [| ? ?]]]; cbn [at_most_one_split] in Hok; try contradiction;
      cbn [source_bytes] in Hsrc.
    + cbn. eexists. eexists. split; [reflexivity |]. repeat split; reflexivity.
    + rewrite app_nil_r in Hsrc. subst a. cbn.
      eexists. eexists. split; [reflexivity |]. repeat split; reflexivity.
    + apply app_eq_nil in Hsrc. tauto.
  - destruct fuel as [| fuel]; [lia |].
    inversion Hwf as [| ? ? Hm Hrest]; subst.
    cbn [List.concat] in Heq.
    destruct (iteration_framing q sp st m (List.concat msgs) Hm Heq Hok Hcap)
      as (evs & st' & Hit & Hf & Hu & Hi & Heq' & Hok' & Hcap').
    pose proof (iteration_progress _ _ _ _ _ Hit) as Hprog.
    destruct (IH st' fuel Hrest Heq' Hok' Hcap') as (evs' & final & Hrun & Hf' & Hu' & Hi' & Hb');
      [lia |].
    cbn [replay_loop]. rewrite Hit, Hrun.
    eexists. eexists. split; [reflexivity |].
    rewrite framed_app, unknown_reports_app, incomplete_reports_app, Hf, Hu, Hi, Hf', Hu', Hi'.
    repeat split; auto.
Qed.


Lemma wait_complete_inr st len st2 :
  wait_complete st len = inr st2 ->
  (st2 = st /\ len <= buffer_used st)
  \/ (exists bs src,
         source_read (fp st) (BUFFER_SIZE - buffer_used st) = (Got bs, src)
         /\ st2 = with_buffer st (buffer st ++ bs) src
         /\ buffer_used st < len <= buffer_used st2).
Proof.
  unfold wait_complete.
  destruct (buffer_used st <? len) eqn:Hs.
  - destruct (source_read (fp st) (BUFFER_SIZE - buffer_used st)) as [[bs |] src];
      [| discriminate].
    destruct (Z.of_nat (List.length bs) <=? 0); [discriminate |].
    destruct (buffer_used (with_buffer st (buffer st ++ bs) src) <? len) eqn:Hs2;
      [discriminate |].
    intros H. injection H as <-. right. exists bs, src.
    split; [reflexivity |]. split; [reflexivity |]. lia.
  - intros H. injection H as <-. left. split; [reflexivity | lia].
Qed.

Lemma refill_inl st evs st' :
  refill st = inl (evs, st') -> evs = [StderrReadError] \/ evs = [StdoutEndOfFile].
Proof.
  unfold refill.
  destruct (buffer_used st <? BUFFER_SIZE / 2); [| discriminate].
  destruct (source_read (fp st) (BUFFER_SIZE - buffer_used st)) as [[bs |] src].
  - destruct ((Z.of_nat (List.length bs) =? 0) && (buffer_used st =? 0)); [| discriminate].
    intros H. injection H as <- _. right. reflexivity.
  - intros H. injection H as <- _. left. reflexivity.
Qed.

Lemma wait_complete_inl st len evs st' :
  wait_complete st len = inl (evs, st') -> evs = [] \/ evs = [StderrIncomplete].
Proof.
  unfold wait_complete.
  destruct (buffer_used st <? len); [| discriminate].
  destruct (source_read (fp st) (BUFFER_SIZE - buffer_used st)) as [[bs |] src].
  - destruct (Z.of_nat (List.length bs) <=? 0).
    + intros H. injection H as <- _. left. reflexivity.
    + destruct (buffer_used (with_buffer st (buffer st ++ bs) src) <? len); [| discriminate].
      intros H. injection H as <- _. right. reflexivity.
  - intros H. injection H as <- _. left. reflexivity.
Qed.

Lemma iteration_break_events q sp st evs st' :
  replay_iteration q sp st = Break evs st' ->
  evs = [StderrReadError] \/ evs = [StdoutEndOfFile] \/ evs = [] \/ evs = [StderrIncomplete].
Proof.
  unfold replay_iteration.
  destruct (refill st) as [[evs0 st0] | st1] eqn:Hr.
  - intros H. injection H as <- _. apply refill_inl in Hr. tauto.
  - destruct (buffer_used st1 <? 1).
    + intros H. injection H as <- _. tauto.
    + destruct (get_message_length (byte_at (buffer st1) 0) =? 0); [discriminate |].
      destruct (wait_complete st1 (get_message_length (byte_at (buffer st1) 0)))
        as [[evs0 st0] | st2] eqn:Hw; [| discriminate].
      intros H. injection H as <- _. apply wait_complete_inl in Hw. tauto.
Qed.

Lemma iteration_table_sized q sp st evs st' :
  replay_iteration q sp st = Continue evs st' -> Forall table_sized (framed evs).
Proof.
  unfold replay_iteration.
  destruct (refill st) as [[evs0 st0] | st1]; [discriminate |].
  destruct (buffer_used st1 <? 1) eqn:H1; [discriminate |].
  destruct (get_message_length (byte_at (buffer st1) 0) =? 0) eqn:Hz.
  - intros H. injection H as <- _. constructor.
  - destruct (wait_complete st1 (get_message_length (byte_at (buffer st1) 0)))
      as [[evs0 st0] | st2] eqn:Hw; [discriminate |].
    intros H. injection H as <- _.
    rewrite !framed_app, framed_sleep_events. cbn [framed app].
    replace (framed (if to_u64 (messages_sent st2 + 1) mod 100000 =? 0 then _ else []))
      with (@nil (list byte))
      by (destruct (to_u64 (messages_sent st2 + 1) mod 100000 =? 0); reflexivity).
    constructor; [| constructor].
    pose proof (message_length_range (byte_at (buffer st1) 0)) as Hr.
    assert (Hfront : byte_at (buffer st2) 0 = byte_at (buffer st1) 0
                     /\ get_message_length (byte_at (buffer st1) 0) <= buffer_used st2).
    { apply wait_complete_inr in Hw.
      destruct Hw as [[-> Hlen] | (bs & src & _ & -> & Hlen)].
      - split; [reflexivity | lia].
      - split; [| lia]. unfold with_buffer, buffer_used in *; cbn [buffer] in *.
        destruct (buffer st1); [cbn [List.length] in H1; lia | reflexivity]. }
    destruct Hfront as [Hb Hlen]. unfold buffer_used in Hlen.
    set (L := get_message_length (byte_at (buffer st1) 0)) in *.
    assert (Hfirst : byte_at (firstn (Z.to_nat L) (buffer st2)) 0 = byte_at (buffer st1) 0).
    { rewrite <- Hb. destruct (buffer st2) as [| x tl]; [cbn [List.length] in Hlen; lia |].
      destruct (Z.to_nat L) eqn:En; [lia | reflexivity]. }
    unfold table_sized. rewrite Hfirst, length_firstn. fold L. split; lia.
Qed.

(** Every payload handed to the broadcaster has the table length of its own
    type byte, whatever the input. *)
Theorem framed_messages_table_sized q sp : forall fuel st evs final,
  replay_loop q sp fuel st = Some (evs, final) -> Forall table_sized (framed evs).
Proof.
  induction fuel as [| fuel IH]; intros st evs final; cbn [replay_loop]; [discriminate |].
  destruct (replay_iteration q sp st) as [evs1 st1 | evs1 st1] eqn:Hit.
  - destruct (replay_loop q sp fuel st1) as [[evs2 final2] |] eqn:Hrun; [| discriminate].
    intros H. injection H as <- _. rewrite framed_app. apply Forall_app. split.
    + eapply iteration_table_sized; eassumption.
    + eapply IH; eassumption.
  - intros H. injection H as <- _.
    apply iteration_break_events in Hit.
    destruct Hit as [-> | [-> | [-> | ->]]]; constructor.
Qed.

Lemma run_loop_frames q sp src msgs :
  Forall well_formed msgs ->
  source_bytes src = List.concat msgs ->
  at_most_one_split src ->
  exists evs final,
    run_loop q sp (initial_state src) = Some (evs, final)
    /\ framed evs = msgs
    /\ unknown_reports evs = []
    /\ incomplete_reports evs = 0%nat
    /\ buffer final = [].
Proof.
  intros Hwf Hsrc Hok. unfold run_loop.
  apply replay_frames; auto.
  unfold buffer_used; cbn. change BUFFER_SIZE with 65536. lia.
Qed.

Lemma well_formed_table_sized m : well_formed m -> table_sized m.
Proof.
  intros H. destruct (well_formed_length m H) as (_ & Hlen & Hr).
  unfold table_sized. rewrite Hlen. split; lia.
Qed.

End ServerFacts.

(* ================================================================== *)
(** * The server loop over [fread] and [gzread]                        *)
(* ================================================================== *)

Module StdioFacts.
Import Codec Stream Server Feed CodecFacts StreamFacts ServerFacts.













End StdioFacts.

(* ================================================================== *)
(** * The client loops                                                 *)
(* ================================================================== *)

Module ClientFacts.
Import Codec Stream Client Feed CodecFacts StreamFacts ServerFacts.

Lemma client_framed_app a b : framed (a ++ b) = framed a ++ framed b.
Proof.
  induction a as [| e a IH]; [reflexivity |].
  destruct e; cbn [app framed]; rewrite ?IH; reflexivity.
Qed.

Lemma client_unknown_reports_app a b : unknown_reports (a ++ b) = unknown_reports a ++ unknown_reports b.
Proof.
  induction a as [| e a IH]; [reflexivity |].
  destruct e; cbn [app unknown_reports]; rewrite ?IH; reflexivity.
Qed.

Lemma parse_buffer_stops tail fuel stats :
  partial_message tail -> parse_buffer (S fuel) tail stats = Some ([], tail, stats).
Proof.
  intros [-> | (Hne & Hnz & Hlt)]; cbn [parse_buffer]; [reflexivity |].
  replace (0 <? Z.of_nat (List.length tail)) with true
    by (destruct tail; [congruence | cbn [List.length]; lia]).
  replace (Z.of_nat (List.length tail) <? 1) with false
    by (destruct tail; [congruence | cbn [List.length]; lia]).
  rewrite lengths_agree.
  replace (get_message_length (byte_at tail 0) =? 0) with false by lia.
  replace (Z.of_nat (List.length tail) <? get_message_length (byte_at tail 0)) with true by lia.
  reflexivity.
Qed.

Lemma parse_buffer_frames : forall ms tail fuel stats,
  Forall well_formed ms ->
  partial_message tail ->
  (List.length (List.concat ms ++ tail) < fuel)%nat ->
  exists evs stats',
    parse_buffer fuel (List.concat ms ++ tail) stats = Some (evs, tail, stats')
    /\ framed evs = ms
    /\ unknown_reports evs = [].
Proof.
  induction ms as [| m ms IH]; intros tail fuel stats Hwf Hpart Hfuel.
  - destruct fuel as [| fuel]; [lia |].
    cbn [List.concat app]. rewrite parse_buffer_stops by assumption.
    eexists. eexists. repeat split; reflexivity.
  - destruct fuel as [| fuel]; [lia |].
    inversion Hwf as [| ? ? Hm Hrest]; subst.
    destruct (well_formed_length m Hm) as (Hne & Hlen & Hrange).
    cbn [List.concat] in *. rewrite <- app_assoc in *.
    set (rest := List.concat ms ++ tail) in *.
    rewrite length_app in Hfuel.
    cbn [parse_buffer].
    assert (Hfront : byte_at (m ++ rest) 0 = byte_at m 0)
      by (destruct m; [congruence | reflexivity]).
    rewrite Hfront, lengths_agree, Hlen, length_app.
    replace (0 <? Z.of_nat (List.length m + List.length rest)) with true by lia.
    replace (Z.of_nat (List.length m + List.length rest) <? 1) with false by lia.
    replace (Z.of_nat (List.length m) =? 0) with false by lia.
    replace (Z.of_nat (List.length m + List.length rest) <? Z.of_nat (List.length m))
      with false by lia.
    rewrite Nat2Z.id, firstn_app, Nat.sub_diag, firstn_all, skipn_app, Nat.sub_diag, skipn_all.
    cbn [firstn skipn app]. rewrite app_nil_r.
    destruct (IH tail fuel (update_stats stats (byte_at m 0) (Z.of_nat (List.length m))) Hrest Hpart)
      as (evs & stats' & Hrun & Hf & Hu); [fold rest; lia |].
    fold rest in Hrun. rewrite Hrun.
    eexists. eexists. split; [reflexivity |].
    unfold verbose. cbn [app framed unknown_reports].
    rewrite client_framed_app, client_unknown_reports_app, Hf, Hu.
    destruct (total_messages (update_stats stats (byte_at m 0) (Z.of_nat (List.length m)))
                mod 100000 =? 0); split; reflexivity.
Qed.

Lemma prefix_of_feed : forall msgs p s,
  Forall well_formed msgs ->
  p ++ s = List.concat msgs ->
  exists ms1 ms2 tail,
    msgs = ms1 ++ ms2
    /\ p = List.concat ms1 ++ tail
    /\ partial_message tail
    /\ tail ++ s = List.concat ms2.
Proof.
  induction msgs as [| m msgs IH]; intros p s Hwf Heq.
  - cbn [List.concat] in Heq. apply app_eq_nil in Heq. destruct Heq as [-> ->].
    exists [], [], []. repeat split; try reflexivity. left. reflexivity.
  - inversion Hwf as [| ? ? Hm Hrest]; subst.
    destruct (well_formed_length m Hm) as (Hne & Hlen & Hrange).
    cbn [List.concat] in Heq.
    destruct (le_lt_dec (List.length m) (List.length p)) as [Hge | Hlt].
    + destruct (prefix_split _ _ _ _ _ Heq Hge) as [Hfirst Hskip].
      destruct (IH _ _ Hrest Hskip) as (ms1 & ms2 & tail & -> & Hp & Hpart & Htail).
      exists (m :: ms1), ms2, tail. repeat split; auto.
      cbn [List.concat]. rewrite <- app_assoc, <- Hp, <- Hfirst at 1.
      symmetry. apply firstn_skipn.
    + exists [], (m :: msgs), p. repeat split; auto.
      destruct p as [| x p]; [left; reflexivity | right].
      assert (Hx : byte_at (x :: p) 0 = byte_at m 0).
      { destruct m as [| y m]; [congruence |]. cbn in Heq. injection Heq as -> _. reflexivity. }
      rewrite Hx, Hlen. repeat split; try congruence; lia.
Qed.

Lemma live_read sock n :
  live_socket sock -> sock <> [] -> 0 < n ->
  exists bs sock',
    source_read sock n = (Got bs, sock')
    /\ bs <> []
    /\ live_socket sock'
    /\ bs ++ source_bytes sock' = source_bytes sock.
Proof.
  intros Hlive Hne Hn.
  destruct sock as [| [c |] rest]; [congruence | |].
  - inversion Hlive as [| ? ? Hc Hrest]; subst.
    assert (List.length c <> 0%nat) by (destruct c; cbn; congruence).
    cbn [source_read].
    destruct (Z.of_nat (List.length c) <=? n) eqn:Hfit.
    + exists c, rest. repeat split; auto.
    + exists (firstn (Z.to_nat n) c), (Data (skipn (Z.to_nat n) c) :: rest).
      split; [reflexivity |]. split.
      { intros E. assert (List.length (firstn (Z.to_nat n) c) = 0%nat) as E0 by (rewrite E; reflexivity).
        rewrite length_firstn in E0. lia. }
      split.
      { constructor; [| assumption]. intros E.
        assert (List.length (skipn (Z.to_nat n) c) = 0%nat) as E0 by (rewrite E; reflexivity).
        rewrite length_skipn in E0. lia. }
      cbn [source_bytes]. rewrite app_assoc, firstn_skipn. reflexivity.
  - inversion Hlive as [| ? ? Hc Hrest]; subst. contradiction.
Qed.

Lemma partial_message_short tail : partial_message tail -> Z.of_nat (List.length tail) < 50.
Proof.
  intros [-> | (_ & _ & Hlt)]; [cbn; lia |].
  pose proof (message_length_range (byte_at tail 0)). lia.
Qed.

Lemma receive_frames : forall fuel msgs st,
  Forall well_formed msgs ->
  buffer st ++ source_bytes (sock st) = List.concat msgs ->
  live_socket (sock st) ->
  partial_message (buffer st) ->
  (List.length (source_bytes (sock st)) < fuel)%nat ->
  exists evs final,
    receive_loop fuel st = Some (evs, final)
    /\ framed evs = msgs
    /\ unknown_reports evs = []
    /\ buffer final = []
    /\ sock final = [].
Proof.
  induction fuel as [| fuel IH]; intros msgs st Hwf Heq Hlive Hpart Hfuel; [lia |].
  pose proof (partial_message_short _ Hpart) as Hshort.
  cbn [receive_loop]. change BUFFER_SIZE with 65536.
  destruct (sock st) as [| c rest] eqn:Hsock.
  - (* the peer has closed *)
    cbn [source_read List.length Z.of_nat Z.eqb].
    cbn [source_bytes] in Heq. rewrite app_nil_r in Heq.
    assert (Hnil : msgs = [] /\ buffer st = []).
    { destruct msgs as [| m msgs]; [cbn in Heq; auto |].
      inversion Hwf as [| ? ? Hm _]; subst.
      destruct (well_formed_length m Hm) as (Hne & Hlen & Hrange).
      cbn [List.concat] in Heq.
      destruct Hpart as [E | (Hne' & Hnz & Hlt)].
      - rewrite E in Heq. destruct m; [congruence | discriminate].
      - assert (byte_at (buffer st) 0 = byte_at m 0) as Hx.
        { rewrite Heq. destruct m; [congruence | reflexivity]. }
        rewrite Hx, Hlen, Heq, length_app in Hlt. lia. }
    destruct Hnil as [-> Hbuf].
    eexists. eexists. split; [reflexivity |]. cbn [buffer Client.sock]. auto.
  - destruct (live_read (c :: rest) (65536 - Z.of_nat (List.length (buffer st))))
      as (bs & sock' & Hread & Hbs & Hlive' & Hbytes); [assumption | congruence | lia |].
    rewrite Hread.
    replace (Z.of_nat (List.length bs) =? 0) with false
      by (destruct bs; [congruence | cbn [List.length]; lia]).
    rewrite <- Hbytes, app_assoc in Heq.
    destruct (prefix_of_feed msgs _ _ Hwf Heq) as (ms1 & ms2 & tail & -> & Hp & Hpart' & Htail).
    apply Forall_app in Hwf. destruct Hwf as [Hwf1 Hwf2].
    unfold parse_messages. rewrite Hp.
    destruct (parse_buffer_frames ms1 tail (S (List.length (List.concat ms1 ++ tail))) (stats st)
                Hwf1 Hpart') as (evs1 & stats' & Hrun & Hf1 & Hu1); [lia |].
    rewrite Hrun.
    destruct (IH ms2 {| buffer := tail; sock := sock'; stats := stats' |} Hwf2 Htail Hlive' Hpart')
      as (evs2 & final & Hrun2 & Hf2 & Hu2 & Hb2 & Hs2).
    { cbn [Client.sock]. rewrite <- Hbytes, length_app in Hfuel.
      destruct bs; [congruence | cbn [List.length] in Hfuel; lia]. }
    rewrite Hrun2.
    eexists. eexists. split; [reflexivity |].
    rewrite !client_framed_app, !client_unknown_reports_app, Hf1, Hf2, Hu1, Hu2.
    replace (framed (if 9 * 65536 <? 10 * Z.of_nat (List.length tail) then [StderrNearlyFull] else []))
      with (@nil (list byte)) by (destruct (9 * 65536 <? 10 * Z.of_nat (List.length tail)); reflexivity).
    replace (unknown_reports (if 9 * 65536 <? 10 * Z.of_nat (List.length tail) then [StderrNearlyFull] else []))
      with (@nil byte) by (destruct (9 * 65536 <? 10 * Z.of_nat (List.length tail)); reflexivity).
    auto.
Qed.

Lemma run_client_frames sock msgs :
  Forall well_formed msgs ->
  source_bytes sock = List.concat msgs ->
  live_socket sock ->
  exists evs final,
    run_client sock = Some (evs, final)
    /\ framed evs = msgs
    /\ unknown_reports evs = []
    /\ buffer final = [].
Proof.
  intros Hwf Hsrc Hlive. unfold run_client.
  destruct (receive_frames (S (List.length (source_bytes sock))) msgs
              {| buffer := []; sock := sock; stats := init_stats |})
    as (evs & final & Hrun & Hf & Hu & Hb & _); auto.
  - left. reflexivity.
  - exists evs, final. auto.
Qed.

(** The framing loop leaves within one pass per resident byte and a last
    test. *)
Lemma parse_buffer_total : forall fuel buf stats,
  (List.length buf < fuel)%nat -> exists r, parse_buffer fuel buf stats = Some r.
Proof.
  induction fuel as [| fuel IH]; intros buf stats Hfuel; [lia |].
  cbn [parse_buffer].
  destruct (0 <? Z.of_nat (List.length buf)) eqn:Hpos; [| eauto].
  destruct (Z.of_nat (List.length buf) <? 1) eqn:H1; [eauto |].
  pose proof (message_length_range (byte_at buf 0)) as Hrange.
  rewrite <- lengths_agree in Hrange.
  destruct (get_itch_message_length (byte_at buf 0) =? 0) eqn:Hz.
  - destruct (IH (skipn 1 buf) stats) as [[[evs rest] stats'] Hr].
    { rewrite length_skipn. lia. }
    rewrite Hr. eauto.
  - destruct (Z.of_nat (List.length buf) <? get_itch_message_length (byte_at buf 0)) eqn:Hshort;
      [eauto |].
    destruct (IH (skipn (Z.to_nat (get_itch_message_length (byte_at buf 0))) buf)
                 (update_stats stats (byte_at buf 0) (get_itch_message_length (byte_at buf 0))))
      as [[[evs rest] stats'] Hr].
    { rewrite length_skipn. lia. }
    rewrite Hr. eauto.
Qed.

Lemma parse_messages_total buf stats : exists r, parse_messages buf stats = Some r.
Proof. apply parse_buffer_total. lia. Qed.

(** A pass of the framing loop that finds a byte of table length 0 at the
    front of the buffer: the diagnostic, then the passes over the rest. *)
Lemma parse_buffer_unknown b rest fuel stats :
  get_message_length b = 0 ->
  parse_buffer (S fuel) (b :: rest) stats
  = match parse_buffer fuel rest stats with
    | Some (evs, remaining, stats') => Some (StderrUnknownType b :: evs, remaining, stats')
    | None => None
    end.
Proof.
  intros Hzero. cbn [parse_buffer List.length].
  replace (0 <? Z.of_nat (S (List.length rest))) with true by lia.
  replace (Z.of_nat (S (List.length rest)) <? 1) with false by lia.
  unfold byte_at. cbn [nth skipn].
  rewrite lengths_agree, Hzero. reflexivity.
Qed.

Lemma parse_messages_unknown b rest stats :
  get_message_length b = 0 ->
  parse_messages (b :: rest) stats
  = match parse_messages rest stats with
    | Some (evs, remaining, stats') => Some (StderrUnknownType b :: evs, remaining, stats')
    | None => None
    end.
Proof.
  intros Hzero. unfold parse_messages. cbn [List.length].
  apply parse_buffer_unknown. exact Hzero.
Qed.

(** The client fed an unknown byte in front of a well-formed stream, in
    any non-empty pieces: the diagnostic for that byte, nothing else
    reported unknown, and the messages of the stream framed in order. *)
Lemma run_client_resync b sock msgs :
  get_message_length b = 0 ->
  Forall well_formed msgs ->
  live_socket sock ->
  source_bytes sock = b :: List.concat msgs ->
  exists evs final,
    run_client sock = Some (StderrUnknownType b :: evs, final)
    /\ unknown_reports evs = []
    /\ framed evs = msgs.
Proof.
  intros Hzero Hwf Hlive Hsrc.
  unfold run_client. rewrite Hsrc.
  remember (List.length (b :: List.concat msgs)) as fuel eqn:Hfuel.
  cbn [receive_loop buffer Client.sock stats List.length].
  change BUFFER_SIZE with 65536.
  destruct (live_read sock (65536 - Z.of_nat 0)) as (bs & sock' & Hread & Hbs & Hlive' & Hbytes);
    [assumption | destruct sock; [discriminate | congruence] | lia |].
  rewrite Hread.
  replace (Z.of_nat (List.length bs) =? 0) with false
    by (destruct bs; [congruence | cbn [List.length]; lia]).
  rewrite Hsrc in Hbytes.
  destruct bs as [| x p]; [congruence |].
  cbn [app] in Hbytes. injection Hbytes as -> Hbytes.
  cbn [app]. rewrite (parse_messages_unknown b p init_stats Hzero).
  destruct (prefix_of_feed msgs _ _ Hwf Hbytes) as (ms1 & ms2 & tail & -> & Hp & Hpart & Htail).
  apply Forall_app in Hwf. destruct Hwf as [Hwf1 Hwf2].
  unfold parse_messages. rewrite Hp.
  destruct (parse_buffer_frames ms1 tail (S (List.length (List.concat ms1 ++ tail))) init_stats
              Hwf1 Hpart) as (evs1 & stats' & Hrun & Hf1 & Hu1); [lia |].
  rewrite Hrun.
  destruct (receive_frames fuel ms2
              {| buffer := tail; sock := sock'; stats := stats' |} Hwf2 Htail Hlive' Hpart)
    as (evs2 & final & Hrun2 & Hf2 & Hu2 & _).
  { cbn [Client.sock]. subst fuel. cbn [List.length]. rewrite <- Hbytes, length_app. lia. }
  rewrite Hrun2.
  eexists. eexists. split; [reflexivity |].
  rewrite !client_framed_app, !client_unknown_reports_app, Hf1, Hf2, Hu1, Hu2.
  destruct (9 * 65536 <? 10 * Z.of_nat (List.length tail)); auto.
Qed.

End ClientFacts.

(* ================================================================== *)
(** * The pacer                                                        *)
(* ================================================================== *)

Module PacerFacts.
Import Codec Stream Server Feed CodecFacts StreamFacts ServerFacts.

Lemma sleeps_app a b : sleeps (a ++ b) = sleeps a ++ sleeps b.
Proof.
  induction a as [| e a IH]; [reflexivity |].
  destruct e; cbn [app sleeps]; rewrite ?IH; reflexivity.
Qed.

Lemma pacer_sleep_range q prev cur m ns :
  pacer_sleep q prev cur m = Some ns -> 1000 < ns <= 1000000000.
Proof.
  unfold pacer_sleep.
  destruct ((0 <? prev) && (prev <? cur) && negb (Qle_bool m 0)); [| discriminate].
  set (s := to_u64 (q (to_u64 (cur - prev)) m)).
  destruct (1000000000 <? s) eqn:Hcap.
  - cbn. intros H. injection H as <-. lia.
  - destruct (1000 <? s) eqn:Hmin; [| discriminate].
    intros H. injection H as <-. lia.
Qed.

Lemma pacer_sleep_unpaced q prev cur m :
  (m <= 0)%Q -> pacer_sleep q prev cur m = None.
Proof.
  intros Hm. unfold pacer_sleep.
  apply Qle_bool_iff in Hm. rewrite Hm. cbn [negb]. rewrite andb_false_r. reflexivity.
Qed.

(** What a pass that stays in the loop prints or does: either the
    unknown-type diagnostic alone, or at most one sleep followed by one
    broadcast and possibly the progress line. *)
Lemma iteration_continue_shape q sp st evs st' :
  replay_iteration q sp st = Continue evs st' ->
  (exists b, evs = [StderrUnknownType b])
  \/ (exists prev cur msg progress,
         evs = sleep_events (pacer_sleep q prev cur sp) ++ [Broadcast msg] ++ progress
         /\ sleeps progress = []).
Proof.
  unfold replay_iteration.
  destruct (refill st) as [[evs0 st0] | st1]; [discriminate |].
  destruct (buffer_used st1 <? 1); [discriminate |].
  destruct (get_message_length (byte_at (buffer st1) 0) =? 0).
  - intros H. injection H as <- _. left. eexists. reflexivity.
  - destruct (wait_complete st1 (get_message_length (byte_at (buffer st1) 0)))
      as [[evs0 st0] | st2]; [discriminate |].
    intros H. injection H as <- _. right.
    eexists. eexists. eexists. eexists. split; [reflexivity |].
    destruct (to_u64 (messages_sent st2 + 1) mod 100000 =? 0); reflexivity.
Qed.

Lemma sleeps_sleep_events s :
  sleeps (sleep_events s) = match s with Some ns => [ns] | None => [] end.
Proof. destruct s; reflexivity. Qed.

Lemma iteration_sleeps q sp st evs st' :
  replay_iteration q sp st = Continue evs st' ->
  (List.length (sleeps evs) <= 1)%nat
  /\ Forall (fun ns => 1000 < ns <= 1000000000) (sleeps evs)
  /\ ((sp <= 0)%Q -> sleeps evs = []).
Proof.
  intros Hit. apply iteration_continue_shape in Hit.
  destruct Hit as [[b ->] | (prev & cur & msg & progress & -> & Hp)].
  - cbn. repeat split; auto.
  - rewrite !sleeps_app, Hp, sleeps_sleep_events. cbn [sleeps app].
    rewrite app_nil_r.
    destruct (pacer_sleep q prev cur sp) as [ns |] eqn:Hs.
    + apply pacer_sleep_range in Hs as Hr. cbn [List.length]. repeat split; auto.
      intros Hm. rewrite (pacer_sleep_unpaced q prev cur sp Hm) in Hs. discriminate.
    + cbn. repeat split; auto.
Qed.

Lemma replay_loop_unpaced q sp : forall fuel st evs final,
  (sp <= 0)%Q -> replay_loop q sp fuel st = Some (evs, final) -> sleeps evs = [].
Proof.
  induction fuel as [| fuel IH]; intros st evs final Hm; cbn [replay_loop]; [discriminate |].
  destruct (replay_iteration q sp st) as [evs1 st1 | evs1 st1] eqn:Hit.
  - destruct (replay_loop q sp fuel st1) as [[evs2 final2] |] eqn:Hrun; [| discriminate].
    intros H. injection H as <- _. rewrite sleeps_app.
    destruct (iteration_sleeps _ _ _ _ _ Hit) as (_ & _ & Hnone).
    rewrite (Hnone Hm), (IH _ _ _ Hm Hrun). reflexivity.
  - intros H. injection H as <- _.
    apply iteration_break_events in Hit.
    destruct Hit as [-> | [-> | [-> | ->]]]; reflexivity.
Qed.

(** With [exact_quot] the quotient is the integer part of the exact
    rational quotient. *)
Lemma exact_quot_bounds (delta_ns : Z) (m : Q) :
  (inject_Z (exact_quot delta_ns m) <= inject_Z delta_ns / m)%Q
  /\ (inject_Z delta_ns / m < inject_Z (exact_quot delta_ns m + 1))%Q.
Proof. unfold exact_quot. split; [apply Qfloor_le | apply Qlt_floor]. Qed.

Lemma paced_app a b : paced (a ++ b) = paced a ++ paced b.
Proof.
  induction a as [| e a IH]; [reflexivity |].
  destruct e; cbn [app paced]; rewrite ?IH; reflexivity.
Qed.

Lemma paced_sleep_events s : paced (sleep_events s) = sleep_events s.
Proof. destruct s; reflexivity. Qed.

(** Every type of the table has a header: its length reaches the
    timestamp field. *)
Lemma known_length_min t : get_message_length t <> 0 -> 12 <= get_message_length t.
Proof. destruct t; vm_compute; congruence. Qed.

(** The timestamp the loop reads at [buffer + 5] is the timestamp field of
    the record at the front of the buffer. *)
Lemma record_timestamp_read m r :
  (11 <= List.length m)%nat -> read_timestamp (skipn 5 (m ++ r)) = record_timestamp m.
Proof.
  intros Hlen.
  destruct m as [| b0 [| b1 [| b2 [| b3 [| b4 [| b5 [| b6 [| b7 [| b8 [| b9 [| b10 m]]]]]]]]]]];
    cbn [List.length] in Hlen; try lia.
  unfold record_timestamp. cbn [skipn app firstn].
  apply timestamp_value.
Qed.

(** A pass over a buffer fronted by a well-formed record: the sleep the
    pacer computes from the timestamp of the record emitted before and the
    timestamp of this one, then the emission of this one. *)
Lemma iteration_schedule q sp st m rest :
  well_formed m ->
  buffer st ++ source_bytes (fp st) = m ++ rest ->
  at_most_one_split (fp st) ->
  buffer_used st <= BUFFER_SIZE ->
  exists evs st',
    replay_iteration q sp st = Continue evs st'
    /\ paced evs
       = sleep_events (pacer_sleep q (prev_timestamp st) (record_timestamp m) sp)
         ++ [Broadcast m]
    /\ prev_timestamp st' = record_timestamp m
    /\ buffer st' ++ source_bytes (fp st') = rest
    /\ at_most_one_split (fp st')
    /\ buffer_used st' <= BUFFER_SIZE.
Proof.
  intros Hwf Heq Hok Hcap.
  pose proof (well_formed_length m Hwf) as (Hne & Hlen & Hrange).
  assert (Hmin : 12 <= Z.of_nat (List.length m)).
  { rewrite <- Hlen. apply known_length_min. rewrite Hlen. lia. }
  assert (Hall : m ++ rest <> []) by (destruct m; [congruence | discriminate]).
  destruct (refill_framing st (m ++ rest) Hall Heq Hok Hcap)
    as (st1 & Hr & Hp1 & Heq1 & Hok1 & Hcap1 & Hne1 & Hcase1).
  destruct (wait_complete_framing st1 m rest Hwf Heq1 Hok1 Hcap1 Hcase1)
    as (st2 & Hw & Hp2 & Heq2 & Hok2 & Hcap2 & Hlen2).
  unfold replay_iteration. rewrite Hr.
  replace (buffer_used st1 <? 1) with false.
  2:{ unfold buffer_used. destruct (buffer st1); [congruence | cbn [List.length]; lia]. }
  rewrite (byte_at_app_front _ _ _ _ Heq1 Hne1 Hne), Hlen.
  replace (Z.of_nat (List.length m) =? 0) with false by lia.
  rewrite Hw. rewrite Nat2Z.id.
  replace (11 <=? Z.of_nat (List.length m)) with true by lia.
  unfold buffer_used in Hlen2.
  destruct (prefix_split _ _ _ _ _ Heq2) as [Hfirst Hskip]; [lia |].
  rewrite Hfirst.
  assert (Hts : read_timestamp (skipn 5 (buffer st2)) = record_timestamp m).
  { rewrite <- (firstn_skipn (List.length m) (buffer st2)), Hfirst.
    apply record_timestamp_read. lia. }
  rewrite Hts, Hp2, Hp1.
  eexists. eexists. split; [reflexivity |].
  cbn [buffer fp prev_timestamp].
  rewrite !paced_app, paced_sleep_events.
  split.
  { cbn [paced app]. destruct (_ mod 100000 =? 0); reflexivity. }
  split; [reflexivity |].
  split; [assumption |]. split; [assumption |].
  unfold buffer_used in *. cbn [buffer]. rewrite length_skipn. lia.
Qed.

(** The sleeps and emissions of the loop on a well-formed feed are the
    schedule of the feed: one record after the other, each preceded by the
    sleep computed from its predecessor's timestamp and its own. *)
Lemma replay_schedule q sp : forall msgs st fuel,
  Forall well_formed msgs ->
  buffer st ++ source_bytes (fp st) = List.concat msgs ->
  at_most_one_split (fp st) ->
  buffer_used st <= BUFFER_SIZE ->
  (pending st < fuel)%nat ->
  exists evs final,
    replay_loop q sp fuel st = Some (evs, final)
    /\ paced evs = schedule q sp (prev_timestamp st) msgs.
Proof.
  induction msgs as [| m msgs IH]; intros st fuel Hwf Heq Hok Hcap Hfuel.
  - destruct (replay_frames q sp [] st fuel Hwf Heq Hok Hcap Hfuel)
      as (evs & final & Hrun & Hf & _).
    exists evs, final. split; [assumption |].
    destruct fuel as [| fuel]; [lia |].
    cbn [replay_loop] in Hrun.
    destruct (replay_iteration q sp st) as [evs1 st1 | evs1 st1] eqn:Hit.
    + cbn [List.concat] in Heq. apply app_eq_nil in Heq. destruct Heq as [Hbuf Hsrc].
      apply iteration_progress in Hit. unfold pending in Hit.
      rewrite Hbuf, Hsrc in Hit. cbn [List.length] in Hit. lia.
    + injection Hrun as <- _.
      apply iteration_break_events in Hit.
      destruct Hit as [-> | [-> | [-> | ->]]]; reflexivity.
  - destruct fuel as [| fuel]; [lia |].
    inversion Hwf as [| ? ? Hm Hrest]; subst.
    cbn [List.concat] in Heq.
    destruct (iteration_schedule q sp st m (List.concat msgs) Hm Heq Hok Hcap)
      as (evs & st' & Hit & Hpaced & Hprev & Heq' & Hok' & Hcap').
    pose proof (iteration_progress _ _ _ _ _ Hit) as Hprog.
    destruct (IH st' fuel Hrest Heq' Hok' Hcap') as (evs' & final & Hrun & Hpaced'); [lia |].
    cbn [replay_loop]. rewrite Hit, Hrun.
    eexists. eexists. split; [reflexivity |].
    rewrite paced_app, Hpaced, Hpaced', Hprev. cbn [schedule].
    rewrite <- app_assoc. reflexivity.
Qed.

(** The replay of a regular file holding a well-formed feed follows the
    schedule of the feed from the first record on. *)
Theorem file_replay_follows_schedule q sp (msgs : list (list byte)) :
  Forall well_formed msgs ->
  exists evs final,
    run_loop q sp (initial_state (file_source (List.concat msgs))) = Some (evs, final)
    /\ paced evs = schedule q sp 0 msgs.
Proof.
  intros Hwf. unfold run_loop.
  apply (replay_schedule q sp msgs (initial_state (file_source (List.concat msgs)))); auto.
  - cbn [initial_state buffer fp file_source source_bytes app]. apply app_nil_r.
  - exact I.
  - unfold buffer_used. cbn. change BUFFER_SIZE with 65536. lia.
Qed.

Lemma file_replay_follows_schedule_witness :
  (exists evs final,
     run_loop Binary64.quot_u64_x86 1
       (initial_state (file_source (List.concat [system_event_start; add_order_aapl])))
     = Some (evs, final)
     /\ paced evs = schedule Binary64.quot_u64_x86 1 0 [system_event_start; add_order_aapl])
  /\ schedule Binary64.quot_u64_x86 1 0 [system_event_start; add_order_aapl]
     = [Broadcast system_event_start; Nsleep 50000000; Broadcast add_order_aapl].
Proof.
  split; [| vm_compute; reflexivity].
  apply (file_replay_follows_schedule Binary64.quot_u64_x86 1
           [system_event_start; add_order_aapl]).
  constructor; [cbn; split; [discriminate | reflexivity] |].
  constructor; [cbn; split; [discriminate | reflexivity] | constructor].
Defined.

(** The guard, the cap and the threshold of the pacer, for whatever value
    the conversion of the quotient leaves. *)
Lemma pacer_sleep_capped q t_prev t m :
  0 < t_prev -> t_prev < t -> t < 2 ^ 64 -> (0 < m)%Q ->
  pacer_sleep q t_prev t m = capped (to_u64 (q (t - t_prev) m)).
Proof.
  intros Hprev Hlt Hmax Hm.
  unfold pacer_sleep, capped.
  replace (0 <? t_prev) with true by lia.
  replace (t_prev <? t) with true by lia.
  replace (Qle_bool m 0) with false.
  2:{ symmetry. apply not_true_is_false. intros E. apply Qle_bool_iff in E.
      apply (Qlt_not_le _ _ Hm E). }
  cbn [andb negb].
  replace (to_u64 (t - t_prev)) with (t - t_prev)
    by (unfold to_u64; rewrite Z.mod_small; lia).
  set (s := to_u64 (q (t - t_prev) m)).
  destruct (1000000000 <? s) eqn:Hcap.
  - rewrite Z.min_r by lia. reflexivity.
  - rewrite Z.min_l by lia. destruct (1000 <? s) eqn:Hmin.
    + replace (s <=? 1000) with false by lia. reflexivity.
    + replace (s <=? 1000) with true by lia. reflexivity.
Qed.

(** The value of [(uint64_t)(delta_ns / speed_multiplier)] from the integer
    part [z] of the binary64 quotient. *)
Lemma binary64_quot_value out_of_range delta_ns m z :
  Binary64.truncate (Binary64.div (Binary64.of_Z delta_ns) (Binary64.of_Q m)) = Some z ->
  Binary64.quot_u64 out_of_range delta_ns m
  = if (0 <=? z) && (z <? 2 ^ 64) then z else out_of_range.
Proof.
  intros Hz. unfold Binary64.quot_u64, Binary64.to_uint64. rewrite Hz. reflexivity.
Qed.

(** With the binary64 quotient: while its integer part [z] fits 64 bits the
    sleep is min(z, 1 s), none when that is at most 1000 ns; when it does
    not fit, the conversion is undefined and the sleep is whatever the value
    it leaves gives, none at all for the 0 of x86-64. *)
Theorem pacer_sleep_binary64 (out_of_range t_prev t : Z) (m : Q) (z : Z) :
  0 < t_prev -> t_prev < t -> t < 2 ^ 64 -> (0 < m)%Q ->
  Binary64.truncate (Binary64.div (Binary64.of_Z (t - t_prev)) (Binary64.of_Q m)) = Some z ->
  (0 <= z < 2 ^ 64 ->
   pacer_sleep (Binary64.quot_u64 out_of_range) t_prev t m = capped z)
  /\ (2 ^ 64 <= z ->
      pacer_sleep (Binary64.quot_u64 out_of_range) t_prev t m = capped (to_u64 out_of_range)
      /\ pacer_sleep Binary64.quot_u64_x86 t_prev t m = None).
Proof.
  intros Hprev Hlt Hmax Hm Hz.
  split.
  - intros Hfit. rewrite pacer_sleep_capped by assumption.
    rewrite (binary64_quot_value _ _ _ _ Hz).
    replace ((0 <=? z) && (z <? 2 ^ 64)) with true by lia.
    unfold to_u64. rewrite Z.mod_small by lia. reflexivity.
  - intros Hbig. unfold Binary64.quot_u64_x86.
    rewrite !pacer_sleep_capped by assumption.
    rewrite !(binary64_quot_value _ _ _ _ Hz).
    replace ((0 <=? z) && (z <? 2 ^ 64)) with false by lia.
    split; reflexivity.
Qed.

Lemma pacer_sleep_binary64_witness :
  pacer_sleep (Binary64.quot_u64 0) 34200000000000 34200050000000 (1 # 10)
  = capped 500000000
  /\ capped 500000000 = Some 500000000.
Proof.
  split; [| reflexivity].
  apply (pacer_sleep_binary64 0 34200000000000 34200050000000 (1 # 10) 500000000).
  - lia.
  - lia.
  - lia.
  - reflexivity.
  - vm_compute. reflexivity.
  - lia.
Defined.

(** The quotient of the 50 ms between the two sample records at some
    speeds, in binary64: exact at 1 and 2, rounded to 10 times the gap at
    0.1, truncated at 3. *)
Lemma binary64_quotient_samples :
  map (fun speed => Binary64.quot_u64_x86 50000000 (Feed.atof speed))
      [ "1"; "2"; "0.1"; "3"; "0.5" ]%string
  = [ 50000000; 25000000; 500000000; 16666666; 100000000 ].
Proof. vm_compute. reflexivity. Qed.

(** C9, evaluated on the two sample records, 50 ms apart, replayed at a
    speed multiplier of 10^-12.  The quotient (t - t_prev) / m is 5 * 10^19,
    so the claim asks for a sleep of min(5 * 10^19 ns, 1 s) = 1 s before the
    later record.  The code converts the quotient to [uint64_t] before it
    applies the cap; 5 * 10^19 is above 2^64, the conversion is undefined,
    and the sleep is what the value it leaves gives: with the 0 of x86-64
    there is no sleep at all, and [main] started with that multiplier emits
    the two records back to back. *)
Theorem cap_lost_on_quotient_overflow :
  let t_prev := record_timestamp system_event_start in
  let t := record_timestamp add_order_aapl in
  let m := Feed.atof "0.000000000001" in
  let quotient := Binary64.div (Binary64.of_Z (t - t_prev)) (Binary64.of_Q m) in
  0 < t_prev /\ t_prev < t /\ t - t_prev = 50000000 /\ (0 < m)%Q
  /\ Binary64.truncate quotient = Some 50000000000000000000
  /\ 2 ^ 64 <= 50000000000000000000
  /\ capped 50000000000000000000 = Some 1000000000
  /\ pacer_sleep Binary64.quot_u64_x86 t_prev t m = None
  /\ (forall out_of_range,
         pacer_sleep (Binary64.quot_u64 out_of_range) t_prev t m
         = capped (to_u64 out_of_range))
  /\ option_map fst
       (run_loop Binary64.quot_u64_x86 m
          (initial_state (file_source (system_event_start ++ add_order_aapl))))
     = Some [Broadcast system_event_start; Broadcast add_order_aapl; StdoutEndOfFile]
  /\ option_map (fun r => replays (snd r))
       (main Binary64.quot_u64_x86 Feed.atoi Feed.atof sample_env tiny_speed_argv)
     = Some [ [StdoutStarting; Broadcast system_event_start; Broadcast add_order_aapl;
               StdoutEndOfFile; StdoutComplete 2 48] ].
Proof.
  cbv zeta.
  assert (Hq : Binary64.truncate
                 (Binary64.div
                    (Binary64.of_Z (record_timestamp add_order_aapl
                                    - record_timestamp system_event_start))
                    (Binary64.of_Q (Feed.atof "0.000000000001")))
               = Some 50000000000000000000) by (vm_compute; reflexivity).
  split; [vm_compute; reflexivity |].
  split; [vm_compute; reflexivity |].
  split; [vm_compute; reflexivity |].
  split; [vm_compute; reflexivity |].
  split; [exact Hq |].
  split; [vm_compute; discriminate |].
  split; [vm_compute; reflexivity |].
  split; [vm_compute; reflexivity |].
  split.
  { intros u.
    assert (H1 : 0 < record_timestamp system_event_start) by (vm_compute; reflexivity).
    assert (H2 : record_timestamp system_event_start < record_timestamp add_order_aapl)
      by (vm_compute; reflexivity).
    assert (H3 : record_timestamp add_order_aapl < 2 ^ 64) by (vm_compute; reflexivity).
    assert (H4 : (0 < Feed.atof "0.000000000001")%Q) by (vm_compute; reflexivity).
    rewrite (pacer_sleep_capped _ _ _ _ H1 H2 H3 H4).
    rewrite (binary64_quot_value _ _ _ _ Hq). reflexivity. }
  split; vm_compute; reflexivity.
Qed.

End PacerFacts.

(* ================================================================== *)
(** * Truncated files                                                  *)
(* ================================================================== *)

Module TruncationFacts.
Import Codec Stream Server Feed CodecFacts StreamFacts ServerFacts PacerFacts.


Lemma single_run_no_error fp n src : single_run fp -> source_read fp n <> (Err, src).
Proof.
  intros [-> | [c ->]]; cbn [source_read]; [discriminate |].
  destruct (Z.of_nat (List.length c) <=? n); discriminate.
Qed.

Lemma refill_inr st st1 :
  refill st = inr st1 ->
  (st1 = st /\ BUFFER_SIZE / 2 <= buffer_used st)
  \/ (exists bs src,
         source_read (fp st) (BUFFER_SIZE - buffer_used st) = (Got bs, src)
         /\ st1 = with_buffer st (buffer st ++ bs) src
         /\ buffer_used st < BUFFER_SIZE / 2).
Proof.
  unfold refill.
  destruct (buffer_used st <? BUFFER_SIZE / 2) eqn:Hlow.
  - destruct (source_read (fp st) (BUFFER_SIZE - buffer_used st)) as [[bs |] src];
      [| discriminate].
    destruct ((Z.of_nat (List.length bs) =? 0) && (buffer_used st =? 0)); [discriminate |].
    intros H. injection H as <-. right. exists bs, src.
    split; [reflexivity |]. split; [reflexivity | lia].
  - intros H. injection H as <-. left. split; [reflexivity | lia].
Qed.






(** The report is only reached after a further read that brings some bytes
    but too few: here 8 of the 12 bytes arrive in two deliveries of 4, each
    returned by a read of its own. *)
Lemma truncation_reported_after_short_read :
  run_loop exact_quot 1
    (initial_state [Data (firstn 4 system_event_start);
                    Data (firstn 4 (skipn 4 system_event_start))])
  = Some ([StderrIncomplete],
          {| buffer := firstn 8 system_event_start; fp := [];
             prev_timestamp := 0; messages_sent := 0; total_bytes := 0 |}).
Proof. vm_compute. reflexivity. Qed.

End TruncationFacts.

(* ================================================================== *)
(** * The replay on arbitrary input                                  *)
(* ================================================================== *)

Module ReplayFacts.
Import Codec Stream Server Feed CodecFacts StreamFacts ServerFacts PacerFacts TruncationFacts.

(** [replay_itch_file] returns on every input: -1 with the open-failure
    line when the file cannot be opened, otherwise 0 after a trace that
    starts with the start line and ends with the completion line. *)
Theorem replay_itch_file_always_returns q (opened : option source) sp :
  match opened with
  | None => replay_itch_file q opened sp = Some (-1, [StderrOpenFailed])
  | Some src =>
      exists evs final,
        run_loop q sp (initial_state src) = Some (evs, final)
        /\ replay_itch_file q opened sp
           = Some (0, [StdoutStarting] ++ evs
                      ++ [StdoutComplete (messages_sent final) (total_bytes final)])
  end.
Proof.
  destruct opened as [src |]; [| reflexivity].
  unfold replay_itch_file, run_loop.
  destruct (replay_loop_terminates q sp (S (pending (initial_state src))) (initial_state src))
    as [[evs final] Hrun]; [lia |].
  rewrite Hrun. exists evs, final. split; reflexivity.
Qed.

Lemma framed_messages_table_sized_witness :
  exists evs final,
    replay_loop exact_quot 1 (S (pending (initial_state (file_source corrupt_feed))))
      (initial_state (file_source corrupt_feed)) = Some (evs, final)
    /\ framed evs = [system_event_start; add_order_aapl]
    /\ Forall table_sized (framed evs).
Proof.
  eexists. eexists. split; [vm_compute; reflexivity |].
  split; [reflexivity |].
  apply (framed_messages_table_sized exact_quot 1
           (S (pending (initial_state (file_source corrupt_feed))))
           (initial_state (file_source corrupt_feed)) _
           {| buffer := firstn 5 system_event_start; fp := [];
              prev_timestamp := 34200050000000; messages_sent := 2; total_bytes := 48 |}).
  vm_compute. reflexivity.
Defined.

(** The resident bytes never exceed the scratch array: a pass started with
    at most [BUFFER_SIZE] bytes in the buffer ends with at most as many,
    whatever the producer delivers. *)
Lemma refill_bounded st st1 :
  buffer_used st <= BUFFER_SIZE -> refill st = inr st1 -> buffer_used st1 <= BUFFER_SIZE.
Proof.
  intros Hcap Hr. apply refill_inr in Hr.
  destruct Hr as [[-> _] | (bs & src & Hread & -> & _)]; [assumption |].
  apply source_read_length in Hread; [| lia].
  unfold buffer_used, with_buffer in *; cbn [buffer]. rewrite length_app. lia.
Qed.

Lemma wait_complete_bounded st len st2 :
  buffer_used st <= BUFFER_SIZE -> wait_complete st len = inr st2 ->
  buffer_used st2 <= BUFFER_SIZE.
Proof.
  intros Hcap Hw. apply wait_complete_inr in Hw.
  destruct Hw as [[-> _] | (bs & src & Hread & -> & _)]; [assumption |].
  apply source_read_length in Hread; [| lia].
  unfold buffer_used, with_buffer in *; cbn [buffer]. rewrite length_app. lia.
Qed.

Lemma refill_break_bounded st evs st' :
  buffer_used st <= BUFFER_SIZE -> refill st = inl (evs, st') -> buffer st' = buffer st.
Proof.
  unfold refill. intros _.
  destruct (buffer_used st <? BUFFER_SIZE / 2); [| discriminate].
  destruct (source_read (fp st) (BUFFER_SIZE - buffer_used st)) as [[bs |] src].
  - destruct ((Z.of_nat (List.length bs) =? 0) && (buffer_used st =? 0)); [| discriminate].
    intros H. injection H as _ <-. reflexivity.
  - intros H. injection H as _ <-. reflexivity.
Qed.

Lemma wait_complete_break_bounded st len evs st' :
  buffer_used st <= BUFFER_SIZE -> wait_complete st len = inl (evs, st') ->
  buffer_used st' <= BUFFER_SIZE.
Proof.
  unfold wait_complete. intros Hcap.
  destruct (buffer_used st <? len); [| discriminate].
  destruct (source_read (fp st) (BUFFER_SIZE - buffer_used st)) as [[bs |] src] eqn:Hread.
  - apply source_read_length in Hread; [| lia].
    destruct (Z.of_nat (List.length bs) <=? 0).
    + intros H. injection H as _ <-. exact Hcap.
    + destruct (buffer_used (with_buffer st (buffer st ++ bs) src) <? len); [| discriminate].
      intros H. injection H as _ <-.
      unfold buffer_used, with_buffer in *; cbn [buffer]. rewrite length_app. lia.
  - intros H. injection H as _ <-. exact Hcap.
Qed.

Lemma iteration_bounded q sp st :
  buffer_used st <= BUFFER_SIZE ->
  match replay_iteration q sp st with
  | Continue _ st' => buffer_used st' <= BUFFER_SIZE
  | Break _ st' => buffer_used st' <= BUFFER_SIZE
  end.
Proof.
  intros Hcap. unfold replay_iteration.
  destruct (refill st) as [[evs0 st0] | st1] eqn:Hr.
  - apply refill_break_bounded in Hr; [| assumption].
    unfold buffer_used in *. rewrite Hr. assumption.
  - pose proof (refill_bounded _ _ Hcap Hr) as Hcap1.
    destruct (buffer_used st1 <? 1); [assumption |].
    destruct (get_message_length (byte_at (buffer st1) 0) =? 0).
    + unfold buffer_used, with_buffer in *; cbn [buffer]. rewrite length_skipn. lia.
    + destruct (wait_complete st1 (get_message_length (byte_at (buffer st1) 0)))
        as [[evs0 st0] | st2] eqn:Hw.
      * eapply wait_complete_break_bounded; eassumption.
      * pose proof (wait_complete_bounded _ _ _ Hcap1 Hw) as Hcap2.
        unfold buffer_used in *; cbn [buffer]. rewrite length_skipn. lia.
Qed.

Theorem replay_buffer_bounded q sp : forall fuel st evs final,
  buffer_used st <= BUFFER_SIZE ->
  replay_loop q sp fuel st = Some (evs, final) ->
  buffer_used final <= BUFFER_SIZE
  /\ match replay_iteration q sp st with
     | Continue _ st' => buffer_used st' <= BUFFER_SIZE
     | Break _ st' => buffer_used st' <= BUFFER_SIZE
     end.
Proof.
  induction fuel as [| fuel IH]; intros st evs final Hcap; cbn [replay_loop]; [discriminate |].
  pose proof (iteration_bounded q sp st Hcap) as Hit.
  destruct (replay_iteration q sp st) as [evs1 st1 | evs1 st1].
  - destruct (replay_loop q sp fuel st1) as [[evs2 final2] |] eqn:Hrun; [| discriminate].
    intros H. injection H as _ <-.
    split; [| assumption]. eapply IH; eassumption.
  - intros H. injection H as _ <-. auto.
Qed.

Lemma replay_buffer_bounded_witness :
  exists evs final,
    replay_loop exact_quot 1 (S (pending (initial_state (file_source corrupt_feed))))
      (initial_state (file_source corrupt_feed)) = Some (evs, final)
    /\ buffer_used final <= BUFFER_SIZE.
Proof.
  assert (H1 : buffer_used (initial_state (file_source corrupt_feed)) <= BUFFER_SIZE)
    by (vm_compute; intros H; discriminate H).
  assert (H2 : replay_loop exact_quot 1
                 (S (pending (initial_state (file_source corrupt_feed))))
                 (initial_state (file_source corrupt_feed))
               = Some ([StderrUnknownType xff; Broadcast system_event_start;
                        StderrUnknownType x00; StderrUnknownType x7f;
                        Nsleep 50000000; Broadcast add_order_aapl],
                       {| buffer := firstn 5 system_event_start; fp := [];
                          prev_timestamp := 34200050000000; messages_sent := 2;
                          total_bytes := 48 |}))
    by (vm_compute; reflexivity).
  eexists. eexists. split; [exact H2 |].
  exact (proj1 (replay_buffer_bounded _ _ _ _ _ _ H1 H2)).
Defined.

(** The two counters: a pass that emits a record adds one to the message
    count and the record's length to the byte count; no other pass touches
    them. *)
Lemma refill_counters st st1 :
  refill st = inr st1 ->
  messages_sent st1 = messages_sent st /\ total_bytes st1 = total_bytes st.
Proof.
  intros Hr. apply refill_inr in Hr.
  destruct Hr as [[-> _] | (bs & src & _ & -> & _)]; auto.
Qed.

Lemma wait_complete_counters st len st2 :
  wait_complete st len = inr st2 ->
  messages_sent st2 = messages_sent st /\ total_bytes st2 = total_bytes st.
Proof.
  intros Hw. apply wait_complete_inr in Hw.
  destruct Hw as [[-> _] | (bs & src & _ & -> & _)]; auto.
Qed.

Lemma refill_break_counters st evs st' :
  refill st = inl (evs, st') ->
  messages_sent st' = messages_sent st /\ total_bytes st' = total_bytes st.
Proof.
  unfold refill.
  destruct (buffer_used st <? BUFFER_SIZE / 2); [| discriminate].
  destruct (source_read (fp st) (BUFFER_SIZE - buffer_used st)) as [[bs |] src].
  - destruct ((Z.of_nat (List.length bs) =? 0) && (buffer_used st =? 0)); [| discriminate].
    intros H. injection H as _ <-. auto.
  - intros H. injection H as _ <-. auto.
Qed.

Lemma wait_complete_break_counters st len evs st' :
  wait_complete st len = inl (evs, st') ->
  messages_sent st' = messages_sent st /\ total_bytes st' = total_bytes st.
Proof.
  unfold wait_complete.
  destruct (buffer_used st <? len); [| discriminate].
  destruct (source_read (fp st) (BUFFER_SIZE - buffer_used st)) as [[bs |] src].
  - destruct (Z.of_nat (List.length bs) <=? 0).
    + intros H. injection H as _ <-. auto.
    + destruct (buffer_used (with_buffer st (buffer st ++ bs) src) <? len); [| discriminate].
      intros H. injection H as _ <-. auto.
  - intros H. injection H as _ <-. auto.
Qed.

Lemma payload_bytes_app a b : payload_bytes (a ++ b) = payload_bytes a + payload_bytes b.
Proof. unfold payload_bytes. rewrite concat_app, length_app. lia. Qed.

Lemma iteration_counters q sp st :
  match replay_iteration q sp st with
  | Continue evs st' | Break evs st' =>
      messages_sent st' = (if (List.length (framed evs) =? 0)%nat then messages_sent st
                           else to_u64 (messages_sent st + 1))
      /\ total_bytes st' = (if (List.length (framed evs) =? 0)%nat then total_bytes st
                            else to_u64 (total_bytes st + payload_bytes (framed evs)))
      /\ (List.length (framed evs) <= 1)%nat
  end.
Proof.
  unfold replay_iteration.
  destruct (refill st) as [[evs0 st0] | st1] eqn:Hr.
  - destruct (refill_break_counters _ _ _ Hr) as [-> ->].
    apply refill_inl in Hr. destruct Hr as [-> | ->]; cbn; auto.
  - destruct (refill_counters _ _ Hr) as [Hm1 Ht1].
    destruct (buffer_used st1 <? 1) eqn:H1; [cbn; auto |].
    destruct (get_message_length (byte_at (buffer st1) 0) =? 0) eqn:Hz; [cbn; auto |].
    destruct (wait_complete st1 (get_message_length (byte_at (buffer st1) 0)))
      as [[evs0 st0] | st2] eqn:Hw.
    + destruct (wait_complete_break_counters _ _ _ _ Hw) as [-> ->].
      apply wait_complete_inl in Hw. destruct Hw as [-> | ->]; cbn; auto.
    + destruct (wait_complete_counters _ _ _ Hw) as [Hm2 Ht2].
      apply wait_complete_pending in Hw. destruct Hw as [_ Hlen].
      pose proof (message_length_range (byte_at (buffer st1) 0)) as Hrange.
      rewrite !framed_app, framed_sleep_events. cbn [framed app].
      replace (framed (if to_u64 (messages_sent st2 + 1) mod 100000 =? 0 then _ else []))
        with (@nil (list byte))
        by (destruct (to_u64 (messages_sent st2 + 1) mod 100000 =? 0); reflexivity).
      cbn [List.length Nat.eqb messages_sent total_bytes].
      unfold payload_bytes. cbn [List.concat]. rewrite app_nil_r, length_firstn.
      unfold buffer_used in Hlen.
      rewrite Hm2, Ht2, Hm1, Ht1.
      replace (Z.of_nat (Nat.min (Z.to_nat (get_message_length (byte_at (buffer st1) 0)))
                                 (List.length (buffer st2))))
        with (get_message_length (byte_at (buffer st1) 0)) by lia.
      auto.
Qed.

Lemma replay_loop_counters q sp : forall fuel st evs final,
  replay_loop q sp fuel st = Some (evs, final) ->
  to_u64 (messages_sent final) = to_u64 (messages_sent st + Z.of_nat (List.length (framed evs)))
  /\ to_u64 (total_bytes final) = to_u64 (total_bytes st + payload_bytes (framed evs)).
Proof.
  induction fuel as [| fuel IH]; intros st evs final; cbn [replay_loop]; [discriminate |].
  pose proof (iteration_counters q sp st) as Hit.
  destruct (replay_iteration q sp st) as [evs1 st1 | evs1 st1].
  - destruct (replay_loop q sp fuel st1) as [[evs2 final2] |] eqn:Hrun; [| discriminate].
    intros H. injection H as <- <-.
    destruct (IH _ _ _ Hrun) as [Hm Ht]. destruct Hit as (Hm1 & Ht1 & Hone).
    rewrite framed_app, length_app, payload_bytes_app, Hm, Ht, Hm1, Ht1.
    unfold to_u64.
    destruct (List.length (framed evs1) =? 0)%nat eqn:E.
    + apply Nat.eqb_eq in E.
      assert (framed evs1 = []) as -> by (destruct (framed evs1); [reflexivity | discriminate]).
      cbn [List.length]. unfold payload_bytes at 2. cbn [List.concat List.length].
      split; f_equal; lia.
    + apply Nat.eqb_neq in E.
      assert (List.length (framed evs1) = 1%nat) as E1 by lia.
      rewrite E1.
      rewrite (Z.add_mod (_ mod _)), Z.mod_mod by lia.
      rewrite (Z.add_mod ((total_bytes st + _) mod _)), Z.mod_mod by lia.
      rewrite <- !Z.add_mod by lia.
      split; f_equal; lia.
  - intros H. injection H as <- <-. destruct Hit as (Hm1 & Ht1 & Hone).
    rewrite Hm1, Ht1. unfold to_u64.
    destruct (List.length (framed evs1) =? 0)%nat eqn:E.
    + apply Nat.eqb_eq in E. rewrite E.
      assert (framed evs1 = []) as -> by (destruct (framed evs1); [reflexivity | discriminate]).
      unfold payload_bytes. cbn [List.concat List.length].
      split; f_equal; lia.
    + apply Nat.eqb_neq in E.
      assert (List.length (framed evs1) = 1%nat) as E1 by lia.
      rewrite E1, !Z.mod_mod by lia. split; reflexivity.
Qed.

Lemma to_u64_range z : 0 <= to_u64 z < 2 ^ 64.
Proof. unfold to_u64. apply Z.mod_pos_bound. lia. Qed.

Lemma replay_loop_counters_range q sp : forall fuel st evs final,
  0 <= messages_sent st < 2 ^ 64 -> 0 <= total_bytes st < 2 ^ 64 ->
  replay_loop q sp fuel st = Some (evs, final) ->
  0 <= messages_sent final < 2 ^ 64 /\ 0 <= total_bytes final < 2 ^ 64.
Proof.
  induction fuel as [| fuel IH]; intros st evs final Hm Ht; cbn [replay_loop]; [discriminate |].
  pose proof (iteration_counters q sp st) as Hit.
  assert (Hstep : forall evs1 st1,
             messages_sent st1 = (if (List.length (framed evs1) =? 0)%nat then messages_sent st
                                  else to_u64 (messages_sent st + 1))
             /\ total_bytes st1 = (if (List.length (framed evs1) =? 0)%nat then total_bytes st
                                   else to_u64 (total_bytes st + payload_bytes (framed evs1)))
             /\ (List.length (framed evs1) <= 1)%nat ->
             0 <= messages_sent st1 < 2 ^ 64 /\ 0 <= total_bytes st1 < 2 ^ 64).
  { intros evs1 st1 (-> & -> & _).
    destruct (List.length (framed evs1) =? 0)%nat; [auto |].
    split; apply to_u64_range. }
  destruct (replay_iteration q sp st) as [evs1 st1 | evs1 st1].
  - destruct (replay_loop q sp fuel st1) as [[evs2 final2] |] eqn:Hrun; [| discriminate].
    intros H. injection H as _ <-.
    destruct (Hstep _ _ Hit) as [Hm1 Ht1]. eapply IH; eassumption.
  - intros H. injection H as _ <-. apply (Hstep _ _ Hit).
Qed.

(** When the replay of any input ends, [messages_sent] is the number of
    records handed to the broadcaster and [total_bytes] the number of their
    bytes (both modulo 2^64): the figures of the completion line. *)
Theorem replay_counters q sp (src : source) evs final :
  run_loop q sp (initial_state src) = Some (evs, final) ->
  messages_sent final = to_u64 (Z.of_nat (List.length (framed evs)))
  /\ total_bytes final = to_u64 (payload_bytes (framed evs)).
Proof.
  unfold run_loop. intros Hrun.
  destruct (replay_loop_counters _ _ _ _ _ _ Hrun) as [Hm Ht].
  assert (H0 : 0 <= 0 < 2 ^ 64) by lia.
  destruct (replay_loop_counters_range q sp _ (initial_state src) evs final H0 H0 Hrun)
    as [Hmr Htr].
  cbn [initial_state messages_sent total_bytes] in Hm, Ht.
  rewrite Z.add_0_l in Hm, Ht.
  rewrite <- Hm, <- Ht. unfold to_u64. rewrite !Z.mod_small by lia. auto.
Qed.

Lemma replay_counters_witness :
  exists evs final,
    run_loop exact_quot 1 (initial_state (file_source corrupt_feed)) = Some (evs, final)
    /\ messages_sent final = to_u64 (Z.of_nat (List.length (framed evs)))
    /\ total_bytes final = to_u64 (payload_bytes (framed evs))
    /\ messages_sent final = 2 /\ total_bytes final = 48.
Proof.
  assert (H : run_loop exact_quot 1 (initial_state (file_source corrupt_feed))
              = Some ([StderrUnknownType xff; Broadcast system_event_start;
                       StderrUnknownType x00; StderrUnknownType x7f;
                       Nsleep 50000000; Broadcast add_order_aapl],
                      {| buffer := firstn 5 system_event_start; fp := [];
                         prev_timestamp := 34200050000000; messages_sent := 2;
                         total_bytes := 48 |}))
    by (vm_compute; reflexivity).
  eexists. eexists. split; [exact H |].
  destruct (replay_counters _ _ _ _ _ H) as [H1 H2].
  split; [exact H1 |]. split; [exact H2 |]. split; reflexivity.
Defined.

(** Every [nsleep] of a replay, on any input and at any speed, is for more
    than 1000 ns and at most one second, its [timespec] is one [nanosleep]
    accepts, and there is at most one sleep per emitted record. *)
Lemma sleep_timespec ns :
  1000 < ns <= 1000000000 ->
  Timer.valid_timespec (Timer.nsleep ns) = true
  /\ Timer.nsleep ns = (if ns =? 1000000000 then (1, 0) else (0, ns)).
Proof.
  intros Hr. unfold Timer.valid_timespec, Timer.nsleep. cbn [fst snd].
  destruct (ns =? 1000000000) eqn:E.
  - assert (ns = 1000000000) as -> by lia. split; reflexivity.
  - rewrite Z.div_small, Z.mod_small by lia. split; [lia | reflexivity].
Qed.

Lemma iteration_sleeps_framed q sp st evs st' :
  replay_iteration q sp st = Continue evs st' ->
  (List.length (sleeps evs) <= List.length (framed evs))%nat.
Proof.
  intros Hit. apply iteration_continue_shape in Hit.
  destruct Hit as [[b ->] | (prev & cur & msg & progress & -> & Hp)].
  - cbn. lia.
  - rewrite !sleeps_app, !framed_app, Hp, sleeps_sleep_events, framed_sleep_events.
    cbn [sleeps framed app List.length]. rewrite !length_app. cbn [List.length].
    destruct (pacer_sleep q prev cur sp); cbn [List.length]; lia.
Qed.

Theorem replay_sleeps_bounded q sp : forall fuel st evs final,
  replay_loop q sp fuel st = Some (evs, final) ->
  Forall (fun ns => 1000 < ns <= 1000000000
                    /\ Timer.valid_timespec (Timer.nsleep ns) = true) (sleeps evs)
  /\ (List.length (sleeps evs) <= List.length (framed evs))%nat.
Proof.
  induction fuel as [| fuel IH]; intros st evs final; cbn [replay_loop]; [discriminate |].
  destruct (replay_iteration q sp st) as [evs1 st1 | evs1 st1] eqn:Hit.
  - destruct (replay_loop q sp fuel st1) as [[evs2 final2] |] eqn:Hrun; [| discriminate].
    intros H. injection H as <- _.
    destruct (IH _ _ _ Hrun) as [Hall Hcount].
    destruct (iteration_sleeps _ _ _ _ _ Hit) as (_ & Hrange & _).
    pose proof (iteration_sleeps_framed _ _ _ _ _ Hit) as Hone.
    rewrite sleeps_app, framed_app, !length_app. split; [| lia].
    apply Forall_app. split; [| assumption].
    eapply Forall_impl; [| exact Hrange].
    intros ns Hns. split; [assumption |]. apply sleep_timespec. assumption.
  - intros H. injection H as <- _.
    apply iteration_break_events in Hit.
    destruct Hit as [-> | [-> | [-> | ->]]]; cbn; split; auto.
Qed.

Lemma replay_sleeps_bounded_witness :
  Forall (fun ns => 1000 < ns <= 1000000000
                    /\ Timer.valid_timespec (Timer.nsleep ns) = true)
         (sleeps [Broadcast system_event_start; Nsleep 1000000000;
                  Broadcast add_order_aapl; StdoutEndOfFile])
  /\ (List.length (sleeps [Broadcast system_event_start; Nsleep 1000000000;
                           Broadcast add_order_aapl; StdoutEndOfFile])
      <= List.length (framed [Broadcast system_event_start; Nsleep 1000000000;
                              Broadcast add_order_aapl; StdoutEndOfFile]))%nat.
Proof.
  apply (replay_sleeps_bounded Binary64.quot_u64_x86 (1 # 100)
           (S (pending (initial_state (file_source (system_event_start ++ add_order_aapl)))))
           (initial_state (file_source (system_event_start ++ add_order_aapl)))
           [Broadcast system_event_start; Nsleep 1000000000;
            Broadcast add_order_aapl; StdoutEndOfFile]
           {| buffer := []; fp := []; prev_timestamp := 34200050000000;
              messages_sent := 2; total_bytes := 48 |}).
  vm_compute. reflexivity.
Defined.


End ReplayFacts.

(* ================================================================== *)
(** * The client on arbitrary input; its statistics                  *)
(* ================================================================== *)

Module ClientRunFacts.
Import Codec Stream Client Feed CodecFacts StreamFacts ServerFacts ClientFacts.

Lemma nearly_full_warnings_app a b :
  nearly_full_warnings (a ++ b) = (nearly_full_warnings a + nearly_full_warnings b)%nat.
Proof.
  induction a as [| e a IH]; [reflexivity |].
  destruct e; cbn [app nearly_full_warnings]; rewrite ?IH; reflexivity.
Qed.

(** What the framing loop leaves in the buffer, on any input: nothing, or
    the proper beginning of a message of a table type. *)
Lemma parse_buffer_remaining : forall fuel buf stats evs rest stats',
  parse_buffer fuel buf stats = Some (evs, rest, stats') ->
  partial_message rest /\ nearly_full_warnings evs = 0%nat.
Proof.
  induction fuel as [| fuel IH]; intros buf stats evs rest stats'; cbn [parse_buffer];
    [discriminate |].
  destruct (0 <? Z.of_nat (List.length buf)) eqn:Hpos.
  2:{ intros H. injection H as <- <- _. split; [left | reflexivity].
      destruct buf; [reflexivity | cbn [List.length] in Hpos; lia]. }
  destruct (Z.of_nat (List.length buf) <? 1) eqn:H1; [lia |].
  destruct (get_itch_message_length (byte_at buf 0) =? 0) eqn:Hz.
  - destruct (parse_buffer fuel (skipn 1 buf) stats) as [[[evs1 rest1] stats1] |] eqn:Hrun;
      [| discriminate].
    intros H. injection H as <- <- _.
    destruct (IH _ _ _ _ _ Hrun) as [Hp Hw]. split; [assumption |]. exact Hw.
  - destruct (Z.of_nat (List.length buf) <? get_itch_message_length (byte_at buf 0)) eqn:Hshort.
    + intros H. injection H as <- <- _. split; [| reflexivity].
      right. rewrite <- lengths_agree. repeat split; try lia.
      intros E. rewrite E in Hpos. cbn in Hpos. lia.
    + destruct (parse_buffer fuel _ _) as [[[evs1 rest1] stats1] |] eqn:Hrun; [| discriminate].
      intros H. injection H as <- <- _.
      destruct (IH _ _ _ _ _ Hrun) as [Hp Hw]. split; [assumption |].
      unfold verbose. cbn [app nearly_full_warnings].
      rewrite nearly_full_warnings_app, Hw.
      destruct (to_u64 (total_messages stats + 1) mod 100000 =? 0); reflexivity.
Qed.

Lemma receive_loop_quiet : forall fuel st,
  partial_message (buffer st) ->
  (List.length (source_bytes (sock st)) < fuel)%nat ->
  exists evs final,
    receive_loop fuel st = Some (evs, final)
    /\ nearly_full_warnings evs = 0%nat
    /\ partial_message (buffer final).
Proof.
  induction fuel as [| fuel IH]; intros st Hpart Hfuel; [lia |].
  cbn [receive_loop].
  destruct (source_read (sock st) (BUFFER_SIZE - Z.of_nat (List.length (buffer st))))
    as [[bs |] sock'] eqn:Hread.
  2:{ eexists. eexists. split; [reflexivity |]. cbn [buffer]. auto. }
  destruct (Z.of_nat (List.length bs) =? 0) eqn:Hzero.
  { eexists. eexists. split; [reflexivity |]. cbn [buffer]. auto. }
  destruct (parse_messages_total (buffer st ++ bs) (stats st)) as [[[evs1 rest] stats'] Hrun].
  rewrite Hrun.
  destruct (parse_buffer_remaining _ _ _ _ _ _ Hrun) as [Hpart' Hquiet].
  pose proof (partial_message_short _ Hpart') as Hshort.
  apply source_read_bytes in Hread.
  destruct (IH {| buffer := rest; sock := sock'; stats := stats' |} Hpart')
    as (evs2 & final & Hrun2 & Hquiet2 & Hfinal).
  { cbn [Client.sock]. rewrite <- Hread, length_app in Hfuel. lia. }
  rewrite Hrun2. eexists. eexists. split; [reflexivity |].
  rewrite !nearly_full_warnings_app, Hquiet, Hquiet2.
  change BUFFER_SIZE with 65536.
  replace (9 * 65536 <? 10 * Z.of_nat (List.length rest)) with false by lia.
  auto.
Qed.

(** The client returns on every socket script, never prints the
    nearly-full warning, and ends with less than one message in its buffer:
    the framing loop always empties the buffer down to an incomplete
    message, so the test [buffer_used > BUFFER_SIZE * 0.9] cannot hold. *)
Theorem client_never_nearly_full (sock : source) :
  exists evs final,
    run_client sock = Some (evs, final)
    /\ nearly_full_warnings evs = 0%nat
    /\ Z.of_nat (List.length (buffer final)) < 50.
Proof.
  destruct (receive_loop_quiet (S (List.length (source_bytes sock)))
              {| buffer := []; sock := sock; stats := init_stats |})
    as (evs & final & Hrun & Hquiet & Hpart).
  - left. reflexivity.
  - cbn [Client.sock]. lia.
  - exists evs, final. split; [exact Hrun |]. split; [exact Hquiet |].
    apply partial_message_short. exact Hpart.
Qed.

(** ** The statistics *)

Lemma counted_app a b stats : counted (a ++ b) stats = counted b (counted a stats).
Proof. unfold counted. apply fold_left_app. Qed.

Lemma parse_buffer_counts : forall ms tail fuel stats,
  Forall well_formed ms ->
  partial_message tail ->
  (List.length (List.concat ms ++ tail) < fuel)%nat ->
  exists evs,
    parse_buffer fuel (List.concat ms ++ tail) stats = Some (evs, tail, counted ms stats).
Proof.
  induction ms as [| m ms IH]; intros tail fuel stats Hwf Hpart Hfuel.
  - destruct fuel as [| fuel]; [lia |].
    cbn [List.concat app]. rewrite parse_buffer_stops by assumption.
    eexists. reflexivity.
  - destruct fuel as [| fuel]; [lia |].
    inversion Hwf as [| ? ? Hm Hrest]; subst.
    destruct (well_formed_length m Hm) as (Hne & Hlen & Hrange).
    cbn [List.concat] in *. rewrite <- app_assoc in *.
    set (rest := List.concat ms ++ tail) in *.
    rewrite length_app in Hfuel.
    cbn [parse_buffer].
    assert (Hfront : byte_at (m ++ rest) 0 = byte_at m 0)
      by (destruct m; [congruence | reflexivity]).
    rewrite Hfront, lengths_agree, Hlen, length_app.
    replace (0 <? Z.of_nat (List.length m + List.length rest)) with true by lia.
    replace (Z.of_nat (List.length m + List.length rest) <? 1) with false by lia.
    replace (Z.of_nat (List.length m) =? 0) with false by lia.
    replace (Z.of_nat (List.length m + List.length rest) <? Z.of_nat (List.length m))
      with false by lia.
    rewrite Nat2Z.id, firstn_app, Nat.sub_diag, firstn_all, skipn_app, Nat.sub_diag, skipn_all.
    cbn [firstn skipn app]. rewrite app_nil_r.
    destruct (IH tail fuel (update_stats stats (byte_at m 0) (Z.of_nat (List.length m))) Hrest Hpart)
      as (evs & Hrun); [fold rest; lia |].
    fold rest in Hrun. rewrite Hrun.
    eexists. reflexivity.
Qed.

Lemma receive_counts : forall fuel msgs st,
  Forall well_formed msgs ->
  buffer st ++ source_bytes (sock st) = List.concat msgs ->
  live_socket (sock st) ->
  partial_message (buffer st) ->
  (List.length (source_bytes (sock st)) < fuel)%nat ->
  exists evs final,
    receive_loop fuel st = Some (evs, final)
    /\ stats final = counted msgs (stats st).
Proof.
  induction fuel as [| fuel IH]; intros msgs st Hwf Heq Hlive Hpart Hfuel; [lia |].
  pose proof (partial_message_short _ Hpart) as Hshort.
  cbn [receive_loop]. change BUFFER_SIZE with 65536.
  destruct (sock st) as [| c rest] eqn:Hsock.
  - cbn [source_read List.length Z.of_nat Z.eqb].
    cbn [source_bytes] in Heq. rewrite app_nil_r in Heq.
    assert (Hnil : msgs = []).
    { destruct msgs as [| m msgs]; [reflexivity |].
      inversion Hwf as [| ? ? Hm _]; subst.
      destruct (well_formed_length m Hm) as (Hne & Hlen & Hrange).
      cbn [List.concat] in Heq.
      destruct Hpart as [E | (Hne' & Hnz & Hlt)].
      - rewrite E in Heq. destruct m; [congruence | discriminate].
      - assert (byte_at (buffer st) 0 = byte_at m 0) as Hx.
        { rewrite Heq. destruct m; [congruence | reflexivity]. }
        rewrite Hx, Hlen, Heq, length_app in Hlt. lia. }
    subst msgs. eexists. eexists. split; reflexivity.
  - destruct (live_read (c :: rest) (65536 - Z.of_nat (List.length (buffer st))))
      as (bs & sock' & Hread & Hbs & Hlive' & Hbytes); [assumption | congruence | lia |].
    rewrite Hread.
    replace (Z.of_nat (List.length bs) =? 0) with false
      by (destruct bs; [congruence | cbn [List.length]; lia]).
    rewrite <- Hbytes, app_assoc in Heq.
    destruct (prefix_of_feed msgs _ _ Hwf Heq) as (ms1 & ms2 & tail & -> & Hp & Hpart' & Htail).
    apply Forall_app in Hwf. destruct Hwf as [Hwf1 Hwf2].
    unfold parse_messages. rewrite Hp.
    destruct (parse_buffer_counts ms1 tail (S (List.length (List.concat ms1 ++ tail))) (stats st)
                Hwf1 Hpart') as (evs1 & Hrun); [lia |].
    rewrite Hrun.
    destruct (IH ms2 {| buffer := tail; sock := sock'; stats := counted ms1 (stats st) |}
                Hwf2 Htail Hlive' Hpart')
      as (evs2 & final & Hrun2 & Hstats).
    { cbn [Client.sock]. rewrite <- Hbytes, length_app in Hfuel.
      destruct bs; [congruence | cbn [List.length] in Hfuel; lia]. }
    rewrite Hrun2.
    eexists. eexists. split; [reflexivity |].
    rewrite Hstats. cbn [stats]. symmetry. apply counted_app.
Qed.

Lemma update_stats_totals stats t len :
  total_messages (update_stats stats t len) = to_u64 (total_messages stats + 1)
  /\ total_bytes (update_stats stats t len) = to_u64 (total_bytes stats + len).
Proof. split; reflexivity. Qed.




(** The type breakdown of [print_stats] after a type-Y message.  The array
    [type_names] has 89 elements, its last index is that of ['X'].  Every
    table type but Y has an index inside it; Y, a type the framer counts, is
    index 89: once a type-Y message has been received, the row for it is
    printed from a read one element past the end of the array. *)
Theorem print_stats_reads_past_type_names :
  Stats.type_names_size = 89%nat
  /\ List.length Stats.type_names = 89%nat
  /\ (forall t, get_message_length t <> 0 ->
        (Stats.type_name (Stats.index_of t) = None <-> t = "Y"%byte))
  /\ (forall m sock,
        well_formed m -> byte_at m 0 = "Y"%byte ->
        live_socket sock -> source_bytes sock = m ->
        exists evs final,
          run_client sock = Some (evs, final)
          /\ In ("Y"%byte, None, 1) (Stats.breakdown (stats final))).
Proof.
  split; [reflexivity |]. split; [reflexivity |]. split.
  - intros t Ht. destruct t; try (exfalso; apply Ht; reflexivity);
      vm_compute; split; intros H; try reflexivity; discriminate H.
  - intros m sock Hwf Hy Hlive Hsrc.
    destruct (receive_counts (S (List.length (source_bytes sock))) [m]
                {| buffer := []; sock := sock; stats := init_stats |})
      as (evs & final & Hrun & Hstats); auto.
    + cbn [buffer Client.sock List.concat app]. rewrite app_nil_r. exact Hsrc.
    + left. reflexivity.
    + exists evs, final. split; [exact Hrun |].
      rewrite Hstats. cbn [stats counted fold_left]. rewrite Hy.
      unfold Stats.breakdown. apply in_flat_map. exists 89%nat. split.
      * apply in_seq. lia.
      * change (Byte.of_N (N.of_nat 89)) with (Some "Y"%byte).
        cbn [messages_by_type update_stats init_stats].
        change (Byte.eqb "Y" "Y") with true. cbv iota.
        change (to_u64 (0 + 1)) with 1. cbn [Z.ltb Z.compare].
        left. reflexivity.
Qed.

Lemma reg_sho_breakdown :
  well_formed reg_sho_aapl
  /\ option_map (fun r => Stats.breakdown (stats (snd r)))
       (run_client (file_source (system_event_start ++ reg_sho_aapl)))
     = Some [ ("S"%byte, Some "System Event"%string, 1); ("Y"%byte, None, 1) ].
Proof.
  split; [cbn; split; [discriminate | reflexivity] |].
  vm_compute. reflexivity.
Qed.

End ClientRunFacts.

(* ================================================================== *)
(** * The writers of the generator                                   *)
(* ================================================================== *)

Module WriterFacts.
Import Codec CodecFacts ReaderFacts Generator Feed.

Lemma u8_to_byte z : u8 (to_byte z) = z mod 256.
Proof.
  unfold to_byte, u8.
  assert (Hr : 0 <= z mod 256 < 256) by (apply Z.mod_pos_bound; lia).
  destruct (Byte.of_N (Z.to_N (z mod 256))) as [b |] eqn:E.
  - apply Byte.to_of_N in E. rewrite E. lia.
  - apply Byte.of_N_None_iff in E. lia.
Qed.

Lemma length_store p : forall i v, List.length (store p i v) = List.length p.
Proof.
  induction p as [| x tl IH]; intros i v; [reflexivity |].
  destruct i; cbn [store List.length]; [reflexivity |]. rewrite IH. reflexivity.
Qed.

Lemma byte_at_store p : forall i v j,
  (i < List.length p)%nat ->
  byte_at (store p i v) j = if Nat.eqb j i then v else byte_at p j.
Proof.
  unfold byte_at.
  induction p as [| x tl IH]; intros i v j Hi; [cbn in Hi; lia |].
  destruct i as [| i]; destruct j as [| j]; cbn [store nth Nat.eqb]; try reflexivity.
  apply IH. cbn [List.length] in Hi. lia.
Qed.

Lemma byte_at_skipn p k i : byte_at (skipn k p) i = byte_at p (k + i).
Proof. unfold byte_at. apply nth_skipn. Qed.

Lemma byte_at_firstn p n i : (i < n)%nat -> byte_at (firstn n p) i = byte_at p i.
Proof.
  unfold byte_at. revert n i. induction p as [| x tl IH]; intros n i Hi.
  - rewrite firstn_nil. reflexivity.
  - destruct n; [lia |]. destruct i; [reflexivity |]. cbn [firstn nth]. apply IH. lia.
Qed.

Lemma length_write_u64_from : forall steps msg off v i,
  List.length (write_u64_from msg off v i steps) = List.length msg.
Proof.
  induction steps as [| k IH]; intros; cbn [write_u64_from]; [reflexivity |].
  rewrite IH, length_store. reflexivity.
Qed.

Lemma byte_at_write_u64_from : forall steps msg off v i j,
  (off + i + steps <= List.length msg)%nat ->
  byte_at (write_u64_from msg off v i steps) j
  = if (off + i <=? j)%nat && (j <? off + i + steps)%nat
    then to_byte (Z.land (Z.shiftr v (56 - Z.of_nat (j - off) * 8)) 255)
    else byte_at msg j.
Proof.
  induction steps as [| k IH]; intros msg off v i j Hlen; cbn [write_u64_from].
  - replace ((off + i <=? j)%nat && (j <? off + i + 0)%nat) with false by lia. reflexivity.
  - rewrite IH by (rewrite length_store; lia).
    rewrite byte_at_store by lia.
    destruct (Nat.eqb j (off + i)) eqn:E.
    + apply Nat.eqb_eq in E. subst j.
      replace ((off + S i <=? off + i)%nat && (off + i <? off + S i + k)%nat) with false by lia.
      replace ((off + i <=? off + i)%nat && (off + i <? off + i + S k)%nat) with true by lia.
      replace (off + i - off)%nat with i by lia. reflexivity.
    + apply Nat.eqb_neq in E.
      replace ((off + S i <=? j)%nat && (j <? off + S i + k)%nat)
        with ((off + i <=? j)%nat && (j <? off + i + S k)%nat) by lia.
      reflexivity.
Qed.

Lemma length_memcpy_u64 : forall n msg off tmp i,
  List.length (memcpy_u64 msg off tmp i n) = List.length msg.
Proof.
  induction n as [| k IH]; intros; cbn [memcpy_u64]; [reflexivity |].
  rewrite IH, length_store. reflexivity.
Qed.

Lemma byte_at_memcpy_u64 : forall n msg off tmp i j,
  (off + i + n <= List.length msg)%nat ->
  byte_at (memcpy_u64 msg off tmp i n) j
  = if (off + i <=? j)%nat && (j <? off + i + n)%nat
    then to_byte (Z.land (Z.shiftr tmp (Z.of_nat (j - off) * 8)) 255)
    else byte_at msg j.
Proof.
  induction n as [| k IH]; intros msg off tmp i j Hlen; cbn [memcpy_u64].
  - replace ((off + i <=? j)%nat && (j <? off + i + 0)%nat) with false by lia. reflexivity.
  - rewrite IH by (rewrite length_store; lia).
    rewrite byte_at_store by lia.
    destruct (Nat.eqb j (off + i)) eqn:E.
    + apply Nat.eqb_eq in E. subst j.
      replace ((off + S i <=? off + i)%nat && (off + i <? off + S i + k)%nat) with false by lia.
      replace ((off + i <=? off + i)%nat && (off + i <? off + i + S k)%nat) with true by lia.
      replace (off + i - off)%nat with i by lia. reflexivity.
    + apply Nat.eqb_neq in E.
      replace ((off + S i <=? j)%nat && (j <? off + S i + k)%nat)
        with ((off + i <=? j)%nat && (j <? off + i + S k)%nat) by lia.
      reflexivity.
Qed.

Lemma length_memset : forall n msg off c, List.length (memset msg off c n) = List.length msg.
Proof.
  induction n as [| k IH]; intros; cbn [memset]; [reflexivity |].
  rewrite IH, length_store. reflexivity.
Qed.

Lemma byte_at_memset : forall n msg off c j,
  (off + n <= List.length msg)%nat ->
  byte_at (memset msg off c n) j
  = if (off <=? j)%nat && (j <? off + n)%nat then c else byte_at msg j.
Proof.
  induction n as [| k IH]; intros msg off c j Hlen; cbn [memset].
  - replace ((off <=? j)%nat && (j <? off + 0)%nat) with false by lia. reflexivity.
  - rewrite IH by (rewrite length_store; lia).
    rewrite byte_at_store by lia.
    destruct (Nat.eqb j off) eqn:E.
    + apply Nat.eqb_eq in E. subst j.
      replace ((S off <=? off)%nat && (off <? S off + k)%nat) with false by lia.
      replace ((off <=? off)%nat && (off <? off + S k)%nat) with true by lia. reflexivity.
    + apply Nat.eqb_neq in E.
      replace ((S off <=? j)%nat && (j <? S off + k)%nat)
        with ((off <=? j)%nat && (j <? off + S k)%nat) by lia.
      reflexivity.
Qed.

Lemma length_memcpy : forall n msg off src i,
  List.length (memcpy msg off src i n) = List.length msg.
Proof.
  induction n as [| k IH]; intros; cbn [memcpy]; [reflexivity |].
  rewrite IH, length_store. reflexivity.
Qed.

Lemma byte_at_memcpy : forall n msg off src i j,
  (off + i + n <= List.length msg)%nat ->
  byte_at (memcpy msg off src i n) j
  = if (off + i <=? j)%nat && (j <? off + i + n)%nat
    then byte_at src (j - off)
    else byte_at msg j.
Proof.
  induction n as [| k IH]; intros msg off src i j Hlen; cbn [memcpy].
  - replace ((off + i <=? j)%nat && (j <? off + i + 0)%nat) with false by lia. reflexivity.
  - rewrite IH by (rewrite length_store; lia).
    rewrite byte_at_store by lia.
    destruct (Nat.eqb j (off + i)) eqn:E.
    + apply Nat.eqb_eq in E. subst j.
      replace ((off + S i <=? off + i)%nat && (off + i <? off + S i + k)%nat) with false by lia.
      replace ((off + i <=? off + i)%nat && (off + i <? off + i + S k)%nat) with true by lia.
      replace (off + i - off)%nat with i by lia. reflexivity.
    + apply Nat.eqb_neq in E.
      replace ((off + S i <=? j)%nat && (j <? off + S i + k)%nat)
        with ((off + i <=? j)%nat && (j <? off + i + S k)%nat) by lia.
      reflexivity.
Qed.

(** Byte-level description of the four integer writers. *)
Lemma length_write_u16 msg off v : List.length (write_u16 msg off v) = List.length msg.
Proof. unfold write_u16. rewrite !length_store. reflexivity. Qed.

Lemma length_write_u32 msg off v : List.length (write_u32 msg off v) = List.length msg.
Proof. unfold write_u32. rewrite !length_store. reflexivity. Qed.

Lemma length_write_u64 msg off v : List.length (write_u64 msg off v) = List.length msg.
Proof. unfold write_u64. apply length_write_u64_from. Qed.

Lemma length_write_timestamp msg off t : List.length (write_timestamp msg off t) = List.length msg.
Proof. unfold write_timestamp. apply length_memcpy_u64. Qed.

Lemma length_write_stock msg off s : List.length (write_stock msg off s) = List.length msg.
Proof. unfold write_stock. rewrite length_memcpy, length_memset. reflexivity. Qed.

Lemma byte_at_write_u16 msg off v j :
  (off + 2 <= List.length msg)%nat ->
  byte_at (write_u16 msg off v) j
  = if Nat.eqb j off then to_byte (Z.land (Z.shiftr (to_u16 v) 8) 255)
    else if Nat.eqb j (off + 1) then to_byte (Z.land (to_u16 v) 255)
    else byte_at msg j.
Proof.
  intros Hlen. unfold write_u16.
  rewrite !byte_at_store by (rewrite ?length_store; lia).
  destruct (Nat.eqb j (off + 1)) eqn:E1; destruct (Nat.eqb j off) eqn:E0; try reflexivity.
  apply Nat.eqb_eq in E1. apply Nat.eqb_eq in E0. lia.
Qed.

Lemma byte_at_write_u32 msg off v j :
  (off + 4 <= List.length msg)%nat ->
  byte_at (write_u32 msg off v) j
  = if Nat.eqb j off then to_byte (Z.land (Z.shiftr (to_u32 v) 24) 255)
    else if Nat.eqb j (off + 1) then to_byte (Z.land (Z.shiftr (to_u32 v) 16) 255)
    else if Nat.eqb j (off + 2) then to_byte (Z.land (Z.shiftr (to_u32 v) 8) 255)
    else if Nat.eqb j (off + 3) then to_byte (Z.land (to_u32 v) 255)
    else byte_at msg j.
Proof.
  intros Hlen. unfold write_u32.
  rewrite !byte_at_store by (rewrite ?length_store; lia).
  destruct (Nat.eqb j (off + 3)) eqn:E3; destruct (Nat.eqb j (off + 2)) eqn:E2;
    destruct (Nat.eqb j (off + 1)) eqn:E1; destruct (Nat.eqb j off) eqn:E0;
    try reflexivity; lia.
Qed.


Lemma byte_at_write_u64 msg off v j :
  (off + 8 <= List.length msg)%nat ->
  byte_at (write_u64 msg off v) j
  = if (off <=? j)%nat && (j <? off + 8)%nat
    then to_byte (Z.land (Z.shiftr (to_u64 v) (56 - Z.of_nat (j - off) * 8)) 255)
    else byte_at msg j.
Proof.
  intros Hlen. unfold write_u64. rewrite byte_at_write_u64_from by lia.
  rewrite !Nat.add_0_r. reflexivity.
Qed.

Lemma byte_at_write_timestamp msg off t j :
  (off + 6 <= List.length msg)%nat ->
  byte_at (write_timestamp msg off t) j
  = if (off <=? j)%nat && (j <? off + 6)%nat
    then to_byte (Z.land (Z.shiftr (bswap64 (to_u64 (Z.shiftl (to_u64 t) 16)))
                                   (Z.of_nat (j - off) * 8)) 255)
    else byte_at msg j.
Proof.
  intros Hlen. unfold write_timestamp. rewrite byte_at_memcpy_u64 by lia.
  rewrite !Nat.add_0_r. reflexivity.
Qed.

Lemma byte_at_write_stock msg off stock j :
  (off + 8 <= List.length msg)%nat ->
  byte_at (write_stock msg off stock) j
  = if (off <=? j)%nat && (j <? off + Nat.min (strlen stock) 8)%nat
    then byte_at stock (j - off)
    else if (off <=? j)%nat && (j <? off + 8)%nat then " "%byte
    else byte_at msg j.
Proof.
  intros Hlen. unfold write_stock.
  assert (Hmin : (if (8 <? strlen stock)%nat then 8%nat else strlen stock)
                 = Nat.min (strlen stock) 8).
  { destruct (8 <? strlen stock)%nat eqn:E; lia. }
  rewrite Hmin.
  rewrite byte_at_memcpy by (rewrite length_memset; lia).
  rewrite byte_at_memset by lia.
  rewrite !Nat.add_0_r. reflexivity.
Qed.

Lemma bswap64_shifted_timestamp w :
  0 <= w < 2 ^ 48 ->
  bswap64 (w * 2 ^ 16)
  = le8 ((w / 2 ^ 40) mod 256) ((w / 2 ^ 32) mod 256) ((w / 2 ^ 24) mod 256)
        ((w / 2 ^ 16) mod 256) ((w / 2 ^ 8) mod 256) (w mod 256) 0 0.
Proof.
  intros Hw.
  assert (E : w * 2 ^ 16
              = le8 0 0 (w mod 256) ((w / 2 ^ 8) mod 256) ((w / 2 ^ 16) mod 256)
                    ((w / 2 ^ 24) mod 256) ((w / 2 ^ 32) mod 256) ((w / 2 ^ 40) mod 256)).
  { unfold le8. Z.div_mod_to_equations. lia. }
  rewrite E at 1. apply bswap64_le8; try lia; apply Z.mod_pos_bound; lia.
Qed.

Lemma shifted_timestamp t : to_u64 (Z.shiftl (to_u64 t) 16) = (t mod 2 ^ 48) * 2 ^ 16.
Proof.
  unfold to_u64. rewrite Z.shiftl_mul_pow2 by lia.
  Z.div_mod_to_equations. lia.
Qed.

(** ** Round trips through the readers *)

Lemma u8_to_byte_small z : 0 <= z < 256 -> u8 (to_byte z) = z.
Proof. intros Hz. rewrite u8_to_byte. apply Z.mod_small. exact Hz. Qed.

(** [write_u16] then [read_u16] at the same place gives back the value
    (as a [uint16_t]); the write touches two bytes only. *)
Theorem write_read_u16 msg off v :
  (off + 2 <= List.length msg)%nat ->
  read_u16 (skipn off (write_u16 msg off v)) = v mod 2 ^ 16
  /\ List.length (write_u16 msg off v) = List.length msg
  /\ (forall j, (j < off \/ off + 2 <= j)%nat ->
        byte_at (write_u16 msg off v) j = byte_at msg j).
Proof.
  intros Hlen. split; [| split; [apply length_write_u16 |]].
  - rewrite read_u16_value, !byte_at_skipn, !byte_at_write_u16 by assumption.
    rewrite Nat.add_0_r, Nat.eqb_refl.
    replace (Nat.eqb (off + 1) off) with false by (symmetry; apply Nat.eqb_neq; lia).
    rewrite Nat.eqb_refl.
    rewrite !u8_to_byte, !land_255, Z.shiftr_div_pow2 by lia.
    unfold to_u16. set (w := v mod 2 ^ 16).
    assert (Hw : 0 <= w < 2 ^ 16) by (apply Z.mod_pos_bound; lia).
    rewrite !Z.mod_mod by lia.
    rewrite (Z.mod_small (w / 2 ^ 8)) by (split; [apply Z.div_pos; lia | apply Z.div_lt_upper_bound; lia]).
    pose proof (Z.div_mod w 256) as Hd. change (2 ^ 8) with 256. lia.
  - intros j Hj. rewrite byte_at_write_u16 by assumption.
    replace (Nat.eqb j off) with false by (symmetry; apply Nat.eqb_neq; lia).
    replace (Nat.eqb j (off + 1)) with false by (symmetry; apply Nat.eqb_neq; lia).
    reflexivity.
Qed.

Lemma write_read_u16_witness :
  read_u16 (skipn 3 (write_u16 cleared 3 70000)) = 70000 mod 2 ^ 16
  /\ List.length (write_u16 cleared 3 70000) = List.length cleared
  /\ (forall j, (j < 3 \/ 3 + 2 <= j)%nat ->
        byte_at (write_u16 cleared 3 70000) j = byte_at cleared j).
Proof.
  apply (write_read_u16 cleared 3 70000). cbn. lia.
Defined.

(** Four base-256 digits of a 32-bit value. *)
Lemma digits32 w :
  0 <= w < 2 ^ 32 ->
  ((w / 2 ^ 24) mod 256) * 2 ^ 24 + ((w / 2 ^ 16) mod 256) * 2 ^ 16
  + ((w / 2 ^ 8) mod 256) * 2 ^ 8 + w mod 256 = w.
Proof.
  intros Hw.
  assert (E16 : w / 2 ^ 16 = w / 2 ^ 8 / 2 ^ 8) by (rewrite Z.div_div by lia; reflexivity).
  assert (E24 : w / 2 ^ 24 = w / 2 ^ 16 / 2 ^ 8) by (rewrite Z.div_div by lia; reflexivity).
  pose proof (Z.div_mod w 256 ltac:(lia)) as H0.
  pose proof (Z.div_mod (w / 2 ^ 8) 256 ltac:(lia)) as H1.
  pose proof (Z.div_mod (w / 2 ^ 16) 256 ltac:(lia)) as H2.
  assert (H3 : 0 <= w / 2 ^ 24 < 256)
    by (split; [apply Z.div_pos; lia | apply Z.div_lt_upper_bound; lia]).
  rewrite (Z.mod_small (w / 2 ^ 24)) by lia.
  change (2 ^ 8) with 256 in *.
  rewrite E24. rewrite E24 in H3. rewrite E16 in *.
  set (q1 := w / 256) in *. set (q2 := q1 / 256) in *. set (q3 := q2 / 256) in *.
  lia.
Qed.

Theorem write_read_u32 msg off v :
  (off + 4 <= List.length msg)%nat ->
  read_u32 (skipn off (write_u32 msg off v)) = v mod 2 ^ 32
  /\ List.length (write_u32 msg off v) = List.length msg
  /\ (forall j, (j < off \/ off + 4 <= j)%nat ->
        byte_at (write_u32 msg off v) j = byte_at msg j).
Proof.
  intros Hlen. split; [| split; [apply length_write_u32 |]].
  - rewrite read_u32_value, !byte_at_skipn, !byte_at_write_u32 by assumption.
    rewrite Nat.add_0_r, Nat.eqb_refl.
    replace (Nat.eqb (off + 1) off) with false by (symmetry; apply Nat.eqb_neq; lia).
    replace (Nat.eqb (off + 2) off) with false by (symmetry; apply Nat.eqb_neq; lia).
    replace (Nat.eqb (off + 3) off) with false by (symmetry; apply Nat.eqb_neq; lia).
    replace (Nat.eqb (off + 2) (off + 1)) with false by (symmetry; apply Nat.eqb_neq; lia).
    replace (Nat.eqb (off + 3) (off + 1)) with false by (symmetry; apply Nat.eqb_neq; lia).
    replace (Nat.eqb (off + 3) (off + 2)) with false by (symmetry; apply Nat.eqb_neq; lia).
    rewrite !Nat.eqb_refl.
    cbn [be_value List.length].
    rewrite !u8_to_byte, !land_255, !Z.shiftr_div_pow2 by lia.
    rewrite !Z.mod_mod by lia.
    unfold to_u32. set (w := v mod 2 ^ 32).
    assert (Hw : 0 <= w < 2 ^ 32) by (apply Z.mod_pos_bound; lia).
    pose proof (digits32 w Hw) as Hd.
    change (8 * Z.of_nat 3) with 24. change (8 * Z.of_nat 2) with 16.
    change (8 * Z.of_nat 1) with 8. change (8 * Z.of_nat 0) with 0.
    rewrite Z.pow_0_r. lia.
  - intros j Hj. rewrite byte_at_write_u32 by assumption.
    replace (Nat.eqb j off) with false by (symmetry; apply Nat.eqb_neq; lia).
    replace (Nat.eqb j (off + 1)) with false by (symmetry; apply Nat.eqb_neq; lia).
    replace (Nat.eqb j (off + 2)) with false by (symmetry; apply Nat.eqb_neq; lia).
    replace (Nat.eqb j (off + 3)) with false by (symmetry; apply Nat.eqb_neq; lia).
    reflexivity.
Qed.

Lemma write_read_u32_witness :
  read_u32 (skipn 20 (write_u32 cleared 20 1500100)) = 1500100 mod 2 ^ 32
  /\ List.length (write_u32 cleared 20 1500100) = List.length cleared
  /\ (forall j, (j < 20 \/ 20 + 4 <= j)%nat ->
        byte_at (write_u32 cleared 20 1500100) j = byte_at cleared j).
Proof.
  apply (write_read_u32 cleared 20 1500100). cbn. lia.
Defined.

(** ** Timestamps and 64-bit values *)

Lemma le8_low z0 z1 z2 z3 z4 z5 z6 z7 :
  0 <= z0 < 256 -> le8 z0 z1 z2 z3 z4 z5 z6 z7 mod 256 = z0.
Proof.
  intros H0. unfold le8.
  replace (z0 + z1 * 2 ^ 8 + z2 * 2 ^ 16 + z3 * 2 ^ 24 + z4 * 2 ^ 32 + z5 * 2 ^ 40
           + z6 * 2 ^ 48 + z7 * 2 ^ 56)
    with (z0 + (z1 + z2 * 2 ^ 8 + z3 * 2 ^ 16 + z4 * 2 ^ 24 + z5 * 2 ^ 32 + z6 * 2 ^ 40
                + z7 * 2 ^ 48) * 256) by ring.
  rewrite Z_mod_plus_full. apply Z.mod_small. exact H0.
Qed.

Lemma le8_shift z0 z1 z2 z3 z4 z5 z6 z7 :
  0 <= z0 < 256 -> le8 z0 z1 z2 z3 z4 z5 z6 z7 / 256 = le8 z1 z2 z3 z4 z5 z6 z7 0.
Proof.
  intros H0. unfold le8.
  replace (z0 + z1 * 2 ^ 8 + z2 * 2 ^ 16 + z3 * 2 ^ 24 + z4 * 2 ^ 32 + z5 * 2 ^ 40
           + z6 * 2 ^ 48 + z7 * 2 ^ 56)
    with (z0 + (z1 + z2 * 2 ^ 8 + z3 * 2 ^ 16 + z4 * 2 ^ 24 + z5 * 2 ^ 32 + z6 * 2 ^ 40
                + z7 * 2 ^ 48 + 0 * 2 ^ 56) * 256) by ring.
  rewrite Z.div_add by lia. rewrite Z.div_small by exact H0. ring.
Qed.

(** Six base-256 digits of a 48-bit value. *)
Lemma digits48 w :
  0 <= w < 2 ^ 48 ->
  ((w / 2 ^ 40) mod 256) * 2 ^ 40 + ((w / 2 ^ 32) mod 256) * 2 ^ 32
  + ((w / 2 ^ 24) mod 256) * 2 ^ 24 + ((w / 2 ^ 16) mod 256) * 2 ^ 16
  + ((w / 2 ^ 8) mod 256) * 2 ^ 8 + w mod 256 = w.
Proof.
  intros Hw.
  assert (E16 : w / 2 ^ 16 = w / 2 ^ 8 / 2 ^ 8) by (rewrite Z.div_div by lia; reflexivity).
  assert (E24 : w / 2 ^ 24 = w / 2 ^ 16 / 2 ^ 8) by (rewrite Z.div_div by lia; reflexivity).
  assert (E32 : w / 2 ^ 32 = w / 2 ^ 24 / 2 ^ 8) by (rewrite Z.div_div by lia; reflexivity).
  assert (E40 : w / 2 ^ 40 = w / 2 ^ 32 / 2 ^ 8) by (rewrite Z.div_div by lia; reflexivity).
  assert (H5 : 0 <= w / 2 ^ 40 < 256)
    by (split; [apply Z.div_pos; lia | apply Z.div_lt_upper_bound; lia]).
  rewrite (Z.mod_small (w / 2 ^ 40)) by lia.
  pose proof (Z.div_mod w 256 ltac:(lia)) as H0.
  pose proof (Z.div_mod (w / 2 ^ 8) 256 ltac:(lia)) as H1.
  pose proof (Z.div_mod (w / 2 ^ 16) 256 ltac:(lia)) as H2.
  pose proof (Z.div_mod (w / 2 ^ 24) 256 ltac:(lia)) as H3.
  pose proof (Z.div_mod (w / 2 ^ 32) 256 ltac:(lia)) as H4.
  change (2 ^ 8) with 256 in *.
  rewrite E40 in *. rewrite E32 in *. rewrite E24 in *. rewrite E16 in *.
  set (q1 := w / 256) in *. set (q2 := q1 / 256) in *. set (q3 := q2 / 256) in *.
  set (q4 := q3 / 256) in *. set (q5 := q4 / 256) in *.
  lia.
Qed.

Lemma digit_range w k : 0 <= (w / 2 ^ k) mod 256 < 256.
Proof. apply Z.mod_pos_bound. lia. Qed.

(** [write_timestamp] then [read_timestamp] at the same place gives back
    the low 48 bits of the value; the write touches six bytes only. *)
Theorem write_read_timestamp msg off t :
  (off + 8 <= List.length msg)%nat ->
  read_timestamp (skipn off (write_timestamp msg off t)) = t mod 2 ^ 48
  /\ List.length (write_timestamp msg off t) = List.length msg
  /\ (forall j, (j < off \/ off + 6 <= j)%nat ->
        byte_at (write_timestamp msg off t) j = byte_at msg j).
Proof.
  intros Hlen. split; [| split; [apply length_write_timestamp |]].
  - rewrite timestamp_first_six, !byte_at_skipn.
    rewrite !byte_at_write_timestamp by lia.
    replace ((off <=? off + 0)%nat && (off + 0 <? off + 6)%nat) with true by lia.
    replace ((off <=? off + 1)%nat && (off + 1 <? off + 6)%nat) with true by lia.
    replace ((off <=? off + 2)%nat && (off + 2 <? off + 6)%nat) with true by lia.
    replace ((off <=? off + 3)%nat && (off + 3 <? off + 6)%nat) with true by lia.
    replace ((off <=? off + 4)%nat && (off + 4 <? off + 6)%nat) with true by lia.
    replace ((off <=? off + 5)%nat && (off + 5 <? off + 6)%nat) with true by lia.
    replace (off + 0 - off)%nat with 0%nat by lia.
    replace (off + 1 - off)%nat with 1%nat by lia.
    replace (off + 2 - off)%nat with 2%nat by lia.
    replace (off + 3 - off)%nat with 3%nat by lia.
    replace (off + 4 - off)%nat with 4%nat by lia.
    replace (off + 5 - off)%nat with 5%nat by lia.
    rewrite shifted_timestamp.
    set (w := t mod 2 ^ 48).
    assert (Hw : 0 <= w < 2 ^ 48) by (apply Z.mod_pos_bound; lia).
    rewrite (bswap64_shifted_timestamp w Hw).
    pose proof (digit_range w 40) as D5. pose proof (digit_range w 32) as D4.
    pose proof (digit_range w 24) as D3. pose proof (digit_range w 16) as D2.
    pose proof (digit_range w 8) as D1.
    assert (D0 : 0 <= w mod 256 < 256) by (apply Z.mod_pos_bound; lia).
    set (d5 := (w / 2 ^ 40) mod 256) in *. set (d4 := (w / 2 ^ 32) mod 256) in *.
    set (d3 := (w / 2 ^ 24) mod 256) in *. set (d2 := (w / 2 ^ 16) mod 256) in *.
    set (d1 := (w / 2 ^ 8) mod 256) in *. set (d0 := w mod 256) in *.
    rewrite !land_255, !Z.shiftr_div_pow2 by lia.
    change (Z.of_nat 0 * 8) with 0. change (Z.of_nat 1 * 8) with 8.
    change (Z.of_nat 2 * 8) with 16. change (Z.of_nat 3 * 8) with 24.
    change (Z.of_nat 4 * 8) with 32. change (Z.of_nat 5 * 8) with 40.
    assert (B0 : le8 d5 d4 d3 d2 d1 d0 0 0 / 2 ^ 0 mod 256 = d5).
    { rewrite Z.pow_0_r, Z.div_1_r. apply le8_low. exact D5. }
    assert (S1 : le8 d5 d4 d3 d2 d1 d0 0 0 / 2 ^ 8 = le8 d4 d3 d2 d1 d0 0 0 0).
    { change (2 ^ 8) with 256. apply le8_shift. exact D5. }
    assert (S2 : le8 d5 d4 d3 d2 d1 d0 0 0 / 2 ^ 16 = le8 d3 d2 d1 d0 0 0 0 0).
    { change (2 ^ 16) with (2 ^ 8 * 256). rewrite <- Z.div_div by lia. rewrite S1.
      apply le8_shift. exact D4. }
    assert (S3 : le8 d5 d4 d3 d2 d1 d0 0 0 / 2 ^ 24 = le8 d2 d1 d0 0 0 0 0 0).
    { change (2 ^ 24) with (2 ^ 16 * 256). rewrite <- Z.div_div by lia. rewrite S2.
      apply le8_shift. exact D3. }
    assert (S4 : le8 d5 d4 d3 d2 d1 d0 0 0 / 2 ^ 32 = le8 d1 d0 0 0 0 0 0 0).
    { change (2 ^ 32) with (2 ^ 24 * 256). rewrite <- Z.div_div by lia. rewrite S3.
      apply le8_shift. exact D2. }
    assert (S5 : le8 d5 d4 d3 d2 d1 d0 0 0 / 2 ^ 40 = le8 d0 0 0 0 0 0 0 0).
    { change (2 ^ 40) with (2 ^ 32 * 256). rewrite <- Z.div_div by lia. rewrite S4.
      apply le8_shift. exact D1. }
    rewrite B0, S1, S2, S3, S4, S5.
    rewrite !le8_low by assumption.
    cbn [be_value List.length].
    rewrite !u8_to_byte_small by assumption.
    change (8 * Z.of_nat 5) with 40. change (8 * Z.of_nat 4) with 32.
    change (8 * Z.of_nat 3) with 24. change (8 * Z.of_nat 2) with 16.
    change (8 * Z.of_nat 1) with 8. change (8 * Z.of_nat 0) with 0.
    rewrite Z.pow_0_r.
    pose proof (digits48 w Hw) as Hd. fold d5 d4 d3 d2 d1 d0 in Hd. lia.
  - intros j Hj. rewrite byte_at_write_timestamp by lia.
    replace ((off <=? j)%nat && (j <? off + 6)%nat) with false by lia. reflexivity.
Qed.

Lemma write_read_timestamp_witness :
  read_timestamp (skipn 5 (write_timestamp cleared 5 34200050000000)) = 34200050000000 mod 2 ^ 48
  /\ List.length (write_timestamp cleared 5 34200050000000) = List.length cleared
  /\ (forall j, (j < 5 \/ 5 + 6 <= j)%nat ->
        byte_at (write_timestamp cleared 5 34200050000000) j = byte_at cleared j).
Proof.
  apply (write_read_timestamp cleared 5 34200050000000). cbn. lia.
Defined.

(** Eight base-256 digits of a 64-bit value. *)
Lemma digits64 w :
  0 <= w < 2 ^ 64 ->
  ((w / 2 ^ 56) mod 256) * 2 ^ 56 + ((w / 2 ^ 48) mod 256) * 2 ^ 48
  + ((w / 2 ^ 40) mod 256) * 2 ^ 40 + ((w / 2 ^ 32) mod 256) * 2 ^ 32
  + ((w / 2 ^ 24) mod 256) * 2 ^ 24 + ((w / 2 ^ 16) mod 256) * 2 ^ 16
  + ((w / 2 ^ 8) mod 256) * 2 ^ 8 + w mod 256 = w.
Proof.
  intros Hw.
  assert (E16 : w / 2 ^ 16 = w / 2 ^ 8 / 2 ^ 8) by (rewrite Z.div_div by lia; reflexivity).
  assert (E24 : w / 2 ^ 24 = w / 2 ^ 16 / 2 ^ 8) by (rewrite Z.div_div by lia; reflexivity).
  assert (E32 : w / 2 ^ 32 = w / 2 ^ 24 / 2 ^ 8) by (rewrite Z.div_div by lia; reflexivity).
  assert (E40 : w / 2 ^ 40 = w / 2 ^ 32 / 2 ^ 8) by (rewrite Z.div_div by lia; reflexivity).
  assert (E48 : w / 2 ^ 48 = w / 2 ^ 40 / 2 ^ 8) by (rewrite Z.div_div by lia; reflexivity).
  assert (E56 : w / 2 ^ 56 = w / 2 ^ 48 / 2 ^ 8) by (rewrite Z.div_div by lia; reflexivity).
  assert (H7 : 0 <= w / 2 ^ 56 < 256)
    by (split; [apply Z.div_pos; lia | apply Z.div_lt_upper_bound; lia]).
  rewrite (Z.mod_small (w / 2 ^ 56)) by lia.
  pose proof (Z.div_mod w 256 ltac:(lia)) as H0.
  pose proof (Z.div_mod (w / 2 ^ 8) 256 ltac:(lia)) as H1.
  pose proof (Z.div_mod (w / 2 ^ 16) 256 ltac:(lia)) as H2.
  pose proof (Z.div_mod (w / 2 ^ 24) 256 ltac:(lia)) as H3.
  pose proof (Z.div_mod (w / 2 ^ 32) 256 ltac:(lia)) as H4.
  pose proof (Z.div_mod (w / 2 ^ 40) 256 ltac:(lia)) as H5.
  pose proof (Z.div_mod (w / 2 ^ 48) 256 ltac:(lia)) as H6.
  change (2 ^ 8) with 256 in *.
  rewrite E56 in *. rewrite E48 in *. rewrite E40 in *. rewrite E32 in *.
  rewrite E24 in *. rewrite E16 in *.
  set (q1 := w / 256) in *. set (q2 := q1 / 256) in *. set (q3 := q2 / 256) in *.
  set (q4 := q3 / 256) in *. set (q5 := q4 / 256) in *. set (q6 := q5 / 256) in *.
  set (q7 := q6 / 256) in *.
  lia.
Qed.

(** [write_u64] then [read_u64] at the same place gives back the value
    (as a [uint64_t]); the write touches eight bytes only. *)
Theorem write_read_u64 msg off v :
  (off + 8 <= List.length msg)%nat ->
  read_u64 (skipn off (write_u64 msg off v)) = v mod 2 ^ 64
  /\ List.length (write_u64 msg off v) = List.length msg
  /\ (forall j, (j < off \/ off + 8 <= j)%nat ->
        byte_at (write_u64 msg off v) j = byte_at msg j).
Proof.
  intros Hlen. split; [| split; [apply length_write_u64 |]].
  - unfold read_u64.
    rewrite read_be_small by lia. cbn [seq map].
    rewrite !byte_at_skipn, !byte_at_write_u64 by assumption.
    replace ((off <=? off + 0)%nat && (off + 0 <? off + 8)%nat) with true by lia.
    replace ((off <=? off + 1)%nat && (off + 1 <? off + 8)%nat) with true by lia.
    replace ((off <=? off + 2)%nat && (off + 2 <? off + 8)%nat) with true by lia.
    replace ((off <=? off + 3)%nat && (off + 3 <? off + 8)%nat) with true by lia.
    replace ((off <=? off + 4)%nat && (off + 4 <? off + 8)%nat) with true by lia.
    replace ((off <=? off + 5)%nat && (off + 5 <? off + 8)%nat) with true by lia.
    replace ((off <=? off + 6)%nat && (off + 6 <? off + 8)%nat) with true by lia.
    replace ((off <=? off + 7)%nat && (off + 7 <? off + 8)%nat) with true by lia.
    replace (off + 0 - off)%nat with 0%nat by lia.
    replace (off + 1 - off)%nat with 1%nat by lia.
    replace (off + 2 - off)%nat with 2%nat by lia.
    replace (off + 3 - off)%nat with 3%nat by lia.
    replace (off + 4 - off)%nat with 4%nat by lia.
    replace (off + 5 - off)%nat with 5%nat by lia.
    replace (off + 6 - off)%nat with 6%nat by lia.
    replace (off + 7 - off)%nat with 7%nat by lia.
    change (56 - Z.of_nat 0 * 8) with 56. change (56 - Z.of_nat 1 * 8) with 48.
    change (56 - Z.of_nat 2 * 8) with 40. change (56 - Z.of_nat 3 * 8) with 32.
    change (56 - Z.of_nat 4 * 8) with 24. change (56 - Z.of_nat 5 * 8) with 16.
    change (56 - Z.of_nat 6 * 8) with 8. change (56 - Z.of_nat 7 * 8) with 0.
    unfold to_u64. set (w := v mod 2 ^ 64).
    assert (Hw : 0 <= w < 2 ^ 64) by (apply Z.mod_pos_bound; lia).
    rewrite !land_255, !Z.shiftr_div_pow2 by lia.
    rewrite Z.pow_0_r, Z.div_1_r.
    cbn [be_value List.length].
    rewrite !u8_to_byte, !Z.mod_mod by lia.
    change (8 * Z.of_nat 7) with 56. change (8 * Z.of_nat 6) with 48.
    change (8 * Z.of_nat 5) with 40. change (8 * Z.of_nat 4) with 32.
    change (8 * Z.of_nat 3) with 24. change (8 * Z.of_nat 2) with 16.
    change (8 * Z.of_nat 1) with 8. change (8 * Z.of_nat 0) with 0.
    rewrite Z.pow_0_r.
    pose proof (digits64 w Hw) as Hd. lia.
  - intros j Hj. rewrite byte_at_write_u64 by assumption.
    replace ((off <=? j)%nat && (j <? off + 8)%nat) with false by lia. reflexivity.
Qed.

Lemma write_read_u64_witness :
  read_u64 (skipn 11 (write_u64 cleared 11 2000099)) = 2000099 mod 2 ^ 64
  /\ List.length (write_u64 cleared 11 2000099) = List.length cleared
  /\ (forall j, (j < 11 \/ 11 + 8 <= j)%nat ->
        byte_at (write_u64 cleared 11 2000099) j = byte_at cleared j).
Proof.
  apply (write_read_u64 cleared 11 2000099). cbn. lia.
Defined.

End WriterFacts.

(* ================================================================== *)
(** * The generated sample file                                      *)
(* ================================================================== *)

Module GeneratorFacts.
Import Codec CodecFacts Stream Generator Feed ServerFacts WriterFacts.

Lemma well_formed_firstn (msg : list byte) (t : byte) (len : nat) :
  List.length msg = 50%nat -> byte_at msg 0 = t ->
  get_message_length t = Z.of_nat len -> (0 < len <= 50)%nat ->
  well_formed (firstn len msg).
Proof.
  intros Hlen Ht Hl Hr.
  destruct msg as [| x tl]; [discriminate |].
  destruct len as [| len]; [lia |].
  cbn [firstn well_formed]. unfold byte_at in Ht. cbn [nth] in Ht. subst x.
  split; [lia |].
  cbn [List.length]. rewrite length_firstn. cbn [List.length] in Hlen. lia.
Qed.

Lemma begin_message_shape t locate st :
  List.length (begin_message t locate st) = 50%nat
  /\ byte_at (begin_message t locate st) 0 = t.
Proof.
  unfold begin_message.
  assert (L0 : List.length (store cleared 0 t) = 50%nat) by (rewrite length_store; reflexivity).
  assert (L1 : List.length (write_u16 (store cleared 0 t) 1 locate) = 50%nat)
    by (rewrite length_write_u16; exact L0).
  assert (L2 : List.length (write_u16 (write_u16 (store cleared 0 t) 1 locate) 3 (tracking st))
               = 50%nat) by (rewrite length_write_u16; exact L1).
  split; [rewrite length_write_timestamp; exact L2 |].
  rewrite byte_at_write_timestamp by lia. cbn [Nat.leb andb].
  rewrite byte_at_write_u16 by lia. cbn [Nat.eqb Nat.add].
  rewrite byte_at_write_u16 by lia. cbn [Nat.eqb Nat.add].
  rewrite byte_at_store by (cbn; lia). reflexivity.
Qed.

Ltac keep_shape :=
  repeat first
    [ rewrite length_store
    | rewrite length_write_u16
    | rewrite length_write_u32
    | rewrite length_write_u64
    | rewrite length_write_stock
    | rewrite length_write_timestamp ].

Lemma store_front msg i v :
  (0 < i < List.length msg)%nat -> byte_at (store msg i v) 0 = byte_at msg 0.
Proof.
  intros Hi. rewrite byte_at_store by lia.
  destruct i; [lia | reflexivity].
Qed.

Lemma write_u16_front msg off v :
  (0 < off)%nat -> (off + 2 <= List.length msg)%nat ->
  byte_at (write_u16 msg off v) 0 = byte_at msg 0.
Proof.
  intros H0 Hl. rewrite byte_at_write_u16 by assumption.
  replace (Nat.eqb 0 off) with false by (symmetry; apply Nat.eqb_neq; lia).
  replace (Nat.eqb 0 (off + 1)) with false by (symmetry; apply Nat.eqb_neq; lia).
  reflexivity.
Qed.

Lemma write_u32_front msg off v :
  (0 < off)%nat -> (off + 4 <= List.length msg)%nat ->
  byte_at (write_u32 msg off v) 0 = byte_at msg 0.
Proof.
  intros H0 Hl. rewrite byte_at_write_u32 by assumption.
  replace (Nat.eqb 0 off) with false by (symmetry; apply Nat.eqb_neq; lia).
  replace (Nat.eqb 0 (off + 1)) with false by (symmetry; apply Nat.eqb_neq; lia).
  replace (Nat.eqb 0 (off + 2)) with false by (symmetry; apply Nat.eqb_neq; lia).
  replace (Nat.eqb 0 (off + 3)) with false by (symmetry; apply Nat.eqb_neq; lia).
  reflexivity.
Qed.

Lemma write_u64_front msg off v :
  (0 < off)%nat -> (off + 8 <= List.length msg)%nat ->
  byte_at (write_u64 msg off v) 0 = byte_at msg 0.
Proof.
  intros H0 Hl. rewrite byte_at_write_u64 by assumption.
  replace ((off <=? 0)%nat) with false by lia. reflexivity.
Qed.

Lemma write_stock_front msg off s :
  (0 < off)%nat -> (off + 8 <= List.length msg)%nat ->
  byte_at (write_stock msg off s) 0 = byte_at msg 0.
Proof.
  intros H0 Hl. rewrite byte_at_write_stock by assumption.
  replace ((off <=? 0)%nat) with false by lia. reflexivity.
Qed.

Ltac front_byte :=
  repeat first
    [ rewrite store_front by (keep_shape; lia)
    | rewrite write_u16_front by (keep_shape; lia)
    | rewrite write_u32_front by (keep_shape; lia)
    | rewrite write_u64_front by (keep_shape; lia)
    | rewrite write_stock_front by (keep_shape; lia) ].

Lemma system_event_well_formed code st : well_formed (system_event code st).
Proof.
  destruct (begin_message_shape "S"%byte stock_locate st) as [Hl Hf].
  unfold system_event.
  apply (well_formed_firstn _ "S"%byte 12); [| | reflexivity | lia].
  - keep_shape. exact Hl.
  - rewrite store_front by lia. exact Hf.
Qed.

Lemma stock_directory_well_formed locate name st :
  well_formed (stock_directory locate name st).
Proof.
  destruct (begin_message_shape "R"%byte locate st) as [Hl Hf].
  unfold stock_directory.
  apply (well_formed_firstn _ "R"%byte 39); [| | reflexivity | lia].
  - keep_shape. exact Hl.
  - front_byte. exact Hf.
Qed.

Lemma add_order_well_formed side order_ref shares price st :
  well_formed (add_order side order_ref shares price st).
Proof.
  destruct (begin_message_shape "A"%byte stock_locate st) as [Hl Hf].
  unfold add_order.
  apply (well_formed_firstn _ "A"%byte 36); [| | reflexivity | lia].
  - keep_shape. exact Hl.
  - front_byte. exact Hf.
Qed.

Lemma order_executed_well_formed order_ref match_number st :
  well_formed (order_executed order_ref match_number st).
Proof.
  destruct (begin_message_shape "E"%byte stock_locate st) as [Hl Hf].
  unfold order_executed.
  apply (well_formed_firstn _ "E"%byte 31); [| | reflexivity | lia].
  - keep_shape. exact Hl.
  - front_byte. exact Hf.
Qed.

Lemma trade_round_well_formed i st : Forall well_formed (fst (trade_round i st)).
Proof.
  unfold trade_round.
  destruct (i mod 5 =? 0); cbn [fst].
  - apply Forall_cons; [apply add_order_well_formed |].
    apply Forall_cons; [apply add_order_well_formed |].
    apply Forall_cons; [apply order_executed_well_formed | apply Forall_nil].
  - apply Forall_cons; [apply add_order_well_formed |].
    apply Forall_cons; [apply add_order_well_formed | apply Forall_nil].
Qed.

Lemma trade_rounds_well_formed : forall rounds i st,
  Forall well_formed (fst (trade_rounds rounds i st)).
Proof.
  induction rounds as [| k IH]; intros i st; cbn [trade_rounds]; [constructor |].
  pose proof (trade_round_well_formed i st) as H1.
  destruct (trade_round i st) as [first st1].
  specialize (IH (i + 1) st1).
  destruct (trade_rounds k (i + 1) st1) as [others st2].
  cbn [fst] in *. apply Forall_app. auto.
Qed.

Lemma records_well_formed rounds : Forall well_formed (records rounds).
Proof.
  unfold records. cbv zeta.
  match goal with
  | |- context [trade_rounds rounds 0 ?s] =>
      pose proof (trade_rounds_well_formed rounds 0 s) as Ht;
      destruct (trade_rounds rounds 0 s) as [trades st']
  end.
  cbn [fst] in Ht. cbn [app].
  apply Forall_cons; [apply system_event_well_formed |].
  apply Forall_cons; [apply stock_directory_well_formed |].
  apply Forall_cons; [apply stock_directory_well_formed |].
  apply Forall_app. split; [exact Ht |].
  apply Forall_cons; [apply system_event_well_formed | apply Forall_nil].
Qed.

(** Whatever the number of rounds of its loop, the generator writes a
    well-formed feed: every record starts with a type byte of the table and
    has the table length of that type, so the server replaying the file and
    the client receiving it frame exactly the records written, in order.
    With the 100 rounds of [main] these are 224 records in 7922 bytes. *)
Theorem generated_feed_replays (rounds : nat) (quot_u64 : Z -> Q -> Z) (speed : Q) :
  Forall well_formed (records rounds)
  /\ server_frames quot_u64 speed (file_source (List.concat (records rounds)))
     = Some (records rounds)
  /\ (forall sock,
         live_socket sock -> source_bytes sock = List.concat (records rounds) ->
         client_frames sock = Some (records rounds))
  /\ fst (main true) = 0
  /\ snd (main true) = Some (List.concat (records 100))
  /\ main false = (1, None)
  /\ List.length (records 100) = 224%nat
  /\ payload_bytes (records 100) = 7922.
Proof.
  pose proof (records_well_formed rounds) as Hwf.
  split; [exact Hwf |]. split; [| split].
  - destruct (run_loop_frames quot_u64 speed (file_source (List.concat (records rounds)))
                (records rounds) Hwf) as (evs & final & Hrun & Hf & _).
    + cbn [file_source source_bytes]. apply app_nil_r.
    + exact I.
    + unfold server_frames. rewrite Hrun. cbn. rewrite Hf. reflexivity.
  - intros sock Hlive Hsrc.
    destruct (ClientFacts.run_client_frames sock (records rounds) Hwf Hsrc Hlive)
      as (evs & final & Hrun & Hf & _).
    unfold client_frames. rewrite Hrun. cbn. rewrite Hf. reflexivity.
  - split; [reflexivity |]. split; [reflexivity |]. split; [reflexivity |].
    split; vm_compute; reflexivity.
Qed.

(** The first records of the sample file, on the wire. *)
Lemma sample_file_head :
  firstn 2 (records 100)
  = [ [ x53; x00; x01; x00; x00; x1f; x1a; xce; xd9; xf0; x00; x4f ];
      [ x52; x00; x01; x00; x01; x1f; x1a; xce; xe9; x32; x40;
        x41; x41; x50; x4c; x20; x20; x20; x20;
        x51; x4e; x00; x00; x00; x64; x59; x50; x00; x00; x50; x4e; x20; x31; x4e;
        x00; x00; x00; x01; x4e ] ]
  /\ nth 0 (records 100) [] = system_event_start.
Proof. split; vm_compute; reflexivity. Qed.

End GeneratorFacts.

(* ================================================================== *)
(** * The framers on well-formed, corrupt, truncated and split input   *)
(* ================================================================== *)

Module FramerFacts.
Import Codec Stream Feed CodecFacts StreamFacts ServerFacts PacerFacts.

Lemma concat_nil_well_formed msgs :
  Forall well_formed msgs -> List.concat msgs = [] -> msgs = [].
Proof.
  destruct msgs as [| m msgs]; [reflexivity |].
  intros Hwf. inversion Hwf as [| ? ? Hm _]; subst.
  destruct m; [contradiction | discriminate].
Qed.

(** C1.  For every byte sequence that is the concatenation of well-formed
    messages of table types, the server loop fed from a file with these
    contents, and the client loop fed from a socket that delivers them in any
    non-empty pieces, frame exactly those messages in the same order; each of
    them has the length the table gives for its type byte. *)
Theorem framing_round_trip (quot_u64 : Z -> Q -> Z) (speed : Q) (msgs : list (list byte)) :
  Forall well_formed msgs ->
  server_frames quot_u64 speed (file_source (List.concat msgs)) = Some msgs
  /\ client_frames (file_source (List.concat msgs)) = Some msgs
  /\ (forall sock,
         live_socket sock -> source_bytes sock = List.concat msgs ->
         client_frames sock = Some msgs)
  /\ Forall table_sized msgs.
Proof.
  intros Hwf. split; [| split; [| split]].
  - destruct (run_loop_frames quot_u64 speed (file_source (List.concat msgs)) msgs Hwf)
      as (evs & final & Hrun & Hf & _).
    + cbn [file_source source_bytes]. apply app_nil_r.
    + exact I.
    + unfold server_frames. rewrite Hrun. cbn. rewrite Hf. reflexivity.
  - destruct (List.concat msgs) as [| x s] eqn:Hs.
    + rewrite (concat_nil_well_formed msgs Hwf Hs). reflexivity.
    + destruct (ClientFacts.run_client_frames (file_source (x :: s)) msgs Hwf)
        as (evs & final & Hrun & Hf & _).
      * cbn [file_source source_bytes]. rewrite app_nil_r. auto.
      * constructor; [discriminate | constructor].
      * unfold client_frames. rewrite Hrun. cbn. rewrite Hf. reflexivity.
  - intros sock Hlive Hsrc.
    destruct (ClientFacts.run_client_frames sock msgs Hwf Hsrc Hlive)
      as (evs & final & Hrun & Hf & _).
    unfold client_frames. rewrite Hrun. cbn. rewrite Hf. reflexivity.
  - eapply Forall_impl; [| exact Hwf]. apply well_formed_table_sized.
Qed.

Lemma system_event_start_well_formed : well_formed system_event_start.
Proof. cbn. split; [discriminate | reflexivity]. Qed.

Lemma add_order_aapl_well_formed : well_formed add_order_aapl.
Proof. cbn. split; [discriminate | reflexivity]. Qed.

Lemma framing_round_trip_witness :
  server_frames exact_quot 1 (file_source (List.concat [system_event_start; add_order_aapl]))
    = Some [system_event_start; add_order_aapl]
  /\ client_frames (file_source (List.concat [system_event_start; add_order_aapl]))
    = Some [system_event_start; add_order_aapl]
  /\ (forall sock,
         live_socket sock ->
         source_bytes sock = List.concat [system_event_start; add_order_aapl] ->
         client_frames sock = Some [system_event_start; add_order_aapl])
  /\ Forall table_sized [system_event_start; add_order_aapl].
Proof.
  apply (framing_round_trip exact_quot 1 [system_event_start; add_order_aapl]).
  constructor; [apply system_event_start_well_formed |].
  constructor; [apply add_order_aapl_well_formed | constructor].
Defined.



(** The 12 bytes of the System Event handed over as 5 and 7 bytes, with
    empty deliveries in between, and the two sample messages cut in the
    middle of each: the loop frames the messages, through [fread] and
    through [gzread]. *)
Lemma split_deliveries_are_framed :
  stdio_frames false Binary64.quot_u64_x86 1
    (Stdio.deliveries [[]; firstn 5 system_event_start; []; skipn 5 system_event_start])
  = Some [system_event_start]
  /\ stdio_frames true Binary64.quot_u64_x86 1
       (Stdio.deliveries [firstn 5 system_event_start; skipn 5 system_event_start])
     = Some [system_event_start]
  /\ stdio_frames false Binary64.quot_u64_x86 1
       (Stdio.deliveries [firstn 7 system_event_start;
                          skipn 7 system_event_start ++ firstn 20 add_order_aapl;
                          skipn 20 add_order_aapl])
     = Some [system_event_start; add_order_aapl].
Proof. repeat split; vm_compute; reflexivity. Qed.

(** C5, evaluated on a file that ends after the first 5 bytes of a System
    Event.  The further read returns 0 bytes and the loop leaves through the
    [break] that precedes the report: nothing is printed, nothing is framed,
    and the 5 bytes stay in the buffer. *)
Theorem truncated_tail_at_eof_not_reported :
  Server.run_loop exact_quot 1
    (Server.initial_state (file_source (firstn 5 system_event_start)))
  = Some ([], {| Server.buffer := firstn 5 system_event_start;
                 Server.fp := [];
                 Server.prev_timestamp := 0;
                 Server.messages_sent := 0;
                 Server.total_bytes := 0 |}).
Proof. vm_compute. reflexivity. Qed.

(** C4.  When the byte the framer finds at the front of its buffer has
    table length 0, the pass prints the unknown-type diagnostic naming that
    byte, removes exactly that byte, frames nothing and stays in the loop;
    this holds for the server pass (once its refill has not left the loop)
    and for the client pass, whose framing loop goes on to return what it
    returns on the rest of the buffer, with the diagnostic in front.  In
    particular an unknown byte followed by a well-formed stream yields one
    diagnostic and then the stream's messages intact, from the server
    reading a file and from the client reading a socket that delivers the
    bytes in any non-empty pieces. *)
Theorem unknown_type_resync (b : byte) (rest : list byte) :
  get_message_length b = 0 ->
  (forall q sp st st1,
      Server.refill st = inr st1 ->
      Server.buffer st1 = b :: rest ->
      Server.replay_iteration q sp st
      = Server.Continue [Server.StderrUnknownType b]
                        (Server.with_buffer st1 rest (Server.fp st1)))
  /\ (forall fuel stats,
         Client.parse_buffer (S fuel) (b :: rest) stats
         = match Client.parse_buffer fuel rest stats with
           | Some (evs, remaining, stats') =>
               Some (Client.StderrUnknownType b :: evs, remaining, stats')
           | None => None
           end)
  /\ (forall q sp msgs,
         Forall well_formed msgs ->
         rest = List.concat msgs ->
         exists evs final,
           Server.run_loop q sp (Server.initial_state (file_source (b :: rest)))
           = Some (Server.StderrUnknownType b :: evs, final)
           /\ Server.unknown_reports evs = []
           /\ Server.framed evs = msgs)
  /\ (forall stats,
         exists evs remaining stats',
           Client.parse_messages rest stats = Some (evs, remaining, stats')
           /\ Client.parse_messages (b :: rest) stats
              = Some (Client.StderrUnknownType b :: evs, remaining, stats'))
  /\ (forall sock msgs,
         Forall well_formed msgs ->
         rest = List.concat msgs ->
         live_socket sock ->
         source_bytes sock = b :: rest ->
         exists evs final,
           Client.run_client sock = Some (Client.StderrUnknownType b :: evs, final)
           /\ Client.unknown_reports evs = []
           /\ Client.framed evs = msgs).
Proof.
  intros Hzero.
  assert (Hstep : forall q sp st st1 tl,
             Server.refill st = inr st1 ->
             Server.buffer st1 = b :: tl ->
             Server.replay_iteration q sp st
             = Server.Continue [Server.StderrUnknownType b]
                               (Server.with_buffer st1 tl (Server.fp st1))).
  { intros q sp st st1 tl Hr Hbuf.
    unfold Server.replay_iteration. rewrite Hr.
    unfold Server.buffer_used. rewrite Hbuf. cbn [List.length].
    replace (Z.of_nat (S (List.length tl)) <? 1) with false by lia.
    unfold byte_at. cbn [nth]. rewrite Hzero. reflexivity. }
  split; [| split; [| split; [| split]]].
  - intros q sp st st1. apply Hstep.
  - intros fuel stats. apply ClientFacts.parse_buffer_unknown. exact Hzero.
  - intros q sp msgs Hwf ->.
    set (st := Server.initial_state (file_source (b :: List.concat msgs))).
    destruct (refill_framing st (b :: List.concat msgs))
      as (st1 & Hr & _ & Heq1 & Hok1 & Hcap1 & Hne1 & _).
    { discriminate. }
    { cbn. rewrite app_nil_r. reflexivity. }
    { exact I. }
    { unfold Server.buffer_used. cbn. change Server.BUFFER_SIZE with 65536. lia. }
    destruct (Server.buffer st1) as [| x tl] eqn:Hbuf; [congruence |].
    cbn [app] in Heq1. injection Heq1 as -> Heq1.
    pose proof (Hstep q sp st st1 tl Hr Hbuf) as Hit.
    pose proof (iteration_progress _ _ _ _ _ Hit) as Hprog.
    destruct (replay_frames q sp msgs (Server.with_buffer st1 tl (Server.fp st1))
                (Server.pending st) Hwf)
      as (evs & final & Hrun & Hf & Hu & _); auto.
    { unfold Server.buffer_used in *. cbn [Server.with_buffer Server.buffer].
      rewrite Hbuf in Hcap1. cbn [List.length] in Hcap1. lia. }
    exists evs, final. unfold Server.run_loop. cbn [Server.replay_loop].
    rewrite Hit, Hrun. auto.
  - intros stats.
    destruct (ClientFacts.parse_messages_total rest stats) as [[[evs remaining] stats'] Hr].
    exists evs, remaining, stats'. split; [exact Hr |].
    rewrite (ClientFacts.parse_messages_unknown b rest stats Hzero), Hr. reflexivity.
  - intros sock msgs Hwf -> Hlive Hsrc.
    apply ClientFacts.run_client_resync; assumption.
Qed.

Lemma unknown_type_resync_witness :
  Server.run_loop exact_quot 1 (Server.initial_state (file_source (xff :: system_event_start)))
  = Some ([Server.StderrUnknownType xff; Server.Broadcast system_event_start;
           Server.StdoutEndOfFile],
          {| Server.buffer := []; Server.fp := [];
             Server.prev_timestamp := 34200000000000;
             Server.messages_sent := 1; Server.total_bytes := 12 |})
  /\ option_map fst (Client.run_client (file_source (xff :: system_event_start)))
     = Some [Client.StderrUnknownType xff; Client.Framed system_event_start;
             Client.StdoutDisconnected]
  /\ (exists evs final,
         Client.run_client (file_source (xff :: system_event_start))
         = Some (Client.StderrUnknownType xff :: evs, final)
         /\ Client.unknown_reports evs = []
         /\ Client.framed evs = [system_event_start])
  /\ (exists evs remaining stats',
         Client.parse_messages system_event_start Client.init_stats
         = Some (evs, remaining, stats')
         /\ Client.parse_messages (xff :: system_event_start) Client.init_stats
            = Some (Client.StderrUnknownType xff :: evs, remaining, stats')).
Proof.
  destruct (unknown_type_resync xff system_event_start eq_refl) as (_ & _ & _ & Hpass & Hrun).
  split; [vm_compute; reflexivity |].
  split; [vm_compute; reflexivity |].
  split; [| apply Hpass].
  apply (Hrun (file_source (xff :: system_event_start)) [system_event_start]).
  - constructor; [apply system_event_start_well_formed | constructor].
  - reflexivity.
  - constructor; [discriminate | constructor].
  - reflexivity.
Defined.

End FramerFacts.

(* ================================================================== *)
(** * The broadcaster                                                  *)
(* ================================================================== *)

Module BroadcastFacts.
Import Codec Stream Feed Server.

Lemma slot_events_other net msg len i j c c' evs :
  broadcast_slot net msg len j c = (c', evs) -> i <> j ->
  sends_to i evs = 0%nat /\ closes_of i evs = 0%nat.
Proof.
  intros H Hij. unfold broadcast_slot in H.
  assert (Nat.eqb i j = false) as E by (apply Nat.eqb_neq; exact Hij).
  destruct (negb (active c)); [injection H as _ <-; auto |].
  destruct (sent (net j) <? 0).
  - destruct ((errno (net j) =? EPIPE) || (errno (net j) =? ECONNRESET));
      injection H as _ <-; unfold sends_to, closes_of; cbn [filter]; rewrite E; auto.
  - injection H as _ <-. unfold sends_to, closes_of; cbn [filter]; rewrite E; auto.
Qed.

Lemma sends_to_app i a b : sends_to i (a ++ b) = (sends_to i a + sends_to i b)%nat.
Proof. unfold sends_to. rewrite filter_app, length_app. reflexivity. Qed.

Lemma closes_of_app i a b : closes_of i (a ++ b) = (closes_of i a + closes_of i b)%nat.
Proof. unfold closes_of. rewrite filter_app, length_app. reflexivity. Qed.

Lemma slot_trace_app i a b : slot_trace i (a ++ b) = slot_trace i a ++ slot_trace i b.
Proof. unfold slot_trace. apply filter_app. Qed.

(** Every operation of the body for slot [j] is tagged with [j]. *)
Lemma broadcast_slot_trace net msg len i j c :
  slot_trace i (snd (broadcast_slot net msg len j c))
  = if Nat.eqb j i then snd (broadcast_slot net msg len j c) else [].
Proof.
  unfold broadcast_slot, slot_trace.
  destruct (negb (active c)); [destruct (Nat.eqb j i); reflexivity |].
  destruct (sent (net j) <? 0).
  - destruct ((errno (net j) =? EPIPE) || (errno (net j) =? ECONNRESET));
      cbn [snd filter event_slot]; destruct (Nat.eqb j i); reflexivity.
  - cbn [snd filter event_slot]; destruct (Nat.eqb j i); reflexivity.
Qed.

Lemma broadcast_slots_untouched net msg len i : forall n cs i0 cs' evs,
  broadcast_slots net msg len i0 n cs = (cs', evs) -> (i < i0)%nat ->
  sends_to i evs = 0%nat /\ closes_of i evs = 0%nat /\ slot_trace i evs = [].
Proof.
  induction n as [| n IH]; intros cs i0 cs' evs H Hlt.
  - destruct cs; injection H as _ <-; auto.
  - destruct cs as [| c rest]; [injection H as _ <-; auto |].
    cbn [broadcast_slots] in H.
    destruct (broadcast_slot net msg len i0 c) as [c1 evs1] eqn:H1.
    destruct (broadcast_slots net msg len (S i0) n rest) as [rest1 evs2] eqn:H2.
    injection H as _ <-.
    destruct (slot_events_other _ _ _ i _ _ _ _ H1) as [Hs Hc]; [lia |].
    destruct (IH _ _ _ _ H2) as (Hs2 & Hc2 & Ht2); [lia |].
    pose proof (broadcast_slot_trace net msg len i i0 c) as Ht1.
    rewrite H1 in Ht1. cbn [snd] in Ht1.
    replace (Nat.eqb i0 i) with false in Ht1 by (symmetry; apply Nat.eqb_neq; lia).
    rewrite sends_to_app, closes_of_app, slot_trace_app, Hs, Hc, Hs2, Hc2, Ht1, Ht2. auto.
Qed.

Lemma broadcast_slots_at net msg len : forall n cs i0 k c cs' evs,
  broadcast_slots net msg len i0 n cs = (cs', evs) ->
  (k < n)%nat -> nth_error cs k = Some c ->
  exists c' evk,
    broadcast_slot net msg len (i0 + k) c = (c', evk)
    /\ nth_error cs' k = Some c'
    /\ sends_to (i0 + k) evs = sends_to (i0 + k) evk
    /\ closes_of (i0 + k) evs = closes_of (i0 + k) evk
    /\ slot_trace (i0 + k) evs = evk.
Proof.
  induction n as [| n IH]; intros cs i0 k c cs' evs H Hk Hnth; [lia |].
  destruct cs as [| c0 rest]; [destruct k; discriminate |].
  cbn [broadcast_slots] in H.
  destruct (broadcast_slot net msg len i0 c0) as [c1 evs1] eqn:H1.
  destruct (broadcast_slots net msg len (S i0) n rest) as [rest1 evs2] eqn:H2.
  injection H as <- <-.
  destruct k as [| k].
  - cbn [nth_error] in Hnth. injection Hnth as ->.
    rewrite Nat.add_0_r. exists c1, evs1.
    destruct (broadcast_slots_untouched _ _ _ i0 _ _ _ _ _ H2) as (Hs & Hc & Ht); [lia |].
    pose proof (broadcast_slot_trace net msg len i0 i0 c) as Ht1.
    rewrite H1, Nat.eqb_refl in Ht1. cbn [snd] in Ht1.
    rewrite sends_to_app, closes_of_app, slot_trace_app, Hs, Hc, Ht, Ht1, !Nat.add_0_r, app_nil_r.
    repeat split; auto.
  - cbn [nth_error] in Hnth.
    destruct (IH rest (S i0) k c rest1 evs2 H2) as (c' & evk & Hk1 & Hk2 & Hk3 & Hk4 & Hk5);
      [lia | assumption |].
    replace (i0 + S k)%nat with (S i0 + k)%nat by lia.
    exists c', evk.
    destruct (slot_events_other _ _ _ (S i0 + k)%nat _ _ _ _ H1) as [Hs Hc]; [lia |].
    pose proof (broadcast_slot_trace net msg len (S i0 + k) i0 c0) as Ht1.
    rewrite H1 in Ht1. cbn [snd] in Ht1.
    replace (Nat.eqb i0 (S i0 + k)) with false in Ht1 by (symmetry; apply Nat.eqb_neq; lia).
    rewrite sends_to_app, closes_of_app, slot_trace_app, Hs, Hc, Ht1. cbn [nth_error app].
    repeat split; auto.
Qed.

(** C7 (amended).  [broadcast_message] attempts one [send] of the slice
    [msg[0 .. len)] on the socket of every active subscriber, none for an
    inactive one, and returns [len] after the last slot.  For each slot the
    operations performed are exactly these: when the [send] fails with
    [EPIPE] or [ECONNRESET], the attempt, the disconnect line and one
    [close] of that subscriber's socket, and the slot is left inactive; when
    it fails with any other error, the attempt and [perror], and the slot
    stays as it was, active with its socket open; when it succeeds, the
    attempt alone. *)
Theorem broadcast_retires_disconnected_only
        (clients : list client_t) (net : nat -> send_outcome)
        (msg : list byte) (len : Z) (i : nat) (c : client_t) :
  (i < MAX_CLIENTS)%nat ->
  nth_error clients i = Some c ->
  let '(ret, clients', evs) := broadcast_message clients net msg len in
  let attempt := Send i (socket_fd c) (firstn (Z.to_nat len) msg) in
  ret = len
  /\ (active c = false ->
      nth_error clients' i = Some c /\ slot_trace i evs = [])
  /\ (active c = true ->
      sends_to i evs = 1%nat
      /\ (sent (net i) < 0 -> disconnect_class (errno (net i)) = true ->
          nth_error clients' i = Some (retired c)
          /\ slot_active clients' i = false
          /\ slot_trace i evs = [attempt; StdoutDisconnected i; Close i (socket_fd c)]
          /\ closes_of i evs = 1%nat)
      /\ (sent (net i) < 0 -> disconnect_class (errno (net i)) = false ->
          nth_error clients' i = Some c
          /\ slot_trace i evs = [attempt; PerrorSend i]
          /\ closes_of i evs = 0%nat)
      /\ (0 <= sent (net i) ->
          nth_error clients' i = Some c
          /\ slot_trace i evs = [attempt]
          /\ closes_of i evs = 0%nat)).
Proof.
  intros Hi Hnth. unfold broadcast_message.
  destruct (broadcast_slots net msg len 0 MAX_CLIENTS clients) as [clients' evs] eqn:Hrun.
  cbv zeta.
  split; [reflexivity |].
  destruct (broadcast_slots_at _ _ _ _ _ 0%nat i c _ _ Hrun Hi Hnth)
    as (c' & evk & Hslot & Hnth' & Hsends & Hcloses & Htrace).
  cbn [Nat.add] in *. rewrite Hsends, Hcloses, Htrace. unfold slot_active. rewrite Hnth'.
  unfold broadcast_slot, disconnect_class in *.
  split.
  - intros Hact. rewrite Hact in Hslot. cbn [negb] in Hslot.
    injection Hslot as <- <-. auto.
  - intros Hact. rewrite Hact in Hslot. cbn [negb] in Hslot.
    destruct (sent (net i) <? 0) eqn:Hneg.
    + destruct ((errno (net i) =? EPIPE) || (errno (net i) =? ECONNRESET)) eqn:Hclass;
        injection Hslot as <- <-; unfold sends_to, closes_of, retired in *; cbn [filter active];
        rewrite Nat.eqb_refl; cbn [List.length].
      * repeat split; auto; try discriminate; lia.
      * repeat split; auto; try discriminate; lia.
    + injection Hslot as <- <-. unfold sends_to, closes_of; cbn [filter].
      rewrite Nat.eqb_refl. cbn [List.length].
      repeat split; auto; lia.
Qed.

Lemma broadcast_retires_disconnected_only_witness :
  let '(ret, clients', evs) := broadcast_message one_client reset_by_peer system_event_start 12 in
  nth_error clients' 0
  = Some {| socket_fd := 7; address := (2130706433, 50000); active := false |}
  /\ slot_active clients' 0 = false
  /\ slot_trace 0 evs = [Send 0 7 system_event_start; StdoutDisconnected 0; Close 0 7]
  /\ closes_of 0 evs = 1%nat.
Proof.
  pose proof (broadcast_retires_disconnected_only one_client reset_by_peer system_event_start 12
                0%nat {| socket_fd := 7; address := (2130706433, 50000); active := true |}) as H.
  cbv zeta in H.
  destruct (broadcast_message one_client reset_by_peer system_event_start 12)
    as [[ret clients'] evs].
  destruct H as (_ & _ & H); [unfold MAX_CLIENTS; lia | reflexivity |].
  destruct (H eq_refl) as (_ & Hd & _).
  apply Hd; [cbn; lia | reflexivity].
Defined.

(** C7 as stated fails: a subscriber whose [send] fails with [ETIMEDOUT],
    which is neither [EPIPE] nor [ECONNRESET], is reported with [perror] and
    is neither retired nor closed. *)
Lemma other_send_error_keeps_slot :
  sent (timed_out 0) < 0
  /\ disconnect_class (errno (timed_out 0)) = false
  /\ slot_active one_client 0 = true
  /\ broadcast_message one_client timed_out system_event_start 12
     = (12, one_client, [Send 0 7 system_event_start; PerrorSend 0])
  /\ (let '(ret, clients', evs) :=
        broadcast_message one_client timed_out system_event_start 12 in
      slot_active clients' 0 = true
      /\ closes_of 0 evs = 0%nat
      /\ ~ (slot_active clients' 0 = false /\ closes_of 0 evs = 1%nat)).
Proof.
  split; [vm_compute; reflexivity |].
  split; [reflexivity |]. split; [reflexivity |]. split; [vm_compute; reflexivity |].
  vm_compute. repeat split; try reflexivity.
  intros [H _]. discriminate.
Qed.

End BroadcastFacts.

(* ================================================================== *)
(** * The accept thread's slot bookkeeping                           *)
(* ================================================================== *)

Module AcceptFacts.
Import Codec Server Accept Feed.

Lemma find_free_slot_spec : forall n cs i,
  match find_free_slot i n cs with
  | Some slot =>
      (i <= slot < i + n)%nat
      /\ (exists c, nth_error cs (slot - i) = Some c /\ active c = false)
      /\ (forall k c, (k < slot - i)%nat -> nth_error cs k = Some c -> active c = true)
  | None =>
      forall k c, (k < n)%nat -> nth_error cs k = Some c -> active c = true
  end.
Proof.
  induction n as [| n IH]; intros cs i.
  - cbn [find_free_slot]. intros k c Hk. lia.
  - destruct cs as [| c0 rest]; cbn [find_free_slot].
    + intros k c _ H. destruct k; discriminate H.
    + destruct (active c0) eqn:Hact; cbn [negb].
      * specialize (IH rest (S i)).
        destruct (find_free_slot (S i) n rest) as [slot |].
        -- destruct IH as (Hr & (c & Hc & Hin) & Hlow).
           split; [lia |]. split.
           ++ exists c. replace (slot - i)%nat with (S (slot - S i)) by lia.
              cbn [nth_error]. auto.
           ++ intros k c' Hk Hnth. destruct k as [| k].
              ** cbn [nth_error] in Hnth. injection Hnth as <-. exact Hact.
              ** cbn [nth_error] in Hnth. apply (Hlow k); [lia | exact Hnth].
        -- intros k c' Hk Hnth. destruct k as [| k].
           ++ cbn [nth_error] in Hnth. injection Hnth as <-. exact Hact.
           ++ cbn [nth_error] in Hnth. apply (IH k); [lia | exact Hnth].
      * split; [lia |]. split.
        -- exists c0. rewrite Nat.sub_diag. cbn [nth_error]. auto.
        -- intros k c' Hk. lia.
Qed.

Lemma assign_nth : forall cs slot c k,
  (slot < List.length cs)%nat ->
  nth_error (assign cs slot c) k = if Nat.eqb k slot then Some c else nth_error cs k.
Proof.
  induction cs as [| x cs IH]; intros slot c k Hlen; cbn [List.length] in Hlen; [lia |].
  destruct slot as [| slot]; cbn [assign].
  - destruct k; reflexivity.
  - destruct k as [| k]; [reflexivity |]. cbn [nth_error Nat.eqb]. apply IH. lia.
Qed.

Lemma assign_active_count : forall cs slot c old,
  nth_error cs slot = Some old -> active old = false -> active c = true ->
  active_count (assign cs slot c) = S (active_count cs).
Proof.
  unfold active_count.
  induction cs as [| x cs IH]; intros slot c old Hnth Hold Hc; [destruct slot; discriminate |].
  destruct slot as [| slot]; cbn [assign nth_error] in *.
  - injection Hnth as ->. cbn [filter]. rewrite Hold, Hc. reflexivity.
  - cbn [filter]. destruct (active x); cbn [List.length]; erewrite IH; eauto.
Qed.

(** A connection that [accept] returns takes the lowest slot that is not
    active: the slots below it are all active and stay as they are, as do
    the slots above it, and one slot more is active afterwards.  When every
    slot is active the connection is rejected and its descriptor closed, and
    the array is left as it was. *)
Theorem register_client_first_free
        (clients : list client_t) (client_fd : Z) (client_addr : Z * Z) :
  let '(clients', evs) := register_client clients client_fd client_addr in
  match find_free_slot 0 MAX_CLIENTS clients with
  | Some slot =>
      (slot < MAX_CLIENTS)%nat
      /\ slot_active clients slot = false
      /\ (forall k, (k < slot)%nat -> nth_error clients k <> None -> slot_active clients k = true)
      /\ evs = [StdoutConnected slot client_addr]
      /\ nth_error clients' slot
         = Some {| socket_fd := client_fd; address := client_addr; active := true |}
      /\ (forall k, k <> slot -> nth_error clients' k = nth_error clients k)
      /\ active_count clients' = S (active_count clients)
  | None =>
      (forall k c, (k < MAX_CLIENTS)%nat -> nth_error clients k = Some c -> active c = true)
      /\ clients' = clients
      /\ evs = [StdoutRejected; CloseRejected client_fd]
  end.
Proof.
  unfold register_client.
  pose proof (find_free_slot_spec MAX_CLIENTS clients 0) as Hspec.
  destruct (find_free_slot 0 MAX_CLIENTS clients) as [slot |].
  - destruct Hspec as (Hr & (c & Hc & Hin) & Hlow).
    rewrite Nat.sub_0_r in *.
    assert (Hlen : (slot < List.length clients)%nat)
      by (apply nth_error_Some; congruence).
    split; [lia |]. split; [unfold slot_active; rewrite Hc; exact Hin |].
    split.
    { intros k Hk Hsome. unfold slot_active.
      destruct (nth_error clients k) as [ck |] eqn:Hnth; [| congruence].
      apply (Hlow k); assumption. }
    split; [reflexivity |].
    split; [rewrite assign_nth by assumption; rewrite Nat.eqb_refl; reflexivity |].
    split.
    { intros k Hk. rewrite assign_nth by assumption.
      replace (Nat.eqb k slot) with false by (symmetry; apply Nat.eqb_neq; exact Hk).
      reflexivity. }
    eapply assign_active_count; eauto.
  - auto.
Qed.

Lemma register_client_samples :
  register_client full_house 99 (2130706433, 51000)
  = (full_house, [StdoutRejected; CloseRejected 99])
  /\ register_client
       (one_client
          ++ [ {| socket_fd := 0; address := (0, 0); active := false |};
               {| socket_fd := 9; address := (2130706433, 50002); active := true |};
               {| socket_fd := 0; address := (0, 0); active := false |} ])
       99 (2130706433, 51000)
     = (one_client
          ++ [ {| socket_fd := 99; address := (2130706433, 51000); active := true |};
               {| socket_fd := 9; address := (2130706433, 50002); active := true |};
               {| socket_fd := 0; address := (0, 0); active := false |} ],
        [StdoutConnected 1 (2130706433, 51000)]).
Proof. split; vm_compute; reflexivity. Qed.

End AcceptFacts.

(* ================================================================== *)
(** * Start-up                                                         *)
(* ================================================================== *)

Module StartupFacts.
Import Codec Stream Feed StreamFacts ServerFacts PacerFacts.
Import Server.

Lemma replay_itch_file_total q opened sp :
  exists ret evs, replay_itch_file q opened sp = Some (ret, evs).
Proof.
  unfold replay_itch_file. destruct opened as [src |]; [| eauto].
  unfold run_loop.
  destruct (replay_loop_terminates q sp (S (pending (initial_state src))) (initial_state src))
    as [[evs final] Hrun]; [lia |].
  rewrite Hrun. eauto.
Qed.

Lemma replay_itch_file_unpaced q opened sp ret evs :
  (sp <= 0)%Q -> replay_itch_file q opened sp = Some (ret, evs) -> sleeps evs = [].
Proof.
  intros Hm. unfold replay_itch_file. destruct opened as [src |].
  - destruct (run_loop q sp (initial_state src)) as [[evs0 final] |] eqn:Hrun; [| discriminate].
    intros H. injection H as _ <-.
    cbn [sleeps app]. rewrite sleeps_app.
    rewrite (replay_loop_unpaced q sp _ _ _ _ Hm Hrun). reflexivity.
  - intros H. injection H as _ <-. reflexivity.
Qed.

(** C8 (amended).  A speed multiplier given on the command line is taken
    as [atof] returns it, whatever its sign: [main] reports no argument error
    on its account and, once the socket is set up, starts the replay with it.
    A replay with a multiplier <= 0 never sleeps: it emits as fast as it
    frames. *)
Theorem nonpositive_speed_replays_unpaced
        (quot_u64 : Z -> Q -> Z) (atoi : string -> Z) (atof : string -> Q)
        (env : environment) (argv : list string) :
  (4 <= List.length argv)%nat ->
  exists cfg,
    parse_args atoi atof argv = inr cfg
    /\ speed_multiplier cfg = atof (nth 3 argv EmptyString)
    /\ (socket_ok env = true -> setsockopt_ok env = true ->
        bind_ok env (port cfg) = true -> listen_ok env = true ->
        exists ret evs,
          main quot_u64 atoi atof env argv
          = Some (0, [StdoutConfig cfg; StdoutListening (port cfg); Replay ret evs;
                      StdoutShutdown])
          /\ ((speed_multiplier cfg <= 0)%Q -> sleeps evs = [])).
Proof.
  intros Hargc. unfold main, parse_args.
  replace (List.length argv <? 2)%nat with false by lia.
  replace (3 <=? List.length argv)%nat with true by lia.
  replace (4 <=? List.length argv)%nat with true by lia.
  eexists. split; [reflexivity |]. split; [reflexivity |].
  cbn [speed_multiplier port filename is_gzip].
  intros -> -> -> ->. cbn [negb].
  match goal with
  | |- context [replay_itch_file quot_u64 ?o ?m] =>
      destruct (replay_itch_file_total quot_u64 o m) as (ret & evs & Hrun);
      rewrite Hrun
  end.
  exists ret, evs. split; [reflexivity |].
  intros Hm. eapply replay_itch_file_unpaced; eassumption.
Qed.

Lemma nonpositive_speed_replays_unpaced_witness :
  exists cfg,
    parse_args Feed.atoi Feed.atof negative_speed_argv = inr cfg
    /\ speed_multiplier cfg = Feed.atof (nth 3 negative_speed_argv EmptyString)
    /\ (socket_ok sample_env = true -> setsockopt_ok sample_env = true ->
        bind_ok sample_env (port cfg) = true -> listen_ok sample_env = true ->
        exists ret evs,
          main exact_quot Feed.atoi Feed.atof sample_env negative_speed_argv
          = Some (0, [StdoutConfig cfg; StdoutListening (port cfg); Replay ret evs;
                      StdoutShutdown])
          /\ ((speed_multiplier cfg <= 0)%Q -> sleeps evs = [])).
Proof.
  apply (nonpositive_speed_replays_unpaced exact_quot Feed.atoi Feed.atof sample_env
           negative_speed_argv).
  cbn. lia.
Defined.

(** C8 as stated fails: with the argument "-1" the server exits with
    status 0, prints no usage text and replays both messages of the file. *)
Lemma negative_speed_is_not_rejected :
  (Feed.atof (nth 3 negative_speed_argv EmptyString) <= 0)%Q
  /\ exists r,
      main exact_quot Feed.atoi Feed.atof sample_env negative_speed_argv = Some r
      /\ fst r = 0
      /\ argument_error r = false
      /\ replays (snd r)
         = [ [StdoutStarting; Broadcast system_event_start; Broadcast add_order_aapl;
              StdoutEndOfFile; StdoutComplete 2 48] ].
Proof.
  split; [vm_compute; discriminate |].
  eexists. split; [vm_compute; reflexivity |].
  repeat split.
Qed.

End StartupFacts.
